(** * A peer-to-peer overlay node: gossip, heartbeat, choking, reputation,
      the message protocol and the node runtime, embedded from the Python
      sources.

    Layout.  Part I holds the embedding, one module per Python class or
    module (so that [PeerState.node_id] and [HeartbeatNode.node_id] can
    both keep their source names).  Part II holds the predicates the
    properties are written with and the sample inputs.  Part III holds the
    properties C1 to C10; Part IV holds further properties of the code, X1
    to X28, on the wire format, the transport, the main loop and the
    start-up.

    Conventions of the embedding.
    - A Python [int] is a [Z]; a [str] is a [string] (code points below
      256); a [dict] used as a table is a [gmap]; a message, a [dict] with
      [str] keys that goes through JSON, is an association list in
      insertion order with pairwise different keys.
    - A method that mutates [self] takes the old object and returns the new
      one; a method that can raise returns a [result]; the methods of the
      node runtime live in a state, exception and trace monad.
    - What a function reads from outside (the clock, a random UUID, the
      answers of the queue) is an argument.
    - The ratio methods of the algorithm modules return Python floats
      obtained by one true division of two ints: the exact quotient
      rounded to the nearest binary64, kept in [Q], or [OverflowError].
      The floats that travel in messages keep NaN and the infinities apart
      from the finite values, each named by the decimal fraction that
      writes it.
    - [json], [datetime] and [uuid] belong to the Python library; the parts
      the protocol uses are written out here from their documented
      behaviour. *)

From Stdlib Require Import ZArith QArith Qabs Ascii String List Lia.
From stdpp Require Import gmap strings list fin_maps.
Import ListNotations.

Local Open Scope string_scope.
Local Open Scope list_scope.
Local Open Scope Z_scope.

(* ===================================================================== *)
(** * Part I. The embedding                                               *)
(* ===================================================================== *)

(** ** Python values, exceptions and results *)

#[local] Set Warnings "-register-all".

Module Py.

(** The exceptions the code meets.  [ValueError] stands for itself and
    for [json.JSONDecodeError], a subclass of it that no [except] of the
    repository tells apart from it. *)
Inductive exn : Type :=
| NotImplementedError
| TypeError
| KeyError
| ZeroDivisionError
| OverflowError
| ValueError
| AttributeError
| UnicodeEncodeError
| OSError.

Inductive result (A : Type) : Type :=
| Ok (a : A)
| Raise (e : exn).

Arguments Ok {A} a.
Arguments Raise {A} e.

(** The call ends with an exception. *)
Definition raises {A : Type} (c : result A) : Prop :=
  exists e, c = Raise e.

(** *** Floats

    A float is not-a-number, an infinity, or a finite value.  A finite
    value is named by a decimal fraction [m / 10^k] that writes it: it is
    the binary64 nearest to the fraction ([float_value] below).  The
    sign of zero is not modelled. *)
Inductive pyfloat : Type :=
| FNaN
| FInf (neg : bool)
| FDec (m : Z) (k : nat).

Definition pow10 (k : nat) : Z := 10 ^ Z.of_nat k.

(** [a == b] on two floats: a NaN equals nothing, itself included. *)
Definition float_eqb (a b : pyfloat) : bool :=
  match a, b with
  | FDec m1 k1, FDec m2 k2 => m1 * pow10 k2 =? m2 * pow10 k1
  | FInf s1, FInf s2 => Bool.eqb s1 s2
  | _, _ => false
  end.

(** [z == f] on an int and a float. *)
Definition int_float_eqb (z : Z) (f : pyfloat) : bool :=
  match f with
  | FDec m k => z * pow10 k =? m
  | _ => false
  end.

(** The integer nearest to [m / d], for [d] above zero; of two nearest
    ones, the even one. *)
Definition round_half_even (m d : Z) : Z :=
  let q := m / d in
  let r := m mod d in
  match 2 * r ?= d with
  | Lt => q
  | Gt => q + 1
  | Eq => if Z.even q then q else q + 1
  end.

(** *** binary64

    The float a ratio method returns is an IEEE 754 binary64: a number
    [m * 2^u] with [|m| <= 2^53] and [-1074 <= u <= 971].  It is kept
    as that number, in [Q] (the sign of a zero is not kept). *)

(** [floor (log2 (n / d))], for [n] and [d] above zero. *)
Definition log2_ratio (n d : Z) : Z :=
  let k := Z.log2 d + 1 in
  Z.log2 (n * 2 ^ k / d) - k.

(** The exponent of the unit in the last place of the binary64 values
    around [n / d]: 52 below the exponent of [n / d], and never below
    that of the subnormal numbers. *)
Definition ulp_exponent (n d : Z) : Z :=
  Z.max (log2_ratio n d - 52) (- 1074).

(** [m * 2^u] *)
Definition ldexp (m u : Z) : Q :=
  if 0 <=? u then inject_Z (m * 2 ^ u) else (m # Z.to_pos (2 ^ (- u)))%Q.

(** The multiple of the unit in the last place nearest to [n / d], for
    [n] and [d] above zero; of two nearest ones, the even multiple. *)
Definition nearest_binary64 (n d : Z) : Q :=
  let u := ulp_exponent n d in
  ldexp (round_half_even (n * 2 ^ Z.max 0 (- u)) (d * 2 ^ Z.max 0 u)) u.

(** Correct rounding of a rational number, the range of the exponent
    left aside. *)
Definition round_to_binary64 (q : Q) : Q :=
  match Qnum q with
  | 0 => 0%Q
  | Z.pos n => nearest_binary64 (Z.pos n) (Z.pos (Qden q))
  | Z.neg n => (- nearest_binary64 (Z.pos n) (Z.pos (Qden q)))%Q
  end.

(** The binary64 that the decimal fraction [m / 10^k] names. *)
Definition float_value (m : Z) (k : nat) : Q :=
  round_to_binary64 (m # Z.to_pos (pow10 k)).

(** [round(x, ndigits)] on a float with [ndigits >= 0]: NaN and the
    infinities round to themselves; a finite value goes to the multiple
    of [10^-ndigits] nearest to the binary64 it is (ties to the even
    one), and the result is the binary64 that this multiple names. *)
Definition round_ndigits (x : pyfloat) (ndigits : nat) : pyfloat :=
  match x with
  | FDec m k =>
      let v := float_value m k in
      FDec (round_half_even (Qnum v * pow10 ndigits) (Z.pos (Qden v))) ndigits
  | _ => x
  end.

(** The float an exact result is turned into by [int / int] and by
    [float(int)], which round correctly: [OverflowError] when the
    rounded number is [2^1024] or beyond, in either direction. *)
Definition to_float (q : Q) : result Q :=
  let x := round_to_binary64 q in
  if Qle_bool (inject_Z (2 ^ 1024)) (Qabs x) then Raise OverflowError else Ok x.

(** [a / b] on two ints. *)
Definition truediv (a b : Z) : result Q :=
  if b =? 0 then Raise ZeroDivisionError
  else to_float (inject_Z a / inject_Z b)%Q.

(** [float(a)] on an int. *)
Definition float_of_int (a : Z) : result Q := to_float (inject_Z a).

(** *** Values *)

Inductive value : Type :=
| PNone
| PBool (b : bool)
| PInt (z : Z)
| PFloat (f : pyfloat)
| PStr (s : string)
| PList (l : list value)
| PDict (d : list (string * value)).

(** A [dict] with [str] keys, in insertion order. *)
Definition dict : Type := list (string * value).

(** [d.get(key)], with [None] of [option] for a missing key. *)
Fixpoint dict_get (d : dict) (key : string) : option value :=
  match d with
  | [] => None
  | (k, v) :: rest => if String.eqb k key then Some v else dict_get rest key
  end.

(** [d.get(key, default)]. *)
Definition dict_get_default (d : dict) (key : string) (default : value) : value :=
  match dict_get d key with
  | Some v => v
  | None => default
  end.

(** [d[key] = v]: an existing key keeps its place, a new one goes last. *)
Fixpoint dict_set (d : dict) (key : string) (v : value) : dict :=
  match d with
  | [] => [(key, v)]
  | (k, w) :: rest =>
      if String.eqb k key then (k, v) :: rest
      else (k, w) :: dict_set rest key v
  end.

(** [del d[key]] when the key is there, nothing otherwise. *)
Fixpoint dict_remove (d : dict) (key : string) : dict :=
  match d with
  | [] => []
  | (k, w) :: rest =>
      if String.eqb k key then rest else (k, w) :: dict_remove rest key
  end.

(** [d.pop(key, None)]: the value (or [PNone]) and the dict without the key. *)
Definition dict_pop (d : dict) (key : string) : value * dict :=
  (dict_get_default d key PNone, dict_remove d key).

(** [dict(pairs)]. *)
Definition dict_of_pairs (pairs : list (string * value)) : dict :=
  fold_left (fun d kv => dict_set d (fst kv) (snd kv)) pairs [].

(** Truth value of an object, as [if x:] takes it. *)
Definition truthy (v : value) : bool :=
  match v with
  | PNone => false
  | PBool b => b
  | PInt z => negb (z =? 0)
  | PFloat (FDec m _) => negb (m =? 0)
  | PFloat _ => true
  | PStr s => negb (String.eqb s "")
  | PList l => match l with [] => false | _ => true end
  | PDict d => match d with [] => false | _ => true end
  end.

(** Two sequences of the same length that agree at every index. *)
Definition all2 {A B : Type} (f : A -> B -> bool) : list A -> list B -> bool :=
  fix go (xs : list A) (ys : list B) {struct xs} : bool :=
    match xs, ys with
    | [], [] => true
    | x :: xs', y :: ys' => f x y && go xs' ys'
    | _, _ => false
    end.

(** [a == b].  [bool] is a subclass of [int] and ints compare with
    floats by value; sequences compare element by element; two dicts are
    equal when they have as many keys and agree on each key of the
    first. *)
Fixpoint py_eq (a b : value) {struct a} : bool :=
  match a with
  | PNone => match b with PNone => true | _ => false end
  | PBool x =>
      match b with
      | PBool y => Bool.eqb x y
      | PInt z => Z.b2z x =? z
      | PFloat f => int_float_eqb (Z.b2z x) f
      | _ => false
      end
  | PInt x =>
      match b with
      | PBool y => x =? Z.b2z y
      | PInt z => x =? z
      | PFloat f => int_float_eqb x f
      | _ => false
      end
  | PFloat x =>
      match b with
      | PBool y => int_float_eqb (Z.b2z y) x
      | PInt z => int_float_eqb z x
      | PFloat f => float_eqb x f
      | _ => false
      end
  | PStr x => match b with PStr y => String.eqb x y | _ => false end
  | PList xs => match b with PList ys => all2 py_eq xs ys | _ => false end
  | PDict d1 =>
      match b with
      | PDict d2 =>
          Nat.eqb (length d1) (length d2)
          && forallb (fun kv => let '(k, v) := kv in
                                match dict_get d2 k with
                                | Some w => py_eq v w
                                | None => false
                                end) d1
      | _ => false
      end
  end.

(** A value without a NaN anywhere inside it. *)
Fixpoint nan_free (v : value) : bool :=
  match v with
  | PFloat FNaN => false
  | PList l => forallb nan_free l
  | PDict d => forallb (fun kv => let '(_, x) := kv in nan_free x) d
  | _ => true
  end.

(** No string occurs twice. *)
Fixpoint distinct (l : list string) : bool :=
  match l with
  | [] => true
  | k :: l' => negb (existsb (String.eqb k) l') && distinct l'
  end.

(** Every dict inside the value has pairwise different keys, as a
    Python dict has by construction. *)
Fixpoint keys_unique (v : value) : bool :=
  match v with
  | PList l => forallb keys_unique l
  | PDict d =>
      distinct (map fst d)
      && forallb (fun kv => let '(_, x) := kv in keys_unique x) d
  | _ => true
  end.

(** *** Text of numbers *)

Definition text : Type := list ascii.

(** The double quote. *)
Definition dquote : ascii := "034"%char.

(** A string literal as text. *)
Definition lit (s : string) : text := list_ascii_of_string s.

(** The same characters in the same order. *)
Fixpoint text_eqb (a b : text) : bool :=
  match a, b with
  | [], [] => true
  | c :: a', d :: b' => Ascii.eqb c d && text_eqb a' b'
  | _, _ => false
  end.

(** [s[:n]] on a [str]. *)
Definition str_prefix (n : nat) (s : string) : string :=
  string_of_list_ascii (firstn n (list_ascii_of_string s)).

(** The character of a decimal digit. *)
Definition digit_char (n : N) : ascii := ascii_of_N (48 + n).

(** Lower-case hexadecimal digit, as ["%x"] writes it. *)
Definition hex_char (n : N) : ascii :=
  if (n <? 10)%N then ascii_of_N (48 + n) else ascii_of_N (87 + n).

(** [width] digits of [n] in [base], most significant first, padded
    with zeros (["%0{width}d"] and ["%0{width}x"]). *)
Fixpoint fixed_digits (base : N) (width : nat) (n : N) : text :=
  match width with
  | O => []
  | S w => fixed_digits base w (n / base) ++ [hex_char (n mod base)]
  end.

(** The digits of [n], by repeated division; [fuel] bounds their
    number. *)
Fixpoint digits_fuel (fuel : nat) (n : N) : text :=
  match fuel with
  | O => []
  | S f =>
      if (n <? 10)%N then [digit_char n]
      else digits_fuel f (n / 10) ++ [digit_char (n mod 10)]
  end.

(** Decimal digits of a natural number, without leading zeros. *)
Definition digits (n : N) : text :=
  digits_fuel (S (N.to_nat (N.log2 n))) n.

(** [repr(z)] of an int. *)
Definition int_repr (z : Z) : text :=
  if z <? 0 then "-"%char :: digits (Z.abs_N z) else digits (Z.abs_N z).

(** The shortest way to write [m / 10^k] with at least one digit after
    the point. *)
Fixpoint strip_zeros (m : Z) (k : nat) : Z * nat :=
  match k with
  | O => (m * 10, 1%nat)
  | S O => (m, 1%nat)
  | S (S _ as k') =>
      if m mod 10 =? 0 then strip_zeros (m / 10) k' else (m, k)
  end.

(** [repr(x)] of a finite float, in positional notation: sign, integer
    part, point, fraction without trailing zeros.  (CPython changes to
    exponent notation from 1e16 on and below 1e-4; both notations read
    back to the same value.) *)
Definition dec_repr (m : Z) (k : nat) : text :=
  let '(m', k') := strip_zeros m k in
  let a := Z.abs_N m' in
  let d := (10 ^ N.of_nat k')%N in
  (if m' <? 0 then ["-"%char] else [])
    ++ digits (a / d) ++ "."%char :: fixed_digits 10 k' (a mod d).

(** The float [repr] writes and [float] reads back: the same number,
    with its fraction in lowest terms. *)
Definition norm_float (f : pyfloat) : pyfloat :=
  match f with
  | FDec m k => let '(m', k') := strip_zeros m k in FDec m' k'
  | _ => f
  end.

(** A value with every float inside it in the form [repr] writes. *)
Fixpoint norm (v : value) : value :=
  match v with
  | PFloat f => PFloat (norm_float f)
  | PList l => PList (map norm l)
  | PDict d => PDict (map (fun kv => let '(k, x) := kv in (k, norm x)) d)
  | _ => v
  end.

(** The number of nodes of a value, counting each element of a list or
    dict twice. *)
Fixpoint size (v : value) : nat :=
  match v with
  | PList l => S (list_sum (map (fun x => S (size x)) l))
  | PDict d => S (list_sum (map (fun kv => let '(_, x) := kv in S (size x)) d))
  | _ => 1%nat
  end.

(** *** The limit on the digits of an int

    CPython refuses to write an int out in decimal, or to read one in,
    when it has more digits than [sys.get_int_max_str_digits()], 4300
    unless the interpreter is started otherwise: the conversion raises
    [ValueError].  An int has more than 4300 digits when its magnitude
    is [10^4300] or more. *)
Definition int_max_str_digits : Z := 4300.

Definition int_fits (z : Z) : bool := Z.abs z <? 10 ^ int_max_str_digits.

(** Every int inside the value can be written out. *)
Fixpoint ints_fit (v : value) : bool :=
  match v with
  | PInt z => int_fits z
  | PList l => forallb ints_fit l
  | PDict d => forallb (fun kv => let '(_, x) := kv in ints_fit x) d
  | _ => true
  end.

End Py.

(** ** The [json] module of the Python library

    [json.dumps] and [json.loads] with their default arguments
    ([ensure_ascii=True], [allow_nan=True], separators [", "] and [": "],
    [strict=True]), on the values of [Py.value]. *)

Module json.

Import Py.

(** *** dumps *)

(** One character of a string: the two-character escapes, then the
    printable ASCII characters as they are, then [\uXXXX]. *)
Definition escape_char (c : ascii) : text :=
  let n := N_of_ascii c in
  if Ascii.eqb c dquote then ["\"%char; dquote]
  else if Ascii.eqb c "\" then lit "\\"
  else if (n =? 10)%N then lit "\n"
  else if (n =? 13)%N then lit "\r"
  else if (n =? 9)%N then lit "\t"
  else if (n =? 8)%N then lit "\b"
  else if (n =? 12)%N then lit "\f"
  else if ((32 <=? n) && (n <=? 126))%N then [c]
  else lit "\u" ++ fixed_digits 16 4 n.

Definition encode_string (s : string) : text :=
  dquote :: flat_map escape_char (list_ascii_of_string s) ++ [dquote].

Definition float_text (f : pyfloat) : text :=
  match f with
  | FNaN => lit "NaN"
  | FInf false => lit "Infinity"
  | FInf true => lit "-Infinity"
  | FDec m k => dec_repr m k
  end.

(** [", ".join(parts)] *)
Fixpoint join (parts : list text) : text :=
  match parts with
  | [] => []
  | x :: rest =>
      match rest with
      | [] => x
      | _ :: _ => x ++ lit ", " ++ join rest
      end
  end.

Fixpoint dumps_value (v : value) : text :=
  match v with
  | PNone => lit "null"
  | PBool true => lit "true"
  | PBool false => lit "false"
  | PInt z => int_repr z
  | PFloat f => float_text f
  | PStr s => encode_string s
  | PList l => "["%char :: join (map dumps_value l) ++ ["]"%char]
  | PDict d =>
      "{"%char ::
        join (map (fun kv => let '(k, x) := kv in
                             encode_string k ++ lit ": " ++ dumps_value x) d)
        ++ ["}"%char]
  end.

(** The text of a value. *)
Definition text_of (v : value) : string :=
  string_of_list_ascii (dumps_value v).

(** [json.dumps]: the text of the value, or the [ValueError] of an int
    that has too many digits to be written. *)
Definition dumps (v : value) : result string :=
  if ints_fit v then Ok (text_of v) else Raise ValueError.

(** *** loads *)

Definition is_ws (c : ascii) : bool :=
  let n := N_of_ascii c in
  ((n =? 32) || (n =? 9) || (n =? 10) || (n =? 13))%N.

Fixpoint skip_ws (s : text) : text :=
  match s with
  | c :: r => if is_ws c then skip_ws r else s
  | [] => []
  end.

Definition is_digit (c : ascii) : bool :=
  let n := N_of_ascii c in ((48 <=? n) && (n <=? 57))%N.

Definition digit_val (c : ascii) : N := (N_of_ascii c - 48)%N.

Definition hex_val (c : ascii) : option N :=
  let n := N_of_ascii c in
  if ((48 <=? n) && (n <=? 57))%N then Some (n - 48)%N
  else if ((97 <=? n) && (n <=? 102))%N then Some (n - 87)%N
  else if ((65 <=? n) && (n <=? 70))%N then Some (n - 55)%N
  else None.

Definition hex4 (a b c d : ascii) : option N :=
  match hex_val a, hex_val b, hex_val c, hex_val d with
  | Some x, Some y, Some z, Some w => Some (((x * 16 + y) * 16 + z) * 16 + w)%N
  | _, _, _, _ => None
  end.

(** The character a backslash escape stands for. *)
Definition unescape (c : ascii) : option ascii :=
  if Ascii.eqb c dquote then Some dquote
  else if Ascii.eqb c "\" then Some "\"%char
  else if Ascii.eqb c "/" then Some "/"%char
  else if Ascii.eqb c "b" then Some (ascii_of_N 8)
  else if Ascii.eqb c "f" then Some (ascii_of_N 12)
  else if Ascii.eqb c "n" then Some (ascii_of_N 10)
  else if Ascii.eqb c "r" then Some (ascii_of_N 13)
  else if Ascii.eqb c "t" then Some (ascii_of_N 9)
  else None.

Definition cons_char (c : ascii) (r : option (string * text)) : option (string * text) :=
  match r with
  | Some (s, rest) => Some (String c s, rest)
  | None => None
  end.

(** The body of a string, after its opening quote, up to and including
    the closing quote.  A raw control character is refused; a [\uXXXX]
    above 255 has no counterpart in [string] and is refused too. *)
Fixpoint scan_string (s : text) : option (string * text) :=
  match s with
  | [] => None
  | c :: r =>
      if Ascii.eqb c dquote then Some (EmptyString, r)
      else if Ascii.eqb c "\" then
        match r with
        | [] => None
        | e :: r1 =>
            if Ascii.eqb e "u" then
              match r1 with
              | h1 :: h2 :: h3 :: h4 :: r2 =>
                  match hex4 h1 h2 h3 h4 with
                  | Some n =>
                      if (n <? 256)%N then cons_char (ascii_of_N n) (scan_string r2)
                      else None
                  | None => None
                  end
              | _ => None
              end
            else
              match unescape e with
              | Some x => cons_char x (scan_string r1)
              | None => None
              end
        end
      else if (N_of_ascii c <? 32)%N then None
      else cons_char c (scan_string r)
  end.

(** The longest prefix of digits, and what follows it. *)
Fixpoint span_digits (s : text) : text * text :=
  match s with
  | c :: r =>
      if is_digit c then let '(ds, rest) := span_digits r in (c :: ds, rest)
      else ([], s)
  | [] => ([], [])
  end.

Definition value_of_digits (ds : text) : N :=
  fold_left (fun acc c => (10 * acc + digit_val c)%N) ds 0%N.

(** [0|[1-9][0-9]*] *)
Definition scan_int_part (s : text) : option (text * text) :=
  match s with
  | c :: r =>
      if Ascii.eqb c "0" then Some ([c], r)
      else if is_digit c then
        let '(ds, rest) := span_digits r in Some (c :: ds, rest)
      else None
  | [] => None
  end.

(** [(\.[0-9]+)?] *)
Definition scan_frac (s : text) : option text * text :=
  match s with
  | p :: c :: r =>
      if Ascii.eqb p "." && is_digit c then
        let '(ds, rest) := span_digits (c :: r) in (Some ds, rest)
      else (None, s)
  | _ => (None, s)
  end.

(** [([eE][-+]?[0-9]+)?] *)
Definition scan_exp (s : text) : option Z * text :=
  match s with
  | e :: r =>
      if Ascii.eqb e "e" || Ascii.eqb e "E" then
        let '(neg, r1) :=
          match r with
          | sg :: r' =>
              if Ascii.eqb sg "-" then (true, r')
              else if Ascii.eqb sg "+" then (false, r')
              else (false, r)
          | [] => (false, r)
          end in
        match span_digits r1 with
        | ([], _) => (None, s)
        | (ds, rest) =>
            let n := Z.of_N (value_of_digits ds) in
            (Some (if neg then - n else n), rest)
        end
      else (None, s)
  | [] => (None, s)
  end.

(** [float(text)] of a number with a fraction or an exponent. *)
Definition float_of_literal (neg : bool) (ids : text) (frac : option text)
    (ex : option Z) : pyfloat :=
  let fs := match frac with Some fs => fs | None => [] end in
  let a := Z.of_N (value_of_digits (ids ++ fs)) in
  let m := if neg then - a else a in
  let e := (match ex with Some e => e | None => 0 end) - Z.of_nat (length fs) in
  if 0 <=? e then FDec (m * 10 ^ e) 0 else FDec m (Z.to_nat (- e)).

(** A number: an [int] when it has neither fraction nor exponent, a
    [float] otherwise. *)
Definition parse_number (s : text) : option (value * text) :=
  let '(neg, s1) :=
    match s with
    | c :: r => if Ascii.eqb c "-" then (true, r) else (false, s)
    | [] => (false, s)
    end in
  match scan_int_part s1 with
  | None => None
  | Some (ids, s2) =>
      let '(frac, s3) := scan_frac s2 in
      let '(ex, s4) := scan_exp s3 in
      match frac, ex with
      | None, None =>
          let a := Z.of_N (value_of_digits ids) in
          Some (PInt (if neg then - a else a), s4)
      | _, _ => Some (PFloat (float_of_literal neg ids frac ex), s4)
      end
  end.

(** [s] without the prefix [p], when it starts with it. *)
Fixpoint strip_prefix (p s : text) : option text :=
  match p with
  | [] => Some s
  | c :: p' =>
      match s with
      | d :: s' => if Ascii.eqb c d then strip_prefix p' s' else None
      | [] => None
      end
  end.

(** What is tried when the text does not start a string, an array or an
    object: the three names, then a number, then the three float
    constants. *)
Definition parse_atom (s : text) : option (value * text) :=
  match strip_prefix (lit "null") s with
  | Some r => Some (PNone, r)
  | None =>
  match strip_prefix (lit "true") s with
  | Some r => Some (PBool true, r)
  | None =>
  match strip_prefix (lit "false") s with
  | Some r => Some (PBool false, r)
  | None =>
  match parse_number s with
  | Some res => Some res
  | None =>
  match strip_prefix (lit "NaN") s with
  | Some r => Some (PFloat FNaN, r)
  | None =>
  match strip_prefix (lit "Infinity") s with
  | Some r => Some (PFloat (FInf false), r)
  | None =>
  match strip_prefix (lit "-Infinity") s with
  | Some r => Some (PFloat (FInf true), r)
  | None => None
  end end end end end end end.

(** The scanner.  [fuel] bounds the number of nested calls; [loads]
    gives it the length of the text, which is always enough. *)
Fixpoint parse_value (fuel : nat) (s : text) {struct fuel} : option (value * text) :=
  match fuel with
  | O => None
  | S n =>
      match s with
      | [] => None
      | c :: r =>
          if Ascii.eqb c dquote then
            match scan_string r with
            | Some (str, rest) => Some (PStr str, rest)
            | None => None
            end
          else if Ascii.eqb c "[" then
            match skip_ws r with
            | [] => None
            | c1 :: r1 =>
                if Ascii.eqb c1 "]" then Some (PList [], r1)
                else
                  match parse_items n (c1 :: r1) with
                  | Some (vs, rest) => Some (PList vs, rest)
                  | None => None
                  end
            end
          else if Ascii.eqb c "{" then
            match skip_ws r with
            | [] => None
            | c1 :: r1 =>
                if Ascii.eqb c1 "}" then Some (PDict [], r1)
                else
                  match parse_members n (c1 :: r1) with
                  | Some (kvs, rest) => Some (PDict (dict_of_pairs kvs), rest)
                  | None => None
                  end
            end
          else parse_atom s
      end
  end

with parse_items (fuel : nat) (s : text) {struct fuel} : option (list value * text) :=
  match fuel with
  | O => None
  | S n =>
      match parse_value n s with
      | None => None
      | Some (v, r) =>
          match skip_ws r with
          | [] => None
          | c :: r1 =>
              if Ascii.eqb c "]" then Some ([v], r1)
              else if Ascii.eqb c "," then
                match parse_items n (skip_ws r1) with
                | Some (vs, rest) => Some (v :: vs, rest)
                | None => None
                end
              else None
          end
      end
  end

with parse_members (fuel : nat) (s : text) {struct fuel}
    : option (list (string * value) * text) :=
  match fuel with
  | O => None
  | S n =>
      match s with
      | [] => None
      | q :: r =>
          if Ascii.eqb q dquote then
            match scan_string r with
            | None => None
            | Some (key, r1) =>
                match skip_ws r1 with
                | [] => None
                | c :: r2 =>
                    if Ascii.eqb c ":" then
                      match parse_value n (skip_ws r2) with
                      | None => None
                      | Some (v, r3) =>
                          match skip_ws r3 with
                          | [] => None
                          | c1 :: r4 =>
                              if Ascii.eqb c1 "}" then Some ([(key, v)], r4)
                              else if Ascii.eqb c1 "," then
                                match parse_members n (skip_ws r4) with
                                | Some (kvs, rest) => Some ((key, v) :: kvs, rest)
                                | None => None
                                end
                              else None
                          end
                      end
                    else None
                end
            end
          else None
      end
  end.

(** [json.loads]: one value, with nothing but whitespace around it.
    A text that is not JSON raises [json.JSONDecodeError], and an int
    with too many digits to be read raises [ValueError]: the same
    [ValueError] here, whichever comes first in the text. *)
Definition loads (body : string) : result value :=
  let s := list_ascii_of_string body in
  match parse_value (S (length s)) (skip_ws s) with
  | Some (v, rest) =>
      match skip_ws rest with
      | [] => if ints_fit v then Ok v else Raise ValueError
      | _ :: _ => Raise ValueError
      end
  | None => Raise ValueError
  end.

End json.


(** ** [datetime] and [uuid] of the Python library *)

Module datetime.

Import Py.

(** An aware [datetime] in UTC, as [datetime.now(timezone.utc)] returns. *)
Record t : Type := mk {
  year : N;
  month : N;
  day : N;
  hour : N;
  minute : N;
  second : N;
  microsecond : N
}.

(** The ranges the constructor of [datetime] enforces (the day is also
    bounded by the length of its month, which nothing here needs). *)
Definition in_range (d : t) : bool :=
  ((1 <=? year d) && (year d <=? 9999)
   && (1 <=? month d) && (month d <=? 12)
   && (1 <=? day d) && (day d <=? 31)
   && (hour d <=? 23) && (minute d <=? 59) && (second d <=? 59)
   && (microsecond d <=? 999999))%N.

(** [d.isoformat()]: [YYYY-MM-DDTHH:MM:SS], the microseconds when they
    are not zero, and the offset of UTC. *)
Definition isoformat (d : t) : string :=
  string_of_list_ascii
    (fixed_digits 10 4 (year d) ++ "-"%char ::
     fixed_digits 10 2 (month d) ++ "-"%char ::
     fixed_digits 10 2 (day d) ++ "T"%char ::
     fixed_digits 10 2 (hour d) ++ ":"%char ::
     fixed_digits 10 2 (minute d) ++ ":"%char ::
     fixed_digits 10 2 (second d)
     ++ (if (microsecond d =? 0)%N then []
         else "."%char :: fixed_digits 10 6 (microsecond d))
     ++ lit "+00:00").

End datetime.

Module uuid.

Import Py.

(** [str(u)] for the UUID whose 128-bit [int] is [u]: 32 hexadecimal
    digits in groups of 8, 4, 4, 4 and 12. *)
Definition str (u : N) : string :=
  let h := fixed_digits 16 32 u in
  string_of_list_ascii
    (firstn 8 h ++ "-"%char ::
     firstn 4 (skipn 8 h) ++ "-"%char ::
     firstn 4 (skipn 12 h) ++ "-"%char ::
     firstn 4 (skipn 16 h) ++ "-"%char ::
     skipn 20 h).

End uuid.

(** ** protocol.py *)

Module protocol.

Import Py.

Definition HELLO : string := "HELLO".
Definition PEER_LIST : string := "PEER_LIST".
Definition PING : string := "PING".
Definition PONG : string := "PONG".
Definition VIEW_EVENT : string := "VIEW_EVENT".
Definition AUDIT_RESULT : string := "AUDIT_RESULT".
Definition CHOKE : string := "CHOKE".
Definition UNCHOKE : string := "UNCHOKE".

Definition ALL_TYPES : list string :=
  [HELLO; PEER_LIST; PING; PONG; VIEW_EVENT; AUDIT_RESULT; CHOKE; UNCHOKE].

(** What a builder reads from its surroundings: the clock and the
    random UUID. *)
Record env : Type := mk_env {
  now : datetime.t;
  uuid4 : N
}.

Definition _base (e : env) (msg_type sender : string) : dict :=
  [ ("type", PStr msg_type);
    ("sender", PStr sender);
    ("timestamp", PStr (datetime.isoformat (now e)));
    ("msg_id", PStr (str_prefix 8 (uuid.str (uuid4 e)))) ].

Definition encode (msg : dict) : result string := json.dumps (PDict msg).

Definition decode (body : string) : result value := json.loads body.

Definition hello (e : env) (sender queue_url : string) : dict :=
  let msg := _base e HELLO sender in
  dict_set msg "queue_url" (PStr queue_url).

(** A [Dict[str, str]] as a value. *)
Definition str_dict (d : list (string * string)) : value :=
  PDict (map (fun kv => (fst kv, PStr (snd kv))) d).

Definition peer_list (e : env) (sender : string)
    (peers : list (list (string * string))) : dict :=
  let msg := _base e PEER_LIST sender in
  dict_set msg "peers" (PList (map str_dict peers)).

Definition ping (e : env) (sender : string) (seq : Z) : dict :=
  let msg := _base e PING sender in
  dict_set msg "seq" (PInt seq).

Definition pong (e : env) (sender : string) (seq : Z) : dict :=
  let msg := _base e PONG sender in
  dict_set msg "seq" (PInt seq).

Definition view_event (e : env) (sender event_id content_id : string)
    (count : Z) (ad_id : string) : dict :=
  let msg := _base e VIEW_EVENT sender in
  let msg := dict_set msg "event_id" (PStr event_id) in
  let msg := dict_set msg "content_id" (PStr content_id) in
  let msg := dict_set msg "count" (PInt count) in
  dict_set msg "ad_id" (PStr ad_id).

(** [voters or []] *)
Definition voters_or_empty (voters : option (list string)) : list string :=
  match voters with
  | Some (v :: l) => v :: l
  | _ => []
  end.

Definition audit_result (e : env) (sender content_id : string)
    (agreed_count : Z) (confidence : pyfloat)
    (voters : option (list string)) : dict :=
  let msg := _base e AUDIT_RESULT sender in
  let msg := dict_set msg "content_id" (PStr content_id) in
  let msg := dict_set msg "agreed_count" (PInt agreed_count) in
  let msg := dict_set msg "confidence" (PFloat (round_ndigits confidence 4)) in
  dict_set msg "voters" (PList (map PStr (voters_or_empty voters))).

Definition choke (e : env) (sender : string) : dict := _base e CHOKE sender.

Definition unchoke (e : env) (sender : string) : dict := _base e UNCHOKE sender.

(** One call of a builder, with its arguments. *)
Inductive call : Type :=
| Hello (sender queue_url : string)
| PeerList (sender : string) (peers : list (list (string * string)))
| Ping (sender : string) (seq : Z)
| Pong (sender : string) (seq : Z)
| ViewEvent (sender event_id content_id : string) (count : Z) (ad_id : string)
| AuditResult (sender content_id : string) (agreed_count : Z)
    (confidence : pyfloat) (voters : option (list string))
| Choke (sender : string)
| Unchoke (sender : string).

(** The message the call returns. *)
Definition build (e : env) (c : call) : dict :=
  match c with
  | Hello sender queue_url => hello e sender queue_url
  | PeerList sender peers => peer_list e sender peers
  | Ping sender seq => ping e sender seq
  | Pong sender seq => pong e sender seq
  | ViewEvent sender event_id content_id count ad_id =>
      view_event e sender event_id content_id count ad_id
  | AuditResult sender content_id agreed_count confidence voters =>
      audit_result e sender content_id agreed_count confidence voters
  | Choke sender => choke e sender
  | Unchoke sender => unchoke e sender
  end.

Definition type_of (c : call) : string :=
  match c with
  | Hello _ _ => HELLO
  | PeerList _ _ => PEER_LIST
  | Ping _ _ => PING
  | Pong _ _ => PONG
  | ViewEvent _ _ _ _ _ => VIEW_EVENT
  | AuditResult _ _ _ _ _ => AUDIT_RESULT
  | Choke _ => CHOKE
  | Unchoke _ => UNCHOKE
  end.

Definition sender_of (c : call) : string :=
  match c with
  | Hello s _ | PeerList s _ | Ping s _ | Pong s _ | ViewEvent s _ _ _ _
  | AuditResult s _ _ _ _ | Choke s | Unchoke s => s
  end.

(** The arguments are what their annotations say: each peer is a dict,
    so its keys are pairwise different. *)
Definition peers_are_dicts (c : call) : bool :=
  match c with
  | PeerList _ peers => forallb (fun d => distinct (map fst d)) peers
  | _ => true
  end.

Definition confidence_is_nan (c : call) : bool :=
  match c with
  | AuditResult _ _ _ FNaN _ => true
  | _ => false
  end.

(** *** ISO 8601 *)

Fixpoint take_digits (n : nat) (acc : N) (s : text) : option (N * text) :=
  match n with
  | O => Some (acc, s)
  | S n' =>
      match s with
      | c :: r =>
          if json.is_digit c then take_digits n' (10 * acc + json.digit_val c)%N r
          else None
      | [] => None
      end
  end.

Definition expect (c : ascii) (s : text) : option text :=
  match s with
  | d :: r => if Ascii.eqb c d then Some r else None
  | [] => None
  end.

Definition and_then {A B : Type} (o : option A) (k : A -> option B) : option B :=
  match o with
  | Some a => k a
  | None => None
  end.

(** An optional fraction of a second: a point and one or more digits. *)
Definition skip_fraction (s : text) : option text :=
  match s with
  | c :: r =>
      if Ascii.eqb c "." then
        match json.span_digits r with
        | ([], _) => None
        | (_, rest) => Some rest
        end
      else Some s
  | [] => Some s
  end.

Definition between (lo hi n : N) : bool := ((lo <=? n) && (n <=? hi))%N.

(** A date and time of day in the extended format of ISO 8601,
    [YYYY-MM-DDThh:mm:ss] with an optional fraction, in UTC: the
    designator is [Z] or [+00:00]. *)
Definition is_iso8601_utc (s : string) : bool :=
  match
    and_then (take_digits 4 0 (list_ascii_of_string s)) (fun '(_, r) =>
    and_then (expect "-" r) (fun r =>
    and_then (take_digits 2 0 r) (fun '(mo, r) =>
    and_then (expect "-" r) (fun r =>
    and_then (take_digits 2 0 r) (fun '(d, r) =>
    and_then (expect "T" r) (fun r =>
    and_then (take_digits 2 0 r) (fun '(h, r) =>
    and_then (expect ":" r) (fun r =>
    and_then (take_digits 2 0 r) (fun '(mi, r) =>
    and_then (expect ":" r) (fun r =>
    and_then (take_digits 2 0 r) (fun '(sec, r) =>
    and_then (skip_fraction r) (fun r =>
      Some (between 1 12 mo && between 1 31 d && between 0 23 h
            && between 0 59 mi && between 0 59 sec
            && (text_eqb r (lit "Z") || text_eqb r (lit "+00:00")))))))))))))))
  with
  | Some b => b
  | None => false
  end.

End protocol.

(** ** config.py *)

Module config.

Definition REGION : string := "us-east-1".
Definition ACCOUNT_ID : string := "194722398367".

Definition PREFIX : string := "ds2032".

Definition STUDENTS : list string := ["hugo"; "phin"; "sam"; "bilge"; "manuel"].

Definition INSTRUCTOR : string := "gil".

Definition BOTS : list string := ["bot-alpha"; "bot-bravo"; "bot-charlie"].

(** [f"{PREFIX}-node-{node_id}-p2p"] *)
Definition node_queue_name (node_id : string) : string :=
  (PREFIX ++ "-node-" ++ node_id ++ "-p2p")%string.

Definition ALL_NODES : list string := STUDENTS ++ [INSTRUCTOR] ++ BOTS.

Definition ALL_QUEUE_NAMES : list string := map node_queue_name ALL_NODES.

Definition MESSAGE_TYPES : list string :=
  ["HELLO"; "PEER_LIST"; "PING"; "PONG"; "VIEW_EVENT"; "AUDIT_RESULT";
   "CHOKE"; "UNCHOKE"].

End config.
(** ** algorithms/heartbeat.py *)

Inductive PeerStatus : Type := ALIVE | SUSPECT | DEAD.

Module PeerState.

Record t : Type := mk {
  node_id : string;
  status : PeerStatus;
  consecutive_misses : Z;
  last_pong_round : Z;
  total_pings_sent : Z;
  total_pongs_received : Z
}.

(** The dataclass defaults. *)
Definition new (node_id : string) : t :=
  mk node_id ALIVE 0 0 0 0.

Definition response_rate (self : t) : Py.result Q :=
  if total_pings_sent self =? 0 then Py.Ok 1%Q
  else Py.truediv (total_pongs_received self) (total_pings_sent self).

End PeerState.

Module HeartbeatNode.

Record t : Type := mk {
  node_id : string;
  miss_threshold : Z;
  grace_period : Z;
  peers : gmap string PeerState.t;
  _log : list string
}.

Definition default_miss_threshold : Z := 3.
Definition default_grace_period : Z := 2.

(** [__init__] stores its arguments; it has no [raise] and no check. *)
Definition __init__ (node_id : string) (miss_threshold grace_period : Z)
  : Py.result t :=
  Py.Ok (mk node_id miss_threshold grace_period ∅ []).

Definition flush_log (self : t) : list string * t :=
  (_log self,
   mk (node_id self) (miss_threshold self) (grace_period self) (peers self) []).

End HeartbeatNode.

(** ** algorithms/choking.py *)

Module PeerTracker.

Record t : Type := mk {
  node_id : string;
  contributed : Z;
  received : Z;
  is_choked : bool;
  is_interested : bool;
  rounds_choked : Z
}.

Definition new (node_id : string) : t :=
  mk node_id 0 0 true true 0.

Definition reciprocity_ratio (self : t) : Py.result Q :=
  if received self =? 0 then Py.float_of_int (contributed self)
  else Py.truediv (contributed self) (received self).

End PeerTracker.

Module ChokingNode.

Record t : Type := mk {
  node_id : string;
  max_unchoked : Z;
  optimistic_interval : Z;
  peers : gmap string PeerTracker.t;
  _round : Z;
  _optimistic_peer : option string;
  _log : list string
}.

Definition __init__ (node_id : string) (max_unchoked optimistic_interval : Z) : t :=
  mk node_id max_unchoked optimistic_interval ∅ 0 None [].

Definition flush_log (self : t) : list string * t :=
  (_log self,
   mk (node_id self) (max_unchoked self) (optimistic_interval self)
      (peers self) (_round self) (_optimistic_peer self) []).

End ChokingNode.

(** ** algorithms/reputation.py *)

Module ReputationRecord.

Record t : Type := mk {
  node_id : string;
  reports_total : Z;
  reports_accurate : Z;
  heartbeats_total : Z;
  heartbeats_responded : Z;
  contributions : Z;
  consumptions : Z;
  decay_factor : Q;
  _trust_score : Q
}.

Definition new (node_id : string) : t :=
  mk node_id 0 0 0 0 0 0 (95 # 100) (1 # 2).

Definition accuracy (self : t) : Py.result Q :=
  if reports_total self =? 0 then Py.Ok (1 # 2)%Q
  else Py.truediv (reports_accurate self) (reports_total self).

Definition uptime (self : t) : Py.result Q :=
  if heartbeats_total self =? 0 then Py.Ok (1 # 2)%Q
  else Py.truediv (heartbeats_responded self) (heartbeats_total self).

Definition reciprocity (self : t) : Py.result Q :=
  let total := contributions self + consumptions self in
  if total =? 0 then Py.Ok (1 # 2)%Q
  else Py.truediv (contributions self) total.

Definition trust_score (self : t) : Q := _trust_score self.

End ReputationRecord.

Module ReputationNode.

Record t : Type := mk {
  node_id : string;
  peers : gmap string ReputationRecord.t;
  _log : list string
}.

Definition __init__ (node_id : string) : t := mk node_id ∅ [].

Definition flush_log (self : t) : list string * t :=
  (_log self, mk (node_id self) (peers self) []).

End ReputationNode.

(** ** algorithms/gossip.py *)

Module PeerEntry.

Record t : Type := mk {
  node_id : string;
  queue_url : string;
  last_seen : Q;
  ttl : Z
}.

Definition is_expired (self : t) : bool := ttl self <=? 0.

End PeerEntry.

Module GossipNode.

Record t : Type := mk {
  node_id : string;
  queue_url : string;
  peers : gmap string PeerEntry.t;
  _log : list string
}.

(** [queue_url or f"sqs://fake/{node_id}"]: the empty string is falsy. *)
Definition __init__ (node_id queue_url : string) : t :=
  mk node_id
     (if String.eqb queue_url "" then ("sqs://fake/" ++ node_id)%string else queue_url)
     ∅ [].

Definition known_peer_count (self : t) : Z :=
  Z.of_nat (size (peers self)).

(** Modelled from the spec: what [known_peer_count] is compared with,
    "the number of entries in the peer table whose ttl is strictly
    greater than 0".  The test is written out on the [ttl] field; it
    does not go through [PeerEntry.is_expired]. *)
Definition positive_ttl_count (self : t) : Z :=
  Z.of_nat (size (filter (fun kv => 0 < PeerEntry.ttl kv.2) (peers self))).

Definition with_peers (self : t) (p : gmap string PeerEntry.t) : t :=
  mk (node_id self) (queue_url self) p (_log self).

(** Modelled from the spec: the default [TTL_INIT] (the sources carry it
    as the default of [PeerEntry.ttl]). *)
Definition TTL_INIT : Z := 5.

(** Modelled from the spec: the body of [add_peer] is missing from the
    sources (a stub that raises [NotImplementedError]).  "Insert new
    entry with ttl = TTL_INIT, or refresh an existing entry's endpoint
    and TTL.  Calling with the node's own id is a no-op."  [now] is the
    clock reading stored in [last_seen] of a new entry. *)
Definition add_peer (self : t) (peer_id url : string) (now : Q) : t :=
  if String.eqb peer_id (node_id self) then self
  else
    match peers self !! peer_id with
    | None =>
        with_peers self
          (<[peer_id := PeerEntry.mk peer_id url now TTL_INIT]> (peers self))
    | Some e =>
        with_peers self
          (<[peer_id := PeerEntry.mk (PeerEntry.node_id e) url
                          (PeerEntry.last_seen e) TTL_INIT]> (peers self))
    end.

(** Modelled from the spec: the body of [receive_peer_list] is missing
    from the sources.  "For each {node_id, endpoint} in incoming: if
    unknown, add and count as new; if known, refresh TTL.  Returns the
    count of newly discovered peers.  Entries describing self are
    ignored." *)
Fixpoint receive_peer_list_from (self : t) (incoming : list (string * string))
    (now : Q) (found : Z) : Z * t :=
  match incoming with
  | [] => (found, self)
  | (peer_id, url) :: rest =>
      if String.eqb peer_id (node_id self) then
        receive_peer_list_from self rest now found
      else
        match peers self !! peer_id with
        | None =>
            receive_peer_list_from (add_peer self peer_id url now) rest now (found + 1)
        | Some e =>
            receive_peer_list_from
              (with_peers self
                 (<[peer_id := PeerEntry.mk (PeerEntry.node_id e) (PeerEntry.queue_url e)
                                 (PeerEntry.last_seen e) TTL_INIT]> (peers self)))
              rest now found
        end
  end.

(** Modelled from the spec: [receive_peer_list], missing from the sources
    like the loop above that does its work; [sender_id] plays no part in
    what the spec says of it. *)
Definition receive_peer_list (self : t) (incoming : list (string * string))
    (sender_id : string) (now : Q) : Z * t :=
  receive_peer_list_from self incoming now 0.

(** Modelled from the spec: one entry a round older, for [age_entries]
    below. *)
Definition decrement_ttl (e : PeerEntry.t) : PeerEntry.t :=
  PeerEntry.mk (PeerEntry.node_id e) (PeerEntry.queue_url e)
               (PeerEntry.last_seen e) (PeerEntry.ttl e - 1).

(** Modelled from the spec: the body of [age_entries] is missing from the
    sources.  "Decrement every entry's TTL by 1; remove entries with
    ttl <= 0."  The entries to remove are found with the method the
    sources give for it, [PeerEntry.is_expired] ("remove expired ones",
    in the words of the stub). *)
Definition age_entries (self : t) : t :=
  with_peers self
    (filter (fun kv => PeerEntry.is_expired kv.2 = false)
            (decrement_ttl <$> peers self)).

(** One call of a method that changes the table. *)
Inductive step : t -> t -> Prop :=
| step_add_peer g peer_id url now :
    step g (add_peer g peer_id url now)
| step_receive_peer_list g incoming sender_id now :
    step g (receive_peer_list g incoming sender_id now).2
| step_age_entries g :
    step g (age_entries g).

(** The states a node goes through from its construction. *)
Inductive reachable : t -> Prop :=
| reachable_init node_id queue_url :
    reachable (__init__ node_id queue_url)
| reachable_step g g' :
    reachable g -> step g g' -> reachable g'.

(** Every entry is live and none is filed under the node's own id. *)
Definition table_ok (self : t) : Prop :=
  map_Forall (fun _ e => 0 < PeerEntry.ttl e) (peers self)
  /\ peers self !! node_id self = None.

End GossipNode.


(** ** node.py *)

Module SQSTransport.

Import Py.

(** What one long poll of the queue comes back with: no queue URL for
    the node, a [ClientError] of the service, or a batch of messages,
    each a body and a receipt handle. *)
Inductive response : Type :=
| NoQueueUrl
| ClientError
| Messages (batch : list (string * string)).

(** The loop of [receive] over the batch: decode the body, store the
    receipt handle in the decoded dict.  A body that is not JSON raises
    out of [decode]; one that is JSON but not an object raises at the
    item assignment. *)
Fixpoint decode_batch (batch : list (string * string)) : result (list dict) :=
  match batch with
  | [] => Ok []
  | (body, receipt_handle) :: rest =>
      match protocol.decode body with
      | Raise e => Raise e
      | Ok (PDict msg) =>
          match decode_batch rest with
          | Ok messages =>
              Ok (dict_set msg "_receipt_handle" (PStr receipt_handle) :: messages)
          | Raise e => Raise e
          end
      | Ok _ => Raise TypeError
      end
  end.

Definition receive (r : response) : result (list dict) :=
  match r with
  | NoQueueUrl => Ok []
  | ClientError => Ok []
  | Messages batch => decode_batch batch
  end.

(** *** The methods, with the service they call

    What [self.sqs] answers to the transport: [get_queue_url] the URL of
    a queue name, [receive_message] a batch of bodies and receipt
    handles, [send_message] and [delete_message] nothing that is used.
    [None] and [false] stand for a [ClientError]. *)
Record service : Type := mk_service {
  sqs_get_queue_url : string -> option string;
  sqs_send_message : string -> string -> bool;
  sqs_receive_message : string -> option (list (string * string));
  sqs_delete_message : string -> string -> bool
}.

(** A call to the service, with its arguments. *)
Inductive api_call : Type :=
| GetQueueUrl (QueueName : string)
| SendMessage (QueueUrl MessageBody : string)
| ReceiveMessage (QueueUrl : string) (MaxNumberOfMessages WaitTimeSeconds : Z)
| DeleteMessage (QueueUrl ReceiptHandle : string).

(** What a method leaves: the value it returns, [_queue_url_cache]
    afterwards, and the calls it made to the service, oldest first.
    (The lines it prints after a [ClientError] are not recorded.) *)
Record answer (A : Type) : Type := mk_answer {
  value_of : A;
  cache_of : gmap string string;
  calls_of : list api_call
}.

Arguments mk_answer {A} value_of cache_of calls_of.
Arguments value_of {A} a.
Arguments cache_of {A} a.
Arguments calls_of {A} a.

Definition get_queue_url (svc : service) (cache : gmap string string)
    (node_id : string) : answer (option string) :=
  match cache !! node_id with
  | Some url => mk_answer (Some url) cache []
  | None =>
      let name := config.node_queue_name node_id in
      match sqs_get_queue_url svc name with
      | Some url => mk_answer (Some url) (<[node_id := url]> cache) [GetQueueUrl name]
      | None => mk_answer None cache [GetQueueUrl name]
      end
  end.

(** [if not url]: no URL, or an empty one. *)
Definition usable (url : option string) : option string :=
  match url with
  | Some u => if String.eqb u "" then None else Some u
  | None => None
  end.

(** [send]: the [ValueError] of [protocol.encode] is not a
    [ClientError] and goes through. *)
Definition send (svc : service) (cache : gmap string string)
    (target_node_id : string) (msg : dict) : answer (result bool) :=
  let a := get_queue_url svc cache target_node_id in
  match usable (value_of a) with
  | None => mk_answer (Ok false) (cache_of a) (calls_of a)
  | Some url =>
      match protocol.encode msg with
      | Raise e => mk_answer (Raise e) (cache_of a) (calls_of a)
      | Ok body =>
          mk_answer (Ok (sqs_send_message svc url body)) (cache_of a)
                    (calls_of a ++ [SendMessage url body])
      end
  end.

(** [receive] up to the answer of the service. *)
Definition poll (svc : service) (cache : gmap string string)
    (node_id : string) (max_messages wait_seconds : Z) : answer response :=
  let a := get_queue_url svc cache node_id in
  match usable (value_of a) with
  | None => mk_answer NoQueueUrl (cache_of a) (calls_of a)
  | Some url =>
      mk_answer (match sqs_receive_message svc url with
                 | Some batch => Messages batch
                 | None => ClientError
                 end)
                (cache_of a)
                (calls_of a ++ [ReceiveMessage url (Z.min max_messages 10) wait_seconds])
  end.

Definition delete (svc : service) (cache : gmap string string)
    (node_id receipt_handle : string) : answer unit :=
  let a := get_queue_url svc cache node_id in
  match usable (value_of a) with
  | None => mk_answer tt (cache_of a) (calls_of a)
  | Some url =>
      mk_answer tt (cache_of a) (calls_of a ++ [DeleteMessage url receipt_handle])
  end.

End SQSTransport.

Module P2PNode.

Import Py.

Record stats_t : Type := mk_stats {
  messages_received : Z;
  messages_sent : Z;
  rounds : Z
}.

Record t : Type := mk {
  node_id : string;
  verbose : bool;
  running : bool;
  my_queue_url : option string;
  _queue_url_cache : gmap string string;
  gossip : GossipNode.t;
  heartbeat : HeartbeatNode.t;
  choking : ChokingNode.t;
  reputation : ReputationNode.t;
  gossip_interval : Q;
  heartbeat_interval : Q;
  choking_interval : Q;
  reputation_interval : Q;
  _last_gossip : Q;
  _last_heartbeat : Q;
  _last_choking : Q;
  _last_reputation : Q;
  _ping_seq : Z;
  stats : stats_t
}.

(** The node [__init__] leaves, given the heartbeat module it built. *)
Definition fresh (node_id : string) (verbose : bool) (hb : HeartbeatNode.t) : t :=
  mk node_id verbose false None ∅
     (GossipNode.__init__ node_id "")
     hb
     (ChokingNode.__init__ node_id 4 3)
     (ReputationNode.__init__ node_id)
     15 10 30 30 0 0 0 0 0
     (mk_stats 0 0 0).

Definition __init__ (node_id : string) (verbose : bool) : result t :=
  match HeartbeatNode.__init__ node_id HeartbeatNode.default_miss_threshold
          HeartbeatNode.default_grace_period with
  | Raise e => Raise e
  | Ok hb => Ok (fresh node_id verbose hb)
  end.

Definition with_stats (self : t) (s : stats_t) : t :=
  mk (node_id self) (verbose self) (running self) (my_queue_url self)
     (_queue_url_cache self) (gossip self) (heartbeat self) (choking self)
     (reputation self) (gossip_interval self) (heartbeat_interval self)
     (choking_interval self) (reputation_interval self) (_last_gossip self)
     (_last_heartbeat self) (_last_choking self) (_last_reputation self)
     (_ping_seq self) s.

Definition with_running (self : t) (b : bool) : t :=
  mk (node_id self) (verbose self) b (my_queue_url self)
     (_queue_url_cache self) (gossip self) (heartbeat self) (choking self)
     (reputation self) (gossip_interval self) (heartbeat_interval self)
     (choking_interval self) (reputation_interval self) (_last_gossip self)
     (_last_heartbeat self) (_last_choking self) (_last_reputation self)
     (_ping_seq self) (stats self).

Definition with_gossip (self : t) (g : GossipNode.t) : t :=
  mk (node_id self) (verbose self) (running self) (my_queue_url self)
     (_queue_url_cache self) g (heartbeat self) (choking self)
     (reputation self) (gossip_interval self) (heartbeat_interval self)
     (choking_interval self) (reputation_interval self) (_last_gossip self)
     (_last_heartbeat self) (_last_choking self) (_last_reputation self)
     (_ping_seq self) (stats self).

(** The four [_last_*] stamps, set together. *)
Definition with_last (self : t) (g h c r : Q) : t :=
  mk (node_id self) (verbose self) (running self) (my_queue_url self)
     (_queue_url_cache self) (gossip self) (heartbeat self) (choking self)
     (reputation self) (gossip_interval self) (heartbeat_interval self)
     (choking_interval self) (reputation_interval self) g h c r
     (_ping_seq self) (stats self).

(** [self.stats["messages_received"] += 1] *)
Definition count_received (self : t) : t :=
  with_stats self
    (mk_stats (messages_received (stats self) + 1)
              (messages_sent (stats self)) (rounds (stats self))).

(** [self.stats["rounds"] += 1] *)
Definition count_round (self : t) : t :=
  with_stats self
    (mk_stats (messages_received (stats self))
              (messages_sent (stats self)) (rounds (stats self) + 1)).

(** *** Effects *)

(** A piece of an f-string: literal text, or a value to be formatted. *)
Inductive fpart : Type :=
| Lit (s : string)
| Fmt (v : value).

(** What a method of the node does besides changing the node: a line
    through [_log] (which puts the time and the node id before it) or
    straight through [print], a message through [transport.send], and
    the start of one of the eight handlers. *)
Inductive effect : Type :=
| Logged (line : list fpart)
| Printed (line : list fpart)
| Sent (target : string) (msg : dict)
| Invoked (handler_name : string).

(** What the main loop does: the effects of the methods it calls, the
    call and the normal return of [handle_message] on a message (with
    the message as it is then), and [transport.delete]. *)
Inductive event : Type :=
| Effect (x : effect)
| Call (msg : dict)
| Return (msg : dict)
| Deleted (node_id : string) (receipt_handle : value).

(** The outcome of a method: what it returned or raised, the node
    afterwards, and what it did on the way, oldest first. *)
Record outcome (E A : Type) : Type := mk_outcome {
  returned : result A;
  state : t;
  effects : list E
}.

Arguments mk_outcome {E A} returned state effects.
Arguments returned {E A} o.
Arguments state {E A} o.
Arguments effects {E A} o.

Definition M (E A : Type) : Type := t -> outcome E A.

Definition ret {E A : Type} (a : A) : M E A :=
  fun self => mk_outcome (Ok a) self [].

Definition throw {E A : Type} (e : exn) : M E A :=
  fun self => mk_outcome (Raise e) self [].

Definition bind {E A B : Type} (c : M E A) (k : A -> M E B) : M E B :=
  fun self =>
    let o := c self in
    match returned o with
    | Raise e => mk_outcome (Raise e) (state o) (effects o)
    | Ok a =>
        let o' := k a (state o) in
        mk_outcome (returned o') (state o') (effects o ++ effects o')
    end.

Definition emit {E : Type} (x : E) : M E unit :=
  fun self => mk_outcome (Ok tt) self [x].

Definition update {E : Type} (f : t -> t) : M E unit :=
  fun self => mk_outcome (Ok tt) (f self) [].

Definition read {E A : Type} (f : t -> A) : M E A :=
  fun self => mk_outcome (Ok (f self)) self [].

(** A method of the node, run from the main loop. *)
Definition lift {A : Type} (c : M effect A) : M event A :=
  fun self =>
    let o := c self in
    mk_outcome (returned o) (state o) (map Effect (effects o)).

Notation "x <- c ;; k" := (bind c (fun x => k))
  (at level 100, c at next level, right associativity).
Notation "c ;;; k" := (bind c (fun _ => k))
  (at level 100, right associativity).

(** *** Printing

    What [sys.stdout] does with a line: it writes it ([None]), or
    [print] raises; [UnicodeEncodeError] for a character that the
    encoding of the stream lacks (a lone surrogate, under UTF-8),
    [OSError] for a stream that is closed or broken. *)
Definition console : Type := list fpart -> option exn.

(** [print(line)] *)
Definition print (out : console) (line : list fpart) : M effect unit :=
  match out line with
  | None => emit (Printed line)
  | Some e => throw e
  end.

(** [self._log(message)]: the line holds the time of day, the node id
    and the message (the time, digits and colons, is left out of what
    the stream is asked). *)
Definition _log (out : console) (message : list fpart) : M effect unit :=
  fun self =>
    match out (Lit "[" :: Fmt (PStr (node_id self)) :: Lit "] " :: message) with
    | None => emit (Logged message) self
    | Some e => throw e self
    end.

(** A handler is given the message object and may change it: it
    returns the message as it leaves it. *)
Definition handler : Type := dict -> M effect dict.

Record handlers : Type := mk_handlers {
  _handle_hello : handler;
  _handle_peer_list : handler;
  _handle_ping : handler;
  _handle_pong : handler;
  _handle_view_event : handler;
  _handle_audit_result : handler;
  _handle_choke : handler;
  _handle_unchoke : handler
}.

(** The body every handler and periodic task has in node.py. *)
Definition not_implemented {A : Type} : M effect A := throw NotImplementedError.

Definition shell_handlers : handlers :=
  mk_handlers (fun _ => not_implemented) (fun _ => not_implemented)
              (fun _ => not_implemented) (fun _ => not_implemented)
              (fun _ => not_implemented) (fun _ => not_implemented)
              (fun _ => not_implemented) (fun _ => not_implemented).

Record tasks : Type := mk_tasks {
  _do_gossip : M effect unit;
  _do_heartbeat : M effect unit;
  _do_choking : M effect unit;
  _do_reputation : M effect unit
}.

Definition shell_tasks : tasks :=
  mk_tasks not_implemented not_implemented not_implemented not_implemented.

Section Methods.

(** The stream the node prints to. *)
Variable out : console.

(** The methods a subclass overrides, and what the node calls in the
    modules around it. *)
Variable H : handlers.
Variable T : tasks.

(** [protocol.format_msg(msg, compact=True)]: the text of the verbose
    log line, or the exception it raises on a message whose fields are
    not of the expected types.  The text itself is not embedded. *)
Variable format_msg : dict -> result string.

(** [self.gossip.age_entries()]: a stub in algorithms/gossip.py. *)
Variable age_entries : GossipNode.t -> result GossipNode.t.

(** [handlers.get(msg_type)] on the dict of the eight handlers, keyed
    by the type constants.  A list or a dict cannot be hashed: looking
    it up raises [TypeError].  Any other object that is not one of the
    eight strings is not found. *)
Definition handlers_get (msg_type : value) : result (option (string * handler)) :=
  match msg_type with
  | PList _ | PDict _ => Raise TypeError
  | PStr s =>
      Ok (if String.eqb s protocol.HELLO then Some ("_handle_hello", _handle_hello H)
          else if String.eqb s protocol.PEER_LIST
               then Some ("_handle_peer_list", _handle_peer_list H)
          else if String.eqb s protocol.PING then Some ("_handle_ping", _handle_ping H)
          else if String.eqb s protocol.PONG then Some ("_handle_pong", _handle_pong H)
          else if String.eqb s protocol.VIEW_EVENT
               then Some ("_handle_view_event", _handle_view_event H)
          else if String.eqb s protocol.AUDIT_RESULT
               then Some ("_handle_audit_result", _handle_audit_result H)
          else if String.eqb s protocol.CHOKE then Some ("_handle_choke", _handle_choke H)
          else if String.eqb s protocol.UNCHOKE
               then Some ("_handle_unchoke", _handle_unchoke H)
          else None)
  | _ => Ok None
  end.

Definition from_result {E A : Type} (r : result A) : M E A :=
  match r with
  | Ok a => ret a
  | Raise e => throw e
  end.

Definition handle_message (msg : dict) : M effect dict :=
  fun self =>
    let msg_type := dict_get_default msg "type" PNone in
    let sender := dict_get_default msg "sender" (PStr "?") in
    if py_eq sender (PStr (node_id self)) then ret msg self
    else
      (update count_received ;;;
       handler <- from_result (handlers_get msg_type) ;;
       match handler with
       | Some (name, handle) =>
           v <- read verbose ;;
           (if v : bool then
              line <- from_result (format_msg msg) ;;
              _log out [Lit "<- "; Lit line]
            else ret tt) ;;;
           emit (Invoked name) ;;;
           handle msg
       | None =>
           _log out [Lit "Unknown message type: "; Fmt msg_type] ;;;
           ret msg
       end) self.

(** One timer of [_run_periodic_tasks].  The readings of the clock
    and the intervals are kept in [Q], and [now - last] is their
    difference; the code subtracts two floats, which gives that
    difference whenever it is a binary64, and the binary64 nearest to
    it otherwise. *)
Definition when_due (now : Q) (last interval : t -> Q) (task : M effect unit)
    (stamp : t -> t) : M effect unit :=
  fun self =>
    if Qle_bool (interval self) (now - last self)
    then (task ;;; update stamp) self
    else ret tt self.

Definition _run_periodic_tasks (now : Q) : M effect unit :=
  when_due now _last_gossip gossip_interval (_do_gossip T)
    (fun s => with_last s now (_last_heartbeat s) (_last_choking s) (_last_reputation s)) ;;;
  when_due now _last_heartbeat heartbeat_interval (_do_heartbeat T)
    (fun s => with_last s (_last_gossip s) now (_last_choking s) (_last_reputation s)) ;;;
  when_due now _last_choking choking_interval (_do_choking T)
    (fun s => with_last s (_last_gossip s) (_last_heartbeat s) now (_last_reputation s)) ;;;
  when_due now _last_reputation reputation_interval (_do_reputation T)
    (fun s => with_last s (_last_gossip s) (_last_heartbeat s) (_last_choking s) now).

(** The [for msg in messages] of [run]. *)
Fixpoint process_messages (messages : list dict) : M event unit :=
  match messages with
  | [] => ret tt
  | msg :: rest =>
      emit (Call msg) ;;;
      msg' <- lift (handle_message msg) ;;
      emit (Return msg') ;;;
      (let '(receipt, _) := dict_pop msg' "_receipt_handle" in
       if truthy receipt then
         id <- read node_id ;;
         emit (Deleted id receipt)
       else ret tt) ;;;
      process_messages rest
  end.

(** What one turn of the loop meets: the answer of the queue and the
    reading of the clock. *)
Record round_input : Type := mk_round {
  response : SQSTransport.response;
  clock : Q
}.

Definition run_round (i : round_input) : M event unit :=
  update count_round ;;;
  messages <- from_result (SQSTransport.receive (response i)) ;;
  process_messages messages ;;;
  lift (_run_periodic_tasks (clock i)) ;;;
  g <- read gossip ;;
  g' <- from_result (age_entries g) ;;
  update (fun s => with_gossip s g').

(** The [while self.running] of [run], for as many turns as inputs
    are given: a run is observed up to the end of its inputs. *)
Fixpoint run_loop (inputs : list round_input) : M event unit :=
  match inputs with
  | [] => ret tt
  | i :: rest =>
      fun self =>
        if running self then (run_round i ;;; run_loop rest) self
        else lift (_log out [Lit "Main loop exited."]) self
  end.

Definition run (inputs : list round_input) : M event unit :=
  update (fun s => with_running s true) ;;;
  lift (_log out [Lit "Starting main loop..."]) ;;;
  id <- read node_id ;;
  lift (print out [Lit "["; Fmt (PStr id);
                   Lit "] Node running. Press Ctrl+C to stop."]) ;;;
  run_loop inputs.

Definition shutdown : M effect unit :=
  _log out [Lit "Shutting down..."] ;;;
  update (fun s => with_running s false).

End Methods.

(** *** Start-up *)

(** [self.my_queue_url] and the cache of the transport, set together. *)
Definition with_transport (self : t) (url : option string)
    (cache : gmap string string) : t :=
  mk (node_id self) (verbose self) (running self) url cache
     (gossip self) (heartbeat self) (choking self)
     (reputation self) (gossip_interval self) (heartbeat_interval self)
     (choking_interval self) (reputation_interval self) (_last_gossip self)
     (_last_heartbeat self) (_last_choking self) (_last_reputation self)
     (_ping_seq self) (stats self).

(** What [load_resources] finds at resources.json: no file
    ([FileNotFoundError], the one exception it catches); a file that it
    cannot read as a JSON object (an [OSError] of [open], the
    [ValueError] of [json.load] on text that is not JSON, the
    [AttributeError] of [data.get] on a value that is not an object,
    the [TypeError] of the look-up in a value under ["queues"] that is
    not a dict), which raises out of [initialize]; or the value under
    the key
    ["queues"] (the empty dict when the key is not there), here a dict
    from node ids to URLs as its annotation says. *)
Inductive resources : Type :=
| Missing
| Unreadable (e : exn)
| Queues (queues : gmap string string).

(** [initialize].  The call to the service that [get_queue_url] may
    make is not recorded among the effects. *)
Definition initialize (out : console) (svc : SQSTransport.service)
    (file : resources) : M effect bool :=
  fun self =>
    match file with
    | Missing =>
        (print out [Lit "[WARN] "; Lit "resources.json"; Lit " not found."] ;;;
         ret false) self
    | Unreadable e => throw e self
    | Queues queues =>
        let a := SQSTransport.get_queue_url svc queues (node_id self) in
        let self' :=
          with_transport self (SQSTransport.value_of a) (SQSTransport.cache_of a) in
        match SQSTransport.usable (SQSTransport.value_of a) with
        | None =>
            (print out [Lit "[ERR] No queue URL for "; Fmt (PStr (node_id self));
                        Lit ". Check resources.json."] ;;;
             ret false) self'
        | Some url =>
            (_log out [Lit "Initialized. Queue: "; Fmt (PStr url)] ;;; ret true) self'
        end
    end.

(** [bootstrap_nodes or BOTS] *)
Definition targets_or_bots (bootstrap_nodes : option (list string)) : list string :=
  match bootstrap_nodes with
  | Some (n :: l) => n :: l
  | _ => config.BOTS
  end.

Definition bootstrap (out : console) (bootstrap_nodes : option (list string))
    : M effect unit :=
  _log out [Lit "Bootstrapping via ";
            Fmt (PList (map PStr (targets_or_bots bootstrap_nodes))); Lit "..."] ;;;
  not_implemented.

(** *** The discipline of the main loop

    Where the loop stands with respect to [handle_message]: outside any
    call, inside one, or right after the return of one (with the message
    as the handler left it). *)
Inductive phase : Type :=
| Outside
| Inside
| Returned (msg : dict).

(** [msg.pop("_receipt_handle", None)] *)
Definition receipt_of (msg : dict) : value := fst (dict_pop msg "_receipt_handle").

(** The events the discipline allows in each phase.  A [Deleted] is
    allowed in one place only: right after a [Return], for the receipt
    of the returned message, when that receipt is truthy. *)
Inductive step : phase -> event -> phase -> Prop :=
| step_effect_inside x : step Inside (Effect x) Inside
| step_effect_outside x : step Outside (Effect x) Outside
| step_effect_returned m x : step (Returned m) (Effect x) Outside
| step_call_outside m : step Outside (Call m) Inside
| step_call_returned m0 m : step (Returned m0) (Call m) Inside
| step_return m : step Inside (Return m) (Returned m)
| step_delete id m :
    truthy (receipt_of m) = true ->
    step (Returned m) (Deleted id (receipt_of m)) Outside.

Inductive scans : phase -> list event -> phase -> Prop :=
| scans_nil ph : scans ph [] ph
| scans_cons ph ev ph1 tr ph2 :
    step ph ev ph1 -> scans ph1 tr ph2 -> scans ph (ev :: tr) ph2.

(** Not in the middle of a call. *)
Definition calm (ph : phase) : Prop :=
  match ph with
  | Inside => False
  | _ => True
  end.

(** A computation of the loop keeps the discipline: started calm, its
    events are allowed, and it ends calm unless it raises. *)
Definition disciplined {A : Type} (c : M event A) : Prop :=
  forall (self : t) (ph : phase),
    calm ph ->
    exists ph',
      scans ph (effects (c self)) ph'
      /\ match returned (c self) with
         | Ok _ => calm ph'
         | Raise _ => True
         end.

End P2PNode.

(** ** my_node.py *)

Module MyNode.

Import Py P2PNode.

(** A [MyNode]: the [P2PNode] it extends and the fields it adds. *)
Record t : Type := mk {
  base : P2PNode.t;
  publish_rate : Q;
  audit_interval : Q;
  _last_publish : Q;
  _last_audit : Q;
  content_catalog : list string
}.

Definition __init__ (node_id : string) (verbose : bool) : result t :=
  match P2PNode.__init__ node_id verbose with
  | Raise e => Raise e
  | Ok b =>
      Ok (mk b 15 45 0 0 ["show:midnight-run"; "show:neon-drift"; "show:binary-sunset"])
  end.

Definition with_base (self : t) (b : P2PNode.t) : t :=
  mk b (publish_rate self) (audit_interval self) (_last_publish self)
     (_last_audit self) (content_catalog self).

Definition with_last_publish (self : t) (now : Q) : t :=
  mk (base self) (publish_rate self) (audit_interval self) now
     (_last_audit self) (content_catalog self).

Definition with_last_audit (self : t) (now : Q) : t :=
  mk (base self) (publish_rate self) (audit_interval self) (_last_publish self)
     now (content_catalog self).

(** The outcome of a method of [MyNode]. *)
Record outcome (A : Type) : Type := mk_outcome {
  returned : result A;
  state : t;
  effects : list effect
}.

Arguments mk_outcome {A} returned state effects.
Arguments returned {A} o.
Arguments state {A} o.
Arguments effects {A} o.

(** [_run_periodic_tasks]: the timers of the base node, at the reading
    of the clock [super()._run_periodic_tasks()] takes, then the two
    timers of the application at a reading of its own.  [_do_publish]
    and [_do_audit] are [pass]. *)
Definition _run_periodic_tasks (T : tasks) (now_base now : Q) (self : t)
    : outcome unit :=
  let o := P2PNode._run_periodic_tasks T now_base (base self) in
  let self := with_base self (P2PNode.state o) in
  match P2PNode.returned o with
  | Raise e => mk_outcome (Raise e) self (P2PNode.effects o)
  | Ok _ =>
      let self :=
        if Qle_bool (publish_rate self) (now - _last_publish self)
        then with_last_publish self now else self in
      let self :=
        if Qle_bool (audit_interval self) (now - _last_audit self)
        then with_last_audit self now else self in
      mk_outcome (Ok tt) self (P2PNode.effects o)
  end.

(** *** main *)

(** The arguments of the command line. *)
Record args : Type := mk_args {
  id : string;
  verbose : bool;
  bootstrap : option (list string)
}.

(** What [parser.parse_args()] makes of the command line: it leaves
    the program ([sys.exit(2)] on a command line it refuses,
    [sys.exit(0)] after [--help]), or returns the arguments. *)
Inductive command_line : Type :=
| Refused (status : Z)
| Parsed (a : args).

(** How [main] ends: by [sys.exit], by an exception nothing catches,
    or by returning. *)
Inductive ending : Type :=
| SystemExit (code : Z)
| Uncaught (e : exn)
| Completed.

(** [main], with the stream, the service and the resources.json it
    meets, and the [node.run()] it would make.  What [main] prints
    itself is recorded with the effects of the node (the text of a
    caught exception is not embedded); the handler it sets for Ctrl+C is
    left out, no signal being modelled. *)
Definition main (out : console) (svc : SQSTransport.service)
    (file : resources) (run : M event unit) (cl : command_line)
    : ending * list event :=
  match cl with
  | Refused status => (SystemExit status, [])
  | Parsed a =>
      if negb (existsb (String.eqb (id a)) config.STUDENTS) then
        let line := [Lit "[ERR] Use one of: ";
                     Fmt (PList (map PStr config.STUDENTS))] in
        match out line with
        | Some e => (Uncaught e, [])
        | None => (SystemExit 1, [Effect (Printed line)])
        end
      else
        match __init__ (id a) (verbose a) with
        | Raise e => (Uncaught e, [])
        | Ok node =>
            let o1 := P2PNode.initialize out svc file (base node) in
            let tr1 := map Effect (P2PNode.effects o1) in
            match P2PNode.returned o1 with
            | Raise e => (Uncaught e, tr1)
            | Ok false => (SystemExit 1, tr1)
            | Ok true =>
                let o2 := P2PNode.bootstrap out (bootstrap a) (P2PNode.state o1) in
                let tr2 := tr1 ++ map Effect (P2PNode.effects o2) in
                match P2PNode.returned o2 with
                | Raise e => (Uncaught e, tr2)
                | Ok _ =>
                    let o3 := run (P2PNode.state o2) in
                    let tr3 := tr2 ++ P2PNode.effects o3 in
                    match P2PNode.returned o3 with
                    | Ok _ => (Completed, tr3)
                    | Raise _ =>
                        let o4 :=
                          (P2PNode.print out [Lit "[ERR] "] ;;;
                           P2PNode.shutdown out) (P2PNode.state o3) in
                        (match P2PNode.returned o4 with
                         | Ok _ => Completed
                         | Raise e => Uncaught e
                         end,
                         tr3 ++ map Effect (P2PNode.effects o4))
                    end
                end
            end
        end
  end.

End MyNode.

(* ===================================================================== *)
(** * Part II. Vocabulary of the properties                               *)
(* ===================================================================== *)

(** The predicates the statements and their proofs are written with, and
    the sample inputs of the examples. *)

Section GossipVocabulary.

Import GossipNode.

(** A run that exercises every method: two peers learnt, one of them
    through a peer list, then one round of ageing. *)
Definition sample_gossip : GossipNode.t :=
  age_entries
    (receive_peer_list
       (add_peer (__init__ "node-a" "") "node-b" "https://sqs.fake/b" 0%Q)
       [("node-c", "https://sqs.fake/c"); ("node-a", "https://sqs.fake/a")]
       "node-b" 1%Q).2.

End GossipVocabulary.

Section JsonVocabulary.

Import Py json.

(** The value of a run of digits read after the digits worth [acc]. *)
Definition val_from (acc : N) (ds : text) : N :=
  fold_left (fun a c => (10 * a + digit_val c)%N) ds acc.

(** What [digits] is held to: only digits, the right value, and no
    leading zero but for zero itself. *)
Definition canonical_digits (n : N) (ds : text) : Prop :=
  forallb is_digit ds = true
  /\ value_of_digits ds = n
  /\ match ds with
     | [] => False
     | c :: _ => n <> 0%N -> Ascii.eqb c "0" = false
     end.

(** A text that does not go on with a digit. *)
Definition no_digit_ahead (rest : text) : Prop :=
  match rest with
  | [] => True
  | c :: _ => is_digit c = false
  end.

(** What may follow a value in the text [dumps] writes: the end, or one
    of [,], []] and [}]. *)
Definition delimited (rest : text) : Prop :=
  match rest with
  | [] => True
  | c :: _ => c = ","%char \/ c = "]"%char \/ c = "}"%char
  end.

(** A character that starts a number. *)
Definition number_start (c : ascii) : Prop :=
  is_digit c = true \/ c = "-"%char.

(** The first character of a dumped value: not whitespace and not a
    closing bracket. *)
Definition value_start (s : text) : Prop :=
  match s with
  | [] => False
  | c :: _ => is_ws c = false /\ Ascii.eqb c "]" = false /\ Ascii.eqb c "}" = false
  end.

(** One member of an object, as [dumps] writes it. *)
Definition member_text (kv : string * value) : text :=
  let '(k, x) := kv in encode_string k ++ lit ": " ++ dumps_value x.

(** With enough fuel, the scanner reads a dumped value back, up to the
    form of its floats, and stops right after it. *)
Definition reads_back (v : value) : Prop :=
  keys_unique v = true ->
  forall (fuel : nat) (rest : text),
    (size v <= fuel)%nat -> delimited rest ->
    parse_value fuel (dumps_value v ++ rest) = Some (norm v, rest).

End JsonVocabulary.

Section ProtocolVocabulary.

Import Py protocol.

Definition sample_env : env :=
  mk_env (datetime.mk 2026 3 9 7 5 0 123) 170141183460469231731687303715884118201.

Definition sample_peers : list (list (string * string)) :=
  [ [("node_id", "sam"); ("queue_url", "https://sqs/ds2032-node-sam-p2p")];
    [("node_id", "phin"); ("queue_url", "https://sqs/ds2032-node-phin-p2p")] ].

(** The ints among the arguments of a call. *)
Definition ints_of (c : call) : list Z :=
  match c with
  | Ping _ seq | Pong _ seq => [seq]
  | ViewEvent _ _ _ count _ => [count]
  | AuditResult _ _ agreed_count _ _ => [agreed_count]
  | _ => []
  end.

End ProtocolVocabulary.

Section NodeVocabulary.

Import Py P2PNode.

Definition sample_node : P2PNode.t :=
  fresh "hugo" false (HeartbeatNode.mk "hugo" 3 2 ∅ []).

(** The type of a message that [handlers.get] can look up and does not
    find: not a list or a dict, and not one of the eight constants. *)
Definition unknown_type (msg_type : value) : Prop :=
  match msg_type with
  | PList _ | PDict _ => False
  | PStr s => ~ In s protocol.ALL_TYPES
  | _ => True
  end.

(** The loop of node.py as it stands (every handler, task and
    [age_entries] a stub), on one message of an unknown type and one
    [PING], each arriving alone in the first turn. *)
Definition shell_run (body : dict) : outcome event unit :=
  run (fun _ => None) shell_handlers shell_tasks (fun _ => Ok "")
    (fun _ => Raise NotImplementedError)
    [mk_round (SQSTransport.Messages [(json.text_of (PDict body), "r-1")]) 1762000000]
    sample_node.

End NodeVocabulary.


Section WireVocabulary.

Import Py.


(** A printable ASCII character: from the space to the tilde. *)
Definition printable (c : ascii) : bool :=
  ((32 <=? N_of_ascii c) && (N_of_ascii c <=? 126))%N.

End WireVocabulary.

Section TransportVocabulary.

Import Py SQSTransport.

(** A message with every float inside it in the form [repr] writes. *)
Definition norm_dict (msg : dict) : dict :=
  map (fun kv => let '(k, x) := kv in (k, norm x)) msg.



(** A body [receive] can take: the text of a JSON object. *)
Definition is_object (body : string) : bool :=
  match protocol.decode body with
  | Ok (PDict _) => true
  | _ => false
  end.

(** A text without a backslash followed by [u]: it holds no [\uXXXX]
    escape.  (Of such an escape the scanner here takes the code points
    below 256 only, where [json.loads] takes them all; on a text
    without one the two read alike.) *)
Fixpoint no_u_escape (s : text) : bool :=
  match s with
  | [] => true
  | c :: rest =>
      match rest with
      | d :: _ =>
          if Ascii.eqb c "\" && Ascii.eqb d "u" then false else no_u_escape rest
      | [] => true
      end
  end.

(** A service that knows the queue of sam only, and accepts every
    message. *)
Definition sample_service : service :=
  mk_service
    (fun name => if String.eqb name "ds2032-node-sam-p2p"
                 then Some "https://sqs.us-east-1.amazonaws.com/194722398367/ds2032-node-sam-p2p"
                 else None)
    (fun _ _ => true)
    (fun _ => Some [])
    (fun _ _ => true).

(** A service that is down. *)
Definition failing_service : service :=
  mk_service (fun _ => None) (fun _ _ => false) (fun _ => None) (fun _ _ => false).

End TransportVocabulary.

Section LoopVocabulary.

Import Py P2PNode.

(** The messages [handle_message] was called on in a trace, those it
    returned on, and the receipt handles given to [transport.delete],
    each in the order of the trace. *)
Definition calls_in (tr : list event) : list dict :=
  flat_map (fun ev => match ev with Call msg => [msg] | _ => [] end) tr.

Definition returns_in (tr : list event) : list dict :=
  flat_map (fun ev => match ev with Return msg => [msg] | _ => [] end) tr.

Definition deleted_in (tr : list event) : list value :=
  flat_map (fun ev => match ev with Deleted _ r => [r] | _ => [] end) tr.

(** The handlers that were started in a trace. *)
Definition invoked_in (tr : list event) : list string :=
  flat_map (fun ev => match ev with Effect (Invoked name) => [name] | _ => [] end) tr.

(** The receipt handles of a list of messages that [if receipt:] lets
    through. *)
Definition receipts (messages : list dict) : list value :=
  List.filter truthy (map receipt_of messages).

(** The line [handle_message] logs for a type it does not find, as
    [_log] hands it to the stream. *)
Definition unknown_type_line (id : string) (msg : dict) : list fpart :=
  [Lit "["; Fmt (PStr id); Lit "] ";
   Lit "Unknown message type: "; Fmt (dict_get_default msg "type" PNone)].

(** A message the dispatcher settles without a handler: an echo of the
    node's own, or one of a type that is looked up and not found, whose
    log line the stream takes. *)
Definition passes_by (out : console) (id : string) (msg : dict) : Prop :=
  py_eq (dict_get_default msg "sender" (PStr "?")) (PStr id) = true
  \/ (py_eq (dict_get_default msg "sender" (PStr "?")) (PStr id) = false
      /\ unknown_type (dict_get_default msg "type" PNone)
      /\ out (unknown_type_line id msg) = None).

(** The dict of [handle_message], from each type constant to the name
    of its handler. *)
Definition handler_name (msg_type : string) : option string :=
  if String.eqb msg_type protocol.HELLO then Some "_handle_hello"
  else if String.eqb msg_type protocol.PEER_LIST then Some "_handle_peer_list"
  else if String.eqb msg_type protocol.PING then Some "_handle_ping"
  else if String.eqb msg_type protocol.PONG then Some "_handle_pong"
  else if String.eqb msg_type protocol.VIEW_EVENT then Some "_handle_view_event"
  else if String.eqb msg_type protocol.AUDIT_RESULT then Some "_handle_audit_result"
  else if String.eqb msg_type protocol.CHOKE then Some "_handle_choke"
  else if String.eqb msg_type protocol.UNCHOKE then Some "_handle_unchoke"
  else None.

(** A stream that takes every line. *)
Definition open_console : console := fun _ => None.

(** [age_entries] as algorithms/gossip.py has it. *)
Definition stub_age_entries (g : GossipNode.t) : result GossipNode.t :=
  Raise NotImplementedError.

(** A computation of the loop deletes the receipts of the messages it
    returned on, and nothing else. *)
Definition acknowledging {A : Type} (c : M event A) : Prop :=
  forall self : P2PNode.t,
    deleted_in (effects (c self)) = receipts (returns_in (effects (c self))).

End LoopVocabulary.

Section ShellVocabulary.

Import Py P2PNode.

(** Two messages no handler is for: one of a type that is none of the
    eight, with a receipt handle, and an echo of hugo's own. *)
Definition sample_stray : list dict :=
  [ [("type", PStr "NOPE"); ("sender", PStr "sam"); ("_receipt_handle", PStr "r-1")];
    [("type", PStr "PING"); ("sender", PStr "hugo"); ("seq", PInt 7)] ].

(** The node, set to log every message it dispatches. *)
Definition with_verbose (self : P2PNode.t) : P2PNode.t :=
  mk (node_id self) true (running self) (my_queue_url self)
     (_queue_url_cache self) (gossip self) (heartbeat self) (choking self)
     (reputation self) (gossip_interval self) (heartbeat_interval self)
     (choking_interval self) (reputation_interval self) (_last_gossip self)
     (_last_heartbeat self) (_last_choking self) (_last_reputation self)
     (_ping_seq self) (stats self).

(** A [PING] of sam. *)
Definition sample_ping : dict :=
  [("type", PStr "PING"); ("sender", PStr "sam"); ("seq", PInt 7)].

(** The [MyNode] of hugo, fresh from [__init__]. *)
Definition sample_my_node : MyNode.t :=
  MyNode.mk sample_node 15 45 0 0
    ["show:midnight-run"; "show:neon-drift"; "show:binary-sunset"].

End ShellVocabulary.
(* ===================================================================== *)
(** * Part III. Properties                                                *)
(* ===================================================================== *)

(** ** Rounding to binary64 *)

Section Binary64Facts.

Import Py.

Lemma round_half_even_close (m d : Z) :
  0 < d -> 2 * Z.abs (round_half_even m d * d - m) <= d.
Proof.
  intros Hd. unfold round_half_even.
  pose proof (Z.div_mod m d ltac:(lia)) as Hm.
  pose proof (Z.mod_pos_bound m d Hd) as Hr.
  revert Hm Hr. generalize (m / d) (m mod d). intros q r Hm Hr.
  destruct (Z.compare_spec (2 * r) d) as [E | E | E];
    [destruct (Z.even q) | |]; nia.
Qed.

Lemma round_half_even_range (m d top : Z) :
  0 < d -> 0 <= m <= top * d -> 0 <= round_half_even m d <= top.
Proof.
  intros Hd Hrange. unfold round_half_even.
  pose proof (Z.div_mod m d ltac:(lia)) as Hm.
  pose proof (Z.mod_pos_bound m d Hd) as Hr.
  revert Hm Hr. generalize (m / d) (m mod d). intros q r Hm Hr.
  assert (0 <= q) by nia.
  assert (q < top \/ (q = top /\ r = 0)) as Hq by nia.
  destruct (Z.compare_spec (2 * r) d) as [E | E | E];
    [destruct (Z.even q) | |]; nia.
Qed.

Lemma round_half_even_above (m d bottom : Z) :
  0 < d -> bottom * d <= m -> bottom <= round_half_even m d.
Proof.
  intros Hd Hrange. unfold round_half_even.
  pose proof (Z.div_mod m d ltac:(lia)) as Hm.
  pose proof (Z.mod_pos_bound m d Hd) as Hr.
  revert Hm Hr. generalize (m / d) (m mod d). intros q r Hm Hr.
  assert (bottom <= q) by nia.
  destruct (Z.compare_spec (2 * r) d) as [E | E | E];
    [destruct (Z.even q) | |]; lia.
Qed.

Lemma pow2_pos (a : Z) : 0 <= a -> 0 < 2 ^ a.
Proof. intros H. apply Z.pow_pos_nonneg; lia. Qed.

(** [log2_ratio] is the exponent of [n / d]:
    [2^e <= n / d < 2^(e+1)], written without fractions. *)
Lemma log2_ratio_spec (n d : Z) :
  0 < n -> 0 < d ->
  let k := Z.log2 d + 1 in
  let l := log2_ratio n d + k in
  0 <= l /\ d * 2 ^ l <= n * 2 ^ k < d * 2 ^ (l + 1).
Proof.
  intros Hn Hd. cbv zeta. unfold log2_ratio.
  set (k := Z.log2 d + 1).
  replace (Z.log2 (n * 2 ^ k / d) - k + k) with (Z.log2 (n * 2 ^ k / d)) by lia.
  pose proof (Z.log2_nonneg d) as Hk.
  assert (d < 2 ^ k) as Hdk by (apply (Z.log2_spec d Hd)).
  assert (0 < 2 ^ k) as Hpk by (apply pow2_pos; lia).
  set (N := n * 2 ^ k) in *.
  assert (d <= N) as HdN by (unfold N; nia).
  assert (1 <= N / d) as Hq by (apply Z.div_le_lower_bound; lia).
  pose proof (Z.log2_spec (N / d) ltac:(lia)) as [Hlo Hhi].
  pose proof (Z.log2_nonneg (N / d)) as Hl.
  pose proof (Z.mul_div_le N d Hd) as Hmul.
  pose proof (Z.mul_succ_div_gt N d Hd) as Hsucc.
  change (Z.succ (Z.log2 (N / d))) with (Z.log2 (N / d) + 1) in Hhi.
  revert Hlo Hhi Hmul Hsucc Hl.
  generalize (Z.log2 (N / d)). intros l Hlo Hhi Hmul Hsucc Hl.
  generalize dependent (2 ^ (l + 1)). generalize dependent (2 ^ l).
  generalize dependent (N / d). intros. nia.
Qed.

(** The scaled numerator and denominator of the mantissa: fewer than 53 bits apart *)
Lemma mantissa_scaled_lt (n d : Z) :
  0 < n -> 0 < d ->
  let u := ulp_exponent n d in
  0 < d * 2 ^ Z.max 0 u
  /\ 0 < n * 2 ^ Z.max 0 (- u)
  /\ n * 2 ^ Z.max 0 (- u) < 2 ^ 53 * (d * 2 ^ Z.max 0 u).
Proof.
  intros Hn Hd. cbv zeta. unfold ulp_exponent.
  destruct (log2_ratio_spec n d Hn Hd) as (Hl & Hlo & Hhi).
  pose proof (Z.log2_nonneg d) as Hk.
  set (k := Z.log2 d + 1) in *. set (l := log2_ratio n d + k) in *.
  set (u := Z.max (log2_ratio n d - 52) (- 1074)).
  set (P := Z.max 0 (- u)). set (M := Z.max 0 u).
  assert (0 <= P) by lia. assert (0 <= M) by lia.
  assert (l + 1 + P <= M + k + 53) as Hexp by lia.
  assert (0 < 2 ^ P) by (apply pow2_pos; lia).
  assert (0 < 2 ^ M) by (apply pow2_pos; lia).
  assert (0 < 2 ^ k) by (apply pow2_pos; lia).
  split; [nia |]. split; [nia |].
  assert (2 ^ (l + 1) * 2 ^ P <= 2 ^ M * 2 ^ k * 2 ^ 53) as Hpow.
  { rewrite <- !Z.pow_add_r by lia. apply Z.pow_le_mono_r; lia. }
  assert (0 < 2 ^ 53) by (apply pow2_pos; lia).
  revert Hhi Hpow. generalize (2 ^ (l + 1)) (2 ^ 53).
  intros A B Hhi Hpow.
  apply (Z.mul_lt_mono_pos_r (2 ^ k)); [assumption |].
  nia.
Qed.



Lemma ldexp_negative (m u : Z) :
  u < 0 -> ldexp m u = (m # Z.to_pos (2 ^ (- u)))%Q.
Proof. intros H. unfold ldexp. destruct (Z.leb_spec 0 u); [lia | reflexivity]. Qed.

Lemma ldexp_nonnegative (m u : Z) :
  0 <= u -> ldexp m u = inject_Z (m * 2 ^ u).
Proof. intros H. unfold ldexp. destruct (Z.leb_spec 0 u); [reflexivity | lia]. Qed.

Lemma ldexp_nonneg (m u : Z) : 0 <= m -> (0 <= ldexp m u)%Q.
Proof.
  intros Hm. unfold ldexp. destruct (Z.leb_spec 0 u) as [Hu | Hu].
  - unfold Qle. cbn. pose proof (pow2_pos u Hu). nia.
  - unfold Qle. cbn. lia.
Qed.

(** The exponent of a ratio that is at most one is at most zero. *)
Lemma log2_ratio_unit (n d : Z) :
  0 < n -> n <= d -> log2_ratio n d <= 0.
Proof.
  intros Hn Hnd.
  destruct (log2_ratio_spec n d Hn ltac:(lia)) as (Hl & Hlo & _).
  pose proof (Z.log2_nonneg d) as Hk.
  set (k := Z.log2 d + 1) in *. set (l := log2_ratio n d + k) in *.
  assert (0 < 2 ^ k) by (apply pow2_pos; lia).
  assert (2 ^ l <= 2 ^ k) as Hpow by nia.
  apply Z.pow_le_mono_r_iff in Hpow; lia.
Qed.

(** A ratio between zero and one rounds to a number between zero and
    one. *)
Lemma nearest_binary64_unit (n d : Z) :
  0 < n -> n <= d ->
  (0 <= nearest_binary64 n d /\ nearest_binary64 n d <= 1)%Q.
Proof.
  intros Hn Hnd. unfold nearest_binary64.
  pose proof (log2_ratio_unit n d Hn Hnd) as He.
  assert (ulp_exponent n d < 0) as Hu by (unfold ulp_exponent; lia).
  revert Hu. generalize (ulp_exponent n d). intros u Hu.
  replace (Z.max 0 (- u)) with (- u) by lia.
  replace (Z.max 0 u) with 0 by lia.
  rewrite Z.pow_0_r, Z.mul_1_r, ldexp_negative by exact Hu.
  assert (0 < 2 ^ (- u)) as Hp by (apply pow2_pos; lia).
  assert (0 <= round_half_even (n * 2 ^ (- u)) d <= 2 ^ (- u)) as Hm
    by (apply round_half_even_range; nia).
  unfold Qle. cbn [Qnum Qden]. rewrite Z2Pos.id by exact Hp. lia.
Qed.

(** A ratio below [2^1023] rounds to a number below [2^1024]. *)
Lemma nearest_binary64_in_range (n d : Z) :
  0 < n -> 0 < d -> n < 2 ^ 1023 * d ->
  (0 <= nearest_binary64 n d /\ nearest_binary64 n d < inject_Z (2 ^ 1024))%Q.
Proof.
  intros Hn Hd Hlt. unfold nearest_binary64.
  destruct (mantissa_scaled_lt n d Hn Hd) as (HB & HA & HAB).
  assert (0 <= round_half_even (n * 2 ^ Z.max 0 (- ulp_exponent n d))
                 (d * 2 ^ Z.max 0 (ulp_exponent n d)) <= 2 ^ 53) as Hm
    by (apply round_half_even_range; lia).
  assert (ulp_exponent n d <= 970) as Hu.
  { unfold ulp_exponent.
    destruct (log2_ratio_spec n d Hn Hd) as (Hl & Hlo & _).
    pose proof (Z.log2_nonneg d) as Hk.
    set (k := Z.log2 d + 1) in *. set (l := log2_ratio n d + k) in *.
    assert (0 < 2 ^ k) by (apply pow2_pos; lia).
    assert (2 ^ l < 2 ^ (1023 + k)) as Hpow.
    { rewrite Z.pow_add_r by lia.
      revert Hlt Hlo H. generalize (2 ^ 1023) (2 ^ l) (2 ^ k).
    intros P L K Hlt Hlo HK.
    assert (n * K < P * d * K) by (apply Z.mul_lt_mono_pos_r; assumption).
    apply (Z.mul_lt_mono_pos_l d); [assumption | lia]. }
    apply Z.pow_lt_mono_r_iff in Hpow; lia. }
  revert Hm Hu.
  generalize (round_half_even (n * 2 ^ Z.max 0 (- ulp_exponent n d))
                (d * 2 ^ Z.max 0 (ulp_exponent n d))).
  generalize (ulp_exponent n d). intros u m Hm Hu.
  split; [apply ldexp_nonneg; lia |].
  assert (2 ^ 1024 = 2 ^ 53 * 2 ^ 971) as E1024
    by (rewrite <- Z.pow_add_r by lia; reflexivity).
  assert (0 < 2 ^ 53) by (apply pow2_pos; lia).
  destruct (Z.le_gt_cases 0 u) as [Hu0 | Hu0].
  - rewrite ldexp_nonnegative by exact Hu0.
    rewrite <- Zlt_Qlt. rewrite E1024.
    assert (2 ^ u < 2 ^ 971) by (apply Z.pow_lt_mono_r; lia).
    pose proof (pow2_pos u Hu0).
    set (a := 2 ^ 53) in *. set (b := 2 ^ 971) in *. set (c := 2 ^ u) in *.
  clearbody a b c. nia.
  - rewrite ldexp_negative by exact Hu0.
    assert (0 < 2 ^ (- u)) as Hp by (apply pow2_pos; lia).
    unfold Qlt. cbn [Qnum Qden inject_Z]. rewrite Z2Pos.id by exact Hp.
    rewrite E1024.
    assert (1 < 2 ^ 971) by (apply Z.pow_gt_1; lia).
    set (a := 2 ^ 53) in *. set (b := 2 ^ 971) in *. set (c := 2 ^ (- u)) in *.
  clearbody a b c. nia.
Qed.



Lemma no_overflow (x : Q) :
  (Qabs x < inject_Z (2 ^ 1024))%Q ->
  Qle_bool (inject_Z (2 ^ 1024)) (Qabs x) = false.
Proof.
  intros Hlt. destruct (Qle_bool (inject_Z (2 ^ 1024)) (Qabs x)) eqn:E;
    [| reflexivity].
  apply Qle_bool_iff in E. exfalso. exact (Qlt_not_le _ _ Hlt E).
Qed.

(** A number between zero and one becomes a float between zero and
    one. *)
Lemma to_float_unit (q : Q) :
  (0 <= q)%Q -> (q <= 1)%Q ->
  exists x, to_float q = Ok x /\ (0 <= x /\ x <= 1)%Q.
Proof.
  destruct q as [n d]. unfold Qle at 1 2. cbn [Qnum Qden]. intros H0 H1.
  unfold to_float, round_to_binary64. cbn [Qnum Qden].
  destruct n as [| p | p]; [| | lia].
  - exists 0%Q. split; [reflexivity |]. split; discriminate.
  - destruct (nearest_binary64_unit (Z.pos p) (Z.pos d) ltac:(lia) ltac:(lia))
      as [Hlo Hhi].
    exists (nearest_binary64 (Z.pos p) (Z.pos d)).
    split; [| split; assumption].
    rewrite no_overflow; [reflexivity |].
    rewrite (Qabs_pos _ Hlo). eapply Qle_lt_trans; [exact Hhi |]. reflexivity.
Qed.

(** A number of magnitude below [2^1023] becomes a float. *)
Lemma to_float_in_range (q : Q) :
  (Qabs q < inject_Z (2 ^ 1023))%Q -> to_float q = Ok (round_to_binary64 q).
Proof.
  destruct q as [n d]. unfold Qlt. cbn [Qabs Qnum Qden inject_Z]. intros Hlt.
  unfold to_float, round_to_binary64. cbn [Qnum Qden].
  destruct n as [| p | p].
  - reflexivity.
  - destruct (nearest_binary64_in_range (Z.pos p) (Z.pos d)) as [Hlo Hhi]; try lia.
    rewrite no_overflow; [reflexivity |].
    rewrite (Qabs_pos _ Hlo). exact Hhi.
  - destruct (nearest_binary64_in_range (Z.pos p) (Z.pos d)) as [Hlo Hhi]; try lia.
    rewrite no_overflow; [reflexivity |].
    rewrite Qabs_opp, (Qabs_pos _ Hlo). exact Hhi.
Qed.

Lemma to_float_not_zero_division (q : Q) : to_float q <> Raise ZeroDivisionError.
Proof.
  unfold to_float.
  destruct (Qle_bool (inject_Z (2 ^ 1024)) (Qabs (round_to_binary64 q)));
    discriminate.
Qed.

(** Between zero and one, rounding moves a number by [2^-53] at most. *)
Lemma nearest_binary64_close (n d : Z) :
  0 < n -> n <= d ->
  (Qabs (nearest_binary64 n d - (n # Z.to_pos d)) <= 1 # Z.to_pos (2 ^ 53))%Q.
Proof.
  intros Hn Hnd. unfold nearest_binary64.
  pose proof (log2_ratio_unit n d Hn Hnd) as He.
  assert (ulp_exponent n d <= - 52) as Hu by (unfold ulp_exponent; lia).
  revert Hu. generalize (ulp_exponent n d). intros u Hu.
  replace (Z.max 0 (- u)) with (- u) by lia.
  replace (Z.max 0 u) with 0 by lia.
  rewrite Z.pow_0_r, Z.mul_1_r, ldexp_negative by lia.
  assert (0 < 2 ^ (- u)) as Hp by (apply pow2_pos; lia).
  assert (2 ^ 52 <= 2 ^ (- u)) as Hp52 by (apply Z.pow_le_mono_r; lia).
  assert (2 ^ 53 = 2 * 2 ^ 52) as E53 by reflexivity.
  pose proof (round_half_even_close (n * 2 ^ (- u)) d ltac:(lia)) as Hm.
  revert Hm. generalize (round_half_even (n * 2 ^ (- u)) d). intros m Hm.
  unfold Qle, Qminus, Qplus, Qopp, Qabs. cbn [Qnum Qden].
  rewrite Pos2Z.inj_mul, !Z2Pos.id by lia. rewrite E53.
  set (a := 2 ^ 52) in *. set (c := 2 ^ (- u)) in *. clearbody a c.
  replace (m * d + - n * c) with (m * d - n * c) by ring.
  assert (0 <= Z.abs (m * d - n * c)) by lia.
  revert Hm. generalize (Z.abs (m * d - n * c)). intros e He2. nia.
Qed.

End Binary64Facts.

(** *** Rounding keeps the order *)

Section Binary64Order.

Import Py.

(** [round_half_even] keeps the order of the quotients. *)
Lemma round_half_even_monotone (m1 d1 m2 d2 : Z) :
  0 < d1 -> 0 < d2 -> m1 * d2 <= m2 * d1 ->
  round_half_even m1 d1 <= round_half_even m2 d2.
Proof.
  intros Hd1 Hd2 Hle. unfold round_half_even.
  pose proof (Z.div_mod m1 d1 ltac:(lia)) as Hm1.
  pose proof (Z.mod_pos_bound m1 d1 Hd1) as Hr1.
  pose proof (Z.div_mod m2 d2 ltac:(lia)) as Hm2.
  pose proof (Z.mod_pos_bound m2 d2 Hd2) as Hr2.
  revert Hm1 Hr1 Hm2 Hr2.
  generalize (m1 / d1) (m1 mod d1) (m2 / d2) (m2 mod d2).
  intros q1 r1 q2 r2 Hm1 Hr1 Hm2 Hr2. subst m1 m2.
  assert (q1 <= q2) as Hq.
  { destruct (Z.le_gt_cases q1 q2) as [H | H]; [exact H | exfalso].
    assert (d1 * d2 * (q2 + 1) <= d1 * d2 * q1) by (apply Z.mul_le_mono_nonneg_l; nia).
    nia. }
  destruct (Z.eq_dec q1 q2) as [-> | Hne].
  - assert (r1 * d2 <= r2 * d1) as Hr by nia.
    destruct (Z.compare_spec (2 * r1) d1) as [E1 | E1 | E1];
      destruct (Z.compare_spec (2 * r2) d2) as [E2 | E2 | E2];
      try destruct (Z.even q2); try lia; exfalso; nia.
  - destruct (Z.compare_spec (2 * r1) d1) as [E1 | E1 | E1];
      destruct (Z.compare_spec (2 * r2) d2) as [E2 | E2 | E2];
      try destruct (Z.even q1); try destruct (Z.even q2); lia.
Qed.

(** The exponent keeps the order of the ratios. *)
Lemma log2_ratio_monotone (n1 d1 n2 d2 : Z) :
  0 < n1 -> 0 < d1 -> 0 < n2 -> 0 < d2 -> n1 * d2 <= n2 * d1 ->
  log2_ratio n1 d1 <= log2_ratio n2 d2.
Proof.
  intros Hn1 Hd1 Hn2 Hd2 Hle.
  destruct (log2_ratio_spec n1 d1 Hn1 Hd1) as (Hl1 & Hlo1 & _).
  destruct (log2_ratio_spec n2 d2 Hn2 Hd2) as (Hl2 & _ & Hhi2).
  pose proof (Z.log2_nonneg d1) as Hk1. pose proof (Z.log2_nonneg d2) as Hk2.
  set (k1 := Z.log2 d1 + 1) in *. set (k2 := Z.log2 d2 + 1) in *.
  set (e1 := log2_ratio n1 d1) in *. set (e2 := log2_ratio n2 d2) in *.
  destruct (Z.le_gt_cases e1 e2) as [H | H]; [exact H | exfalso].
  (* 2^(e1+k1) * 2^k2 <= ... < 2^(e2+k2+1) * 2^k1 *)
  assert (2 ^ (e2 + k2 + 1) * 2 ^ k1 <= 2 ^ (e1 + k1) * 2 ^ k2) as Hpow.
  { rewrite <- !Z.pow_add_r by lia. apply Z.pow_le_mono_r; lia. }
  assert (0 < 2 ^ k1) by (apply pow2_pos; lia).
  assert (0 < 2 ^ k2) by (apply pow2_pos; lia).
  assert (0 < 2 ^ (e1 + k1)) by (apply pow2_pos; lia).
  assert (0 < 2 ^ (e2 + k2 + 1)) by (apply pow2_pos; lia).
  set (A := 2 ^ (e1 + k1)) in *. set (B := 2 ^ (e2 + k2 + 1)) in *.
  set (K1 := 2 ^ k1) in *. set (K2 := 2 ^ k2) in *.
  clearbody A B K1 K2.
  (* d1*A <= n1*K1 ; n2*K2 < d2*B ; n1*d2 <= n2*d1 ; B*K1 <= A*K2 *)
  assert (d1 * A * (d2 * K2) <= n1 * K1 * (d2 * K2))
    by (apply Z.mul_le_mono_nonneg_r; nia).
  assert (n1 * d2 * (K1 * K2) <= n2 * d1 * (K1 * K2))
    by (apply Z.mul_le_mono_nonneg_r; nia).
  assert (n2 * K2 * (d1 * K1) < d2 * B * (d1 * K1))
    by (apply Z.mul_lt_mono_pos_r; nia).
  assert (d1 * d2 * (B * K1) <= d1 * d2 * (A * K2))
    by (apply Z.mul_le_mono_nonneg_l; nia).
  nia.
Qed.

(** The scaled numerator of the mantissa is below [2^(E - u)] times the
    scaled denominator, for every exponent [E] above that of the
    ratio. *)
Lemma mantissa_scaled_below (n d E : Z) :
  0 < n -> 0 < d -> log2_ratio n d + 1 <= E ->
  let u := ulp_exponent n d in
  0 <= E - u ->
  n * 2 ^ Z.max 0 (- u) < 2 ^ (E - u) * (d * 2 ^ Z.max 0 u).
Proof.
  intros Hn Hd HE. cbv zeta. intros HEu.
  destruct (log2_ratio_spec n d Hn Hd) as (Hl & Hlo & Hhi).
  pose proof (Z.log2_nonneg d) as Hk.
  set (k := Z.log2 d + 1) in *. set (l := log2_ratio n d + k) in *.
  set (u := ulp_exponent n d) in *.
  set (P := Z.max 0 (- u)). set (M := Z.max 0 u).
  assert (0 <= P) by lia. assert (0 <= M) by lia.
  assert (l + 1 + P <= M + k + (E - u)) as Hexp by lia.
  assert (0 < 2 ^ P) by (apply pow2_pos; lia).
  assert (0 < 2 ^ M) by (apply pow2_pos; lia).
  assert (0 < 2 ^ k) by (apply pow2_pos; lia).
  assert (0 < 2 ^ (E - u)) by (apply pow2_pos; lia).
  assert (2 ^ (l + 1) * 2 ^ P <= 2 ^ M * 2 ^ k * 2 ^ (E - u)) as Hpow.
  { rewrite <- !Z.pow_add_r by lia. apply Z.pow_le_mono_r; lia. }
  revert Hhi Hpow H4. generalize (2 ^ (l + 1)) (2 ^ (E - u)).
  intros A B Hhi Hpow HB.
  apply (Z.mul_lt_mono_pos_r (2 ^ k)); [assumption |].
  set (p := 2 ^ P) in *. set (m := 2 ^ M) in *. set (kk := 2 ^ k) in *.
  clearbody p m kk.
  assert (n * kk * p < d * A * p) by (apply Z.mul_lt_mono_pos_r; lia).
  assert (d * (A * p) <= d * (m * kk * B)) by (apply Z.mul_le_mono_nonneg_l; lia).
  nia.
Qed.

(** A mantissa of a normal number has 53 bits: the scaled numerator is
    at least [2^52] times the scaled denominator. *)
Lemma mantissa_scaled_above (n d : Z) :
  0 < n -> 0 < d -> - 1074 <= log2_ratio n d - 52 ->
  let u := ulp_exponent n d in
  2 ^ 52 * (d * 2 ^ Z.max 0 u) <= n * 2 ^ Z.max 0 (- u).
Proof.
  intros Hn Hd Hnormal. cbv zeta.
  destruct (log2_ratio_spec n d Hn Hd) as (Hl & Hlo & Hhi).
  pose proof (Z.log2_nonneg d) as Hk.
  assert (ulp_exponent n d = log2_ratio n d - 52) as Hu
    by (unfold ulp_exponent; lia).
  set (k := Z.log2 d + 1) in *. set (l := log2_ratio n d + k) in *.
  set (u := ulp_exponent n d) in *.
  set (P := Z.max 0 (- u)). set (M := Z.max 0 u).
  assert (0 <= P) by lia. assert (0 <= M) by lia.
  assert (52 + M + k = l + P) as Hexp by lia.
  assert (0 < 2 ^ P) by (apply pow2_pos; lia).
  assert (0 < 2 ^ M) by (apply pow2_pos; lia).
  assert (0 < 2 ^ k) by (apply pow2_pos; lia).
  assert (2 ^ 52 * 2 ^ M * 2 ^ k = 2 ^ l * 2 ^ P) as Hpow.
  { rewrite <- !Z.pow_add_r by lia. f_equal. exact Hexp. }
  revert Hlo Hpow. generalize (2 ^ l) (2 ^ 52).
  intros A B Hlo Hpow.
  apply (Z.mul_le_mono_pos_r _ _ (2 ^ k)); [assumption |].
  set (p := 2 ^ P) in *. set (m := 2 ^ M) in *. set (kk := 2 ^ k) in *.
  clearbody p m kk.
  assert (d * A * p <= n * kk * p) by (apply Z.mul_le_mono_nonneg_r; lia).
  nia.
Qed.

(** [m1 * 2^u1 <= m2 * 2^u2], compared at the smaller exponent. *)
Lemma ldexp_le (m1 u1 m2 u2 : Z) :
  u1 <= u2 -> m1 <= m2 * 2 ^ (u2 - u1) -> (ldexp m1 u1 <= ldexp m2 u2)%Q.
Proof.
  intros Hu Hm. unfold ldexp.
  assert (0 < 2 ^ (u2 - u1)) as Hp by (apply pow2_pos; lia).
  destruct (Z.leb_spec 0 u1) as [H1 | H1]; destruct (Z.leb_spec 0 u2) as [H2 | H2];
    try lia.
  - rewrite <- Zle_Qle.
    replace (2 ^ u2) with (2 ^ (u2 - u1) * 2 ^ u1)
      by (rewrite <- Z.pow_add_r by lia; f_equal; lia).
    pose proof (pow2_pos u1 H1).
    set (a := 2 ^ (u2 - u1)) in *. set (b := 2 ^ u1) in *. clearbody a b. nia.
  - unfold Qle. cbn [Qnum Qden inject_Z].
    rewrite Z2Pos.id by (apply pow2_pos; lia).
    replace (2 ^ (u2 - u1)) with (2 ^ u2 * 2 ^ (- u1)) in Hm
      by (rewrite <- Z.pow_add_r by lia; f_equal; lia).
    lia.
  - unfold Qle. cbn [Qnum Qden].
    rewrite !Z2Pos.id by (apply pow2_pos; lia).
    replace (2 ^ (- u1)) with (2 ^ (u2 - u1) * 2 ^ (- u2))
      by (rewrite <- Z.pow_add_r by lia; f_equal; lia).
    pose proof (pow2_pos (- u2) ltac:(lia)).
    set (a := 2 ^ (u2 - u1)) in *. set (b := 2 ^ (- u2)) in *. clearbody a b. nia.
Qed.

(** Rounding to the nearest binary64 keeps the order. *)
Lemma nearest_binary64_monotone (n1 d1 n2 d2 : Z) :
  0 < n1 -> 0 < d1 -> 0 < n2 -> 0 < d2 -> n1 * d2 <= n2 * d1 ->
  (nearest_binary64 n1 d1 <= nearest_binary64 n2 d2)%Q.
Proof.
  intros Hn1 Hd1 Hn2 Hd2 Hle.
  pose proof (log2_ratio_monotone n1 d1 n2 d2 Hn1 Hd1 Hn2 Hd2 Hle) as He.
  unfold nearest_binary64.
  destruct (Z.eq_dec (ulp_exponent n1 d1) (ulp_exponent n2 d2)) as [Eu | Eu].
  - rewrite Eu. set (u := ulp_exponent n2 d2).
    apply ldexp_le; [lia |].
    rewrite Z.sub_diag, Z.pow_0_r, Z.mul_1_r.
    assert (0 < 2 ^ Z.max 0 u) as Hb by (apply pow2_pos; lia).
    assert (0 < 2 ^ Z.max 0 (- u)) as Ha by (apply pow2_pos; lia).
    apply round_half_even_monotone; [nia | nia |].
    set (a := 2 ^ Z.max 0 (- u)) in *. set (b := 2 ^ Z.max 0 u) in *.
    clearbody a b.
    replace (n1 * a * (d2 * b)) with (n1 * d2 * (a * b)) by ring.
    replace (n2 * a * (d1 * b)) with (n2 * d1 * (a * b)) by ring.
    apply Z.mul_le_mono_nonneg_r; nia.
  - assert (ulp_exponent n1 d1 < ulp_exponent n2 d2) as Hu
      by (unfold ulp_exponent in *; lia).
    assert (- 1074 <= log2_ratio n2 d2 - 52) as Hnormal
      by (unfold ulp_exponent in *; lia).
    assert (ulp_exponent n2 d2 = log2_ratio n2 d2 - 52) as Eu2
      by (unfold ulp_exponent in *; lia).
    assert (log2_ratio n1 d1 + 1 <= log2_ratio n2 d2) as He1
      by (unfold ulp_exponent in *; lia).
    pose proof (mantissa_scaled_above n2 d2 Hn2 Hd2 Hnormal) as Habove.
    pose proof (mantissa_scaled_below n1 d1 (log2_ratio n2 d2) Hn1 Hd1 He1) as Hbelow.
    cbv zeta in Habove, Hbelow.
    destruct (mantissa_scaled_lt n1 d1 Hn1 Hd1) as (HB1 & HA1 & _).
    destruct (mantissa_scaled_lt n2 d2 Hn2 Hd2) as (HB2 & HA2 & _).
    set (u1 := ulp_exponent n1 d1) in *. set (u2 := ulp_exponent n2 d2) in *.
    specialize (Hbelow ltac:(lia)).
    assert (2 ^ 52 <= round_half_even (n2 * 2 ^ Z.max 0 (- u2)) (d2 * 2 ^ Z.max 0 u2))
      as Hm2 by (apply round_half_even_above; lia).
    assert (0 <= round_half_even (n1 * 2 ^ Z.max 0 (- u1)) (d1 * 2 ^ Z.max 0 u1)
            <= 2 ^ (log2_ratio n2 d2 - u1)) as Hm1
      by (apply round_half_even_range; lia).
    revert Hm1 Hm2.
    generalize (round_half_even (n1 * 2 ^ Z.max 0 (- u1)) (d1 * 2 ^ Z.max 0 u1)).
    generalize (round_half_even (n2 * 2 ^ Z.max 0 (- u2)) (d2 * 2 ^ Z.max 0 u2)).
    intros m2 m1 Hm1 Hm2.
    apply ldexp_le; [lia |].
    replace (log2_ratio n2 d2 - u1) with (52 + (u2 - u1)) in Hm1 by lia.
    rewrite Z.pow_add_r in Hm1 by lia.
    assert (0 < 2 ^ (u2 - u1)) by (apply pow2_pos; lia).
    set (a := 2 ^ 52) in *. set (b := 2 ^ (u2 - u1)) in *. clearbody a b. nia.
Qed.

Lemma nearest_binary64_nonneg (n d : Z) :
  0 < n -> 0 < d -> (0 <= nearest_binary64 n d)%Q.
Proof.
  intros Hn Hd. unfold nearest_binary64.
  destruct (mantissa_scaled_lt n d Hn Hd) as (HB & HA & HAB).
  apply ldexp_nonneg.
  apply (round_half_even_range _ _ (2 ^ 53)); lia.
Qed.

(** Correct rounding keeps the order of the rationals. *)
Lemma round_to_binary64_monotone (x y : Q) :
  (x <= y)%Q -> (round_to_binary64 x <= round_to_binary64 y)%Q.
Proof.
  destruct x as [nx dx], y as [ny dy]. intros Hle.
  unfold Qle in Hle. cbn [Qnum Qden] in Hle.
  unfold round_to_binary64. cbn [Qnum Qden].
  destruct nx as [| px | px]; destruct ny as [| py | py]; try lia.
  - apply Qle_refl.
  - apply nearest_binary64_nonneg; lia.
  - apply nearest_binary64_monotone; lia.
  - assert (0 <= nearest_binary64 (Z.pos px) (Z.pos dx))%Q
      by (apply nearest_binary64_nonneg; lia).
    apply (Qopp_le_compat 0) in H. exact H.
  - assert (0 <= nearest_binary64 (Z.pos px) (Z.pos dx))%Q
      by (apply nearest_binary64_nonneg; lia).
    assert (0 <= nearest_binary64 (Z.pos py) (Z.pos dy))%Q
      by (apply nearest_binary64_nonneg; lia).
    apply (Qopp_le_compat 0) in H.
    eapply Qle_trans; [exact H | exact H0].
  - apply Qopp_le_compat. apply nearest_binary64_monotone; lia.
Qed.

End Binary64Order.


(** ** Heartbeat *)

Section HeartbeatFacts.

Import HeartbeatNode.

(** C2, as the specification words it, fails: constructing a node with
    [miss_threshold = grace_period = 2] returns a node and does not
    raise. *)
Lemma heartbeat_init_equal_thresholds_returns :
  2 <= 2 /\ ~ Py.raises (__init__ "node-a" 2 2).
Proof.
  split; [lia |].
  intros [e He]. discriminate He.
Qed.

(** C2 (amended): [HeartbeatNode.__init__] checks nothing.  For all
    arguments, also with [miss_threshold <= grace_period], it returns a
    node that stores both numbers as given, with an empty peer table and
    an empty log; it never raises. *)
Theorem heartbeat_init_stores_arguments :
  forall (id : string) (mt gp : Z),
    exists node,
      __init__ id mt gp = Py.Ok node
      /\ node_id node = id
      /\ miss_threshold node = mt
      /\ grace_period node = gp
      /\ peers node = ∅
      /\ _log node = [].
Proof.
  intros id mt gp. eexists. split; [reflexivity |]. cbn. auto.
Qed.

(** C10, as the specification words it, fails: [response_rate] is not
    total.  With one ping sent and [10^400] pongs counted, the quotient
    is beyond the range of a float and the division raises
    [OverflowError]. *)
Lemma response_rate_overflows :
  PeerState.response_rate (PeerState.mk "node-b" ALIVE 0 0 1 (10 ^ 400))
  = Py.Raise Py.OverflowError
  /\ ~ exists q,
         PeerState.response_rate (PeerState.mk "node-b" ALIVE 0 0 1 (10 ^ 400))
         = Py.Ok q.
Proof.
  assert (PeerState.response_rate (PeerState.mk "node-b" ALIVE 0 0 1 (10 ^ 400))
          = Py.Raise Py.OverflowError) as E by (vm_compute; reflexivity).
  split; [exact E |]. rewrite E. intros [q Hq]. discriminate Hq.
Qed.

(** C10 (amended): [response_rate] never divides by zero.  It is 1.0
    when no ping was sent; otherwise the division is reached with a
    non-zero divisor and gives the float nearest to pongs / pings,
    whenever that quotient is below [2^1023] in magnitude (beyond the
    range of a float it raises [OverflowError]). *)
Theorem response_rate_never_divides_by_zero :
  forall p : PeerState.t,
    (PeerState.total_pings_sent p = 0 ->
       PeerState.response_rate p = Py.Ok 1%Q)
    /\ (PeerState.total_pings_sent p <> 0 ->
        (Qabs (inject_Z (PeerState.total_pongs_received p)
               / inject_Z (PeerState.total_pings_sent p)) < inject_Z (2 ^ 1023))%Q ->
        PeerState.response_rate p =
          Py.Ok (Py.round_to_binary64
                   (inject_Z (PeerState.total_pongs_received p)
                    / inject_Z (PeerState.total_pings_sent p))))
    /\ PeerState.response_rate p <> Py.Raise Py.ZeroDivisionError.
Proof.
  intros p. unfold PeerState.response_rate, Py.truediv.
  destruct (Z.eqb_spec (PeerState.total_pings_sent p) 0) as [E | E].
  - repeat split; [congruence | discriminate].
  - repeat split; [congruence | | apply to_float_not_zero_division].
    intros _ Hrange. apply to_float_in_range, Hrange.
Qed.

Lemma response_rate_never_divides_by_zero_witness :
  PeerState.response_rate (PeerState.mk "node-b" ALIVE 0 0 0 0) = Py.Ok 1%Q
  /\ PeerState.response_rate (PeerState.mk "node-b" ALIVE 1 3 4 3)
     = Py.Ok (Py.round_to_binary64 (inject_Z 3 / inject_Z 4)).
Proof.
  split.
  - apply (response_rate_never_divides_by_zero (PeerState.mk "node-b" ALIVE 0 0 0 0)).
    reflexivity.
  - apply (response_rate_never_divides_by_zero (PeerState.mk "node-b" ALIVE 1 3 4 3)).
    + discriminate.
    + vm_compute. reflexivity.
Defined.

End HeartbeatFacts.

(** ** Choking *)

Section ChokingFacts.

Import PeerTracker.

(** C7, as the specification words it, fails: a peer that has given
    [10^400] units and taken none has no ratio; [float(contributed)]
    raises [OverflowError]. *)
Lemma reciprocity_ratio_overflows :
  received (mk "node-b" (10 ^ 400) 0 true true 0) = 0
  /\ reciprocity_ratio (mk "node-b" (10 ^ 400) 0 true true 0)
     = Py.Raise Py.OverflowError.
Proof. split; [reflexivity | vm_compute; reflexivity]. Qed.

(** C7 (amended): within the range of a float (a magnitude below
    [2^1023] is enough), [reciprocity_ratio] is the float nearest to
    [contributed / received] when [received > 0], and the float nearest
    to [contributed] when [received == 0]. *)
Theorem reciprocity_ratio_cases :
  forall p : PeerTracker.t,
    (received p > 0 ->
     (Qabs (inject_Z (contributed p) / inject_Z (received p))
      < inject_Z (2 ^ 1023))%Q ->
     reciprocity_ratio p =
       Py.Ok (Py.round_to_binary64
                (inject_Z (contributed p) / inject_Z (received p))))
    /\ (received p = 0 ->
        (Qabs (inject_Z (contributed p)) < inject_Z (2 ^ 1023))%Q ->
        reciprocity_ratio p =
          Py.Ok (Py.round_to_binary64 (inject_Z (contributed p)))).
Proof.
  intros p. unfold reciprocity_ratio, Py.truediv, Py.float_of_int.
  split; intros H Hrange.
  - destruct (Z.eqb_spec (received p) 0); [lia |].
    apply to_float_in_range, Hrange.
  - rewrite H. cbn [Z.eqb]. apply to_float_in_range, Hrange.
Qed.

Lemma reciprocity_ratio_cases_witness :
  reciprocity_ratio (mk "node-b" 5 4 true true 0)
  = Py.Ok (Py.round_to_binary64 (inject_Z 5 / inject_Z 4))
  /\ reciprocity_ratio (mk "node-c" 5 0 true true 0)
     = Py.Ok (Py.round_to_binary64 (inject_Z 5)).
Proof.
  split.
  - apply (reciprocity_ratio_cases (mk "node-b" 5 4 true true 0)).
    + reflexivity.
    + vm_compute. reflexivity.
  - apply (reciprocity_ratio_cases (mk "node-c" 5 0 true true 0)).
    + reflexivity.
    + vm_compute. reflexivity.
Defined.

End ChokingFacts.

(** ** Reputation *)

Section ReputationFacts.

Import ReputationRecord.

Lemma truediv_in_range (a b : Z) :
  b <> 0 ->
  (Qabs (inject_Z a / inject_Z b) < inject_Z (2 ^ 1023))%Q ->
  Py.truediv a b = Py.Ok (Py.round_to_binary64 (inject_Z a / inject_Z b)).
Proof.
  intros H Hrange. unfold Py.truediv.
  destruct (Z.eqb_spec b 0); [contradiction |].
  apply to_float_in_range, Hrange.
Qed.

(** C8, as the specification words it, fails: with a total that is
    below zero the signal is the quotient, not the neutral 0.5.  One
    accurate report out of a total of -4 gives an accuracy of -0.25. *)
Lemma accuracy_of_negative_total :
  reports_total (mk "node-b" (- 4) 1 0 0 0 0 (95 # 100) (1 # 2)) <= 0
  /\ exists q,
       accuracy (mk "node-b" (- 4) 1 0 0 0 0 (95 # 100) (1 # 2)) = Py.Ok q
       /\ (q == - (1 # 4))%Q
       /\ ~ (q == 1 # 2)%Q.
Proof.
  split; [cbn; lia |].
  eexists. split; [vm_compute; reflexivity |].
  split; [reflexivity | discriminate].
Qed.

(** C8 (amended): each of the three signals is the neutral 0.5 when
    its denominator is zero, and otherwise, for a denominator above or
    below zero, the float nearest to its quotient (a quotient below
    [2^1023] in magnitude is within the range of a float). *)
Theorem reputation_signals_cases :
  forall r : ReputationRecord.t,
    (reports_total r <> 0 ->
     (Qabs (inject_Z (reports_accurate r) / inject_Z (reports_total r))
      < inject_Z (2 ^ 1023))%Q ->
     accuracy r =
       Py.Ok (Py.round_to_binary64
                (inject_Z (reports_accurate r) / inject_Z (reports_total r))))
    /\ (reports_total r = 0 -> accuracy r = Py.Ok (1 # 2)%Q)
    /\ (heartbeats_total r <> 0 ->
        (Qabs (inject_Z (heartbeats_responded r) / inject_Z (heartbeats_total r))
         < inject_Z (2 ^ 1023))%Q ->
        uptime r =
          Py.Ok (Py.round_to_binary64
                   (inject_Z (heartbeats_responded r)
                    / inject_Z (heartbeats_total r))))
    /\ (heartbeats_total r = 0 -> uptime r = Py.Ok (1 # 2)%Q)
    /\ (contributions r + consumptions r <> 0 ->
        (Qabs (inject_Z (contributions r)
               / inject_Z (contributions r + consumptions r))
         < inject_Z (2 ^ 1023))%Q ->
        reciprocity r =
          Py.Ok (Py.round_to_binary64
                   (inject_Z (contributions r)
                    / inject_Z (contributions r + consumptions r))))
    /\ (contributions r + consumptions r = 0 ->
        reciprocity r = Py.Ok (1 # 2)%Q).
Proof.
  intros r. unfold accuracy, uptime, reciprocity.
  repeat split.
  - intros H Hrange.
    destruct (Z.eqb_spec (reports_total r) 0); [contradiction |].
    apply truediv_in_range; assumption.
  - intros H. rewrite H. reflexivity.
  - intros H Hrange.
    destruct (Z.eqb_spec (heartbeats_total r) 0); [contradiction |].
    apply truediv_in_range; assumption.
  - intros H. rewrite H. reflexivity.
  - intros H Hrange. cbv zeta.
    destruct (Z.eqb_spec (contributions r + consumptions r) 0); [contradiction |].
    apply truediv_in_range; assumption.
  - intros H. cbv zeta. rewrite H. reflexivity.
Qed.

Lemma reputation_signals_cases_witness :
  accuracy (mk "node-b" 10 7 0 0 3 9 (95 # 100) (1 # 2))
  = Py.Ok (Py.round_to_binary64 (inject_Z 7 / inject_Z 10))
  /\ uptime (mk "node-b" 10 7 0 0 3 9 (95 # 100) (1 # 2)) = Py.Ok (1 # 2)%Q
  /\ reciprocity (mk "node-b" 10 7 0 0 3 9 (95 # 100) (1 # 2))
     = Py.Ok (Py.round_to_binary64 (inject_Z 3 / inject_Z (3 + 9))).
Proof.
  split; [| split].
  - apply (reputation_signals_cases (mk "node-b" 10 7 0 0 3 9 (95 # 100) (1 # 2))).
    + discriminate.
    + vm_compute. reflexivity.
  - apply (reputation_signals_cases (mk "node-b" 10 7 0 0 3 9 (95 # 100) (1 # 2))).
    reflexivity.
  - apply (reputation_signals_cases (mk "node-b" 10 7 0 0 3 9 (95 # 100) (1 # 2))).
    + discriminate.
    + vm_compute. reflexivity.
Defined.

End ReputationFacts.

(** ** Gossip *)

Section GossipFacts.

Import GossipNode.

Lemma not_expired_iff (e : PeerEntry.t) :
  PeerEntry.is_expired e = false <-> 0 < PeerEntry.ttl e.
Proof. unfold PeerEntry.is_expired. rewrite Z.leb_gt. reflexivity. Qed.

Lemma table_ok_init id url : table_ok (__init__ id url).
Proof.
  split; cbn.
  - apply map_Forall_empty.
  - apply lookup_empty.
Qed.

(** Filing a live entry under a foreign id keeps the table in order. *)
Lemma table_ok_insert g k e :
  table_ok g -> k <> node_id g -> 0 < PeerEntry.ttl e ->
  table_ok (with_peers g (<[k := e]> (peers g))).
Proof.
  intros [Hall Hself] Hk He. split; cbn.
  - apply map_Forall_insert_2; assumption.
  - rewrite lookup_insert_ne; assumption.
Qed.

Lemma table_ok_add_peer g peer_id url now :
  table_ok g -> table_ok (add_peer g peer_id url now).
Proof.
  intros Hok. unfold add_peer.
  destruct (String.eqb_spec peer_id (node_id g)) as [E | E]; [exact Hok |].
  destruct (peers g !! peer_id);
    apply table_ok_insert; auto; cbn; unfold TTL_INIT; lia.
Qed.

Lemma node_id_add_peer g peer_id url now :
  node_id (add_peer g peer_id url now) = node_id g.
Proof.
  unfold add_peer.
  destruct (String.eqb peer_id (node_id g)); [reflexivity |].
  destruct (peers g !! peer_id); reflexivity.
Qed.

Lemma table_ok_receive_peer_list_from incoming :
  forall g now found,
    table_ok g -> table_ok (receive_peer_list_from g incoming now found).2.
Proof.
  induction incoming as [| [peer_id url] rest IH]; intros g now found Hok.
  - exact Hok.
  - cbn [receive_peer_list_from].
    destruct (String.eqb_spec peer_id (node_id g)) as [E | E].
    + apply IH, Hok.
    + destruct (peers g !! peer_id) eqn:Hlook.
      * apply IH. apply table_ok_insert; auto. cbn. unfold TTL_INIT. lia.
      * apply IH. apply table_ok_add_peer, Hok.
Qed.

Lemma table_ok_age_entries g : table_ok g -> table_ok (age_entries g).
Proof.
  intros [Hall Hself]. split; cbn.
  - intros k e Hke. apply map_lookup_filter_Some in Hke as [_ Hlive].
    apply not_expired_iff. exact Hlive.
  - apply map_lookup_filter_None. left.
    rewrite lookup_fmap, Hself. reflexivity.
Qed.

Lemma table_ok_step g g' : table_ok g -> step g g' -> table_ok g'.
Proof.
  intros Hok Hstep. destruct Hstep.
  - apply table_ok_add_peer, Hok.
  - apply table_ok_receive_peer_list_from, Hok.
  - apply table_ok_age_entries, Hok.
Qed.

Lemma table_ok_reachable g : reachable g -> table_ok g.
Proof.
  induction 1 as [id url | g g' _ IH Hstep].
  - apply table_ok_init.
  - eapply table_ok_step; eassumption.
Qed.

(** C3: in every state a gossip node reaches, [known_peer_count()] is
    the number of entries of the table whose [ttl] is strictly greater
    than 0, and the node's own id is not a key of the table. *)
Theorem known_peer_count_counts_live_entries :
  forall g : GossipNode.t,
    reachable g ->
    known_peer_count g = positive_ttl_count g
    /\ peers g !! node_id g = None.
Proof.
  intros g Hreach. apply table_ok_reachable in Hreach as [Hall Hself].
  assert (filter (fun kv => 0 < PeerEntry.ttl kv.2) (peers g) = peers g) as E.
  { apply map_filter_id. intros k e Hke. cbn. exact (Hall k e Hke). }
  unfold positive_ttl_count, known_peer_count. rewrite E. auto.
Qed.

Lemma sample_gossip_reachable : reachable sample_gossip.
Proof.
  unfold sample_gossip.
  eapply reachable_step; [| apply step_age_entries].
  eapply reachable_step; [| apply step_receive_peer_list].
  eapply reachable_step; [| apply step_add_peer].
  apply reachable_init.
Qed.

Lemma known_peer_count_counts_live_entries_witness :
  known_peer_count sample_gossip = positive_ttl_count sample_gossip
  /\ peers sample_gossip !! node_id sample_gossip = None.
Proof.
  apply (known_peer_count_counts_live_entries sample_gossip).
  exact sample_gossip_reachable.
Defined.

Example sample_gossip_count : known_peer_count sample_gossip = 2.
Proof. vm_compute. reflexivity. Qed.

(** Outside the states a node reaches the two counts part: a table
    written by hand with an entry of [ttl] 0 has one entry, none of
    them with a positive [ttl]. *)
Example known_peer_count_of_hand_made_table :
  let g := with_peers (__init__ "hugo" "")
             {[ "sam" := PeerEntry.mk "sam" "sqs://fake/sam" 0 0 ]} in
  known_peer_count g = 1 /\ positive_ttl_count g = 0.
Proof. split; vm_compute; reflexivity. Qed.

End GossipFacts.

(** ** JSON *)

Section JsonFacts.

Import Py json.

(** Structural induction on values, with the induction hypothesis for
    every element of a list and every value of a dict. *)
Lemma value_nested_ind (P : value -> Prop) :
  P PNone ->
  (forall b, P (PBool b)) ->
  (forall z, P (PInt z)) ->
  (forall f, P (PFloat f)) ->
  (forall s, P (PStr s)) ->
  (forall l, Forall P l -> P (PList l)) ->
  (forall d, Forall (fun kv => P (snd kv)) d -> P (PDict d)) ->
  forall v, P v.
Proof.
  intros HN HB HI HF HS HL HD.
  fix IH 1. intros [ | b | z | f | s | l | d ].
  - exact HN.
  - apply HB.
  - apply HI.
  - apply HF.
  - apply HS.
  - apply HL. induction l as [| x l IHl]; constructor; [apply IH | exact IHl].
  - apply HD. induction d as [| [k x] d IHd]; constructor; [apply IH | exact IHd].
Qed.

(** *** Strings *)

Lemma scan_string_escape_char (c : ascii) (rest : text) :
  scan_string (escape_char c ++ rest) = cons_char c (scan_string rest).
Proof.
  destruct c as [[|] [|] [|] [|] [|] [|] [|] [|]]; reflexivity.
Qed.

Lemma scan_string_encode (s : string) (rest : text) :
  scan_string (flat_map escape_char (list_ascii_of_string s) ++ dquote :: rest)
  = Some (s, rest).
Proof.
  induction s as [| c s IH]; cbn [list_ascii_of_string flat_map].
  - reflexivity.
  - rewrite <- app_assoc, scan_string_escape_char, IH. reflexivity.
Qed.

(** *** Digits *)

Lemma N_of_hex_char_low (d : N) :
  (d < 10)%N -> N_of_ascii (hex_char d) = (48 + d)%N.
Proof.
  intros H. unfold hex_char.
  destruct (N.ltb_spec d 10) as [_ | Hge]; [| lia].
  apply N_ascii_embedding. lia.
Qed.

Lemma hex_char_digit_char (d : N) : (d < 10)%N -> hex_char d = digit_char d.
Proof.
  intros H. unfold hex_char.
  destruct (N.ltb_spec d 10); [reflexivity | lia].
Qed.

Lemma is_digit_hex_char (d : N) : (d < 10)%N -> is_digit (hex_char d) = true.
Proof.
  intros H. unfold is_digit. rewrite N_of_hex_char_low by exact H.
  apply andb_true_intro. split; apply N.leb_le; lia.
Qed.

Lemma digit_val_hex_char (d : N) : (d < 10)%N -> digit_val (hex_char d) = d.
Proof.
  intros H. unfold digit_val. rewrite N_of_hex_char_low by exact H. lia.
Qed.

Lemma val_from_app (ds1 ds2 : text) (acc : N) :
  val_from acc (ds1 ++ ds2) = val_from (val_from acc ds1) ds2.
Proof. unfold val_from. apply fold_left_app. Qed.

Lemma val_from_shift (ds : text) :
  forall acc, val_from acc ds = (acc * 10 ^ N.of_nat (length ds) + val_from 0 ds)%N.
Proof.
  induction ds as [| c ds IH]; intros acc.
  - cbn. lia.
  - change (val_from acc (c :: ds)) with (val_from (10 * acc + digit_val c) ds).
    change (val_from 0 (c :: ds)) with (val_from (10 * 0 + digit_val c) ds).
    rewrite (IH (10 * acc + digit_val c)%N), (IH (10 * 0 + digit_val c)%N).
    rewrite length_cons, Nat2N.inj_succ, N.pow_succ_r'. lia.
Qed.

Lemma value_of_digits_app (ds1 ds2 : text) :
  value_of_digits (ds1 ++ ds2)
  = (value_of_digits ds1 * 10 ^ N.of_nat (length ds2) + value_of_digits ds2)%N.
Proof.
  unfold value_of_digits. fold (val_from 0 (ds1 ++ ds2)).
  rewrite val_from_app, val_from_shift. reflexivity.
Qed.

Lemma value_of_digits_snoc (ds : text) (d : N) :
  (d < 10)%N ->
  value_of_digits (ds ++ [hex_char d]) = (10 * value_of_digits ds + d)%N.
Proof.
  intros H. rewrite value_of_digits_app. cbn [length].
  change (value_of_digits [hex_char d]) with (10 * 0 + digit_val (hex_char d))%N.
  rewrite digit_val_hex_char by exact H. change (10 ^ N.of_nat 1)%N with 10%N. lia.
Qed.

Lemma length_fixed_digits (base : N) (w : nat) :
  forall n, length (fixed_digits base w n) = w.
Proof.
  induction w as [| w IH]; intros n; cbn [fixed_digits].
  - reflexivity.
  - rewrite length_app, IH. cbn. lia.
Qed.

Lemma fixed_digits_all_digits (w : nat) :
  forall n, forallb is_digit (fixed_digits 10 w n) = true.
Proof.
  induction w as [| w IH]; intros n; cbn [fixed_digits].
  - reflexivity.
  - rewrite forallb_app, IH. cbn.
    rewrite is_digit_hex_char; [reflexivity |].
    apply N.mod_upper_bound. lia.
Qed.

Lemma value_of_fixed_digits (w : nat) :
  forall n, value_of_digits (fixed_digits 10 w n) = (n mod 10 ^ N.of_nat w)%N.
Proof.
  induction w as [| w IH]; intros n; cbn [fixed_digits].
  - cbn. rewrite N.mod_1_r. reflexivity.
  - rewrite value_of_digits_snoc by (apply N.mod_upper_bound; lia).
    rewrite IH, Nat2N.inj_succ, N.pow_succ_r'.
    rewrite (N.Div0.mod_mul_r n 10 (10 ^ N.of_nat w)). lia.
Qed.

Lemma eqb_zero_hex_char (d : N) :
  (d < 10)%N -> d <> 0%N -> Ascii.eqb (hex_char d) "0" = false.
Proof.
  intros H Hnz. apply Ascii.eqb_neq. intros E.
  apply (f_equal N_of_ascii) in E. rewrite N_of_hex_char_low in E by exact H.
  cbn in E. lia.
Qed.

Lemma digits_fuel_canonical (f : nat) :
  forall n, (n < 2 ^ N.of_nat (S f))%N -> canonical_digits n (digits_fuel (S f) n).
Proof.
  induction f as [| f IH]; intros n Hn.
  - assert (n < 10)%N as Hlt by (cbn in Hn; lia).
    cbn [digits_fuel]. destruct (N.ltb_spec n 10) as [_ | ?]; [| lia].
    rewrite <- hex_char_digit_char by exact Hlt.
    repeat split.
    + cbn. rewrite is_digit_hex_char by exact Hlt. reflexivity.
    + change (value_of_digits [hex_char n]) with (10 * 0 + digit_val (hex_char n))%N.
      rewrite digit_val_hex_char by exact Hlt. lia.
    + intros Hnz. apply eqb_zero_hex_char; assumption.
  - change (digits_fuel (S (S f)) n)
      with (if (n <? 10)%N then [digit_char n]
            else digits_fuel (S f) (n / 10) ++ [digit_char (n mod 10)]).
    destruct (N.ltb_spec n 10) as [Hlt | Hge].
    + rewrite <- hex_char_digit_char by exact Hlt.
      repeat split.
      * cbn. rewrite is_digit_hex_char by exact Hlt. reflexivity.
      * change (value_of_digits [hex_char n]) with (10 * 0 + digit_val (hex_char n))%N.
        rewrite digit_val_hex_char by exact Hlt. lia.
      * intros Hnz. apply eqb_zero_hex_char; assumption.
    + assert (n mod 10 < 10)%N as Hm by (apply N.mod_upper_bound; lia).
      assert (n / 10 < 2 ^ N.of_nat (S f))%N as Hq.
      { apply N.Div0.div_lt_upper_bound.
        rewrite (Nat2N.inj_succ (S f)), N.pow_succ_r' in Hn. lia. }
      destruct (IH _ Hq) as (Hall & Hval & Hhead).
      rewrite <- hex_char_digit_char by exact Hm.
      repeat split.
      * rewrite forallb_app, Hall. cbn. rewrite is_digit_hex_char by exact Hm.
        reflexivity.
      * rewrite value_of_digits_snoc by exact Hm. rewrite Hval.
        rewrite (N.div_mod n 10) at 3 by lia. reflexivity.
      * destruct (digits_fuel (S f) (n / 10)) as [| c ds]; [contradiction |].
        cbn. intros _. apply Hhead.
        intros E. apply N.div_small_iff in E; lia.
Qed.

Lemma digits_canonical (n : N) : canonical_digits n (digits n).
Proof.
  unfold digits. apply digits_fuel_canonical.
  rewrite Nat2N.inj_succ, N2Nat.id.
  destruct (N.eq_dec n 0%N) as [-> | Hnz].
  - cbn. lia.
  - apply N.log2_spec. lia.
Qed.

Lemma span_digits_app (ds rest : text) :
  forallb is_digit ds = true -> no_digit_ahead rest ->
  span_digits (ds ++ rest) = (ds, rest).
Proof.
  intros Hds Hrest. induction ds as [| c ds IH]; cbn [app].
  - destruct rest as [| c r]; [reflexivity |].
    cbn in *. rewrite Hrest. reflexivity.
  - cbn in Hds. apply andb_prop in Hds as [Hc Hds].
    cbn [span_digits]. rewrite Hc, (IH Hds). reflexivity.
Qed.

Lemma scan_int_part_digits (n : N) (rest : text) :
  no_digit_ahead rest ->
  scan_int_part (digits n ++ rest) = Some (digits n, rest).
Proof.
  intros Hrest.
  destruct (digits_canonical n) as (Hall & Hval & Hhead).
  destruct (digits n) as [| c ds] eqn:E; [contradiction |].
  cbn in Hall. apply andb_prop in Hall as [Hc Hds].
  cbn [app scan_int_part].
  destruct (Ascii.eqb c "0") eqn:Ec.
  - destruct (N.eq_dec n 0%N) as [Hz | Hnz]; [| cbn in Hhead; specialize (Hhead Hnz); congruence].
    rewrite Hz in E. vm_compute in E. injection E as <- <-. reflexivity.
  - rewrite Hc, span_digits_app by assumption. reflexivity.
Qed.

(** *** Numbers *)

Ltac by_delimiter H :=
  let c := fresh "c" in
  match type of H with
  | delimited ?rest =>
      destruct rest as [| c ?]; [| destruct H as [-> | [-> | ->]]]
  end.

Lemma delimited_no_digit (rest : text) : delimited rest -> no_digit_ahead rest.
Proof. intros H. by_delimiter H; reflexivity. Qed.

Lemma delimited_skip_ws (rest : text) : delimited rest -> skip_ws rest = rest.
Proof. intros H. by_delimiter H; reflexivity. Qed.

Lemma delimited_scan_frac (rest : text) :
  delimited rest -> scan_frac rest = (None, rest).
Proof. intros H. by_delimiter H; try reflexivity; destruct rest; reflexivity. Qed.

Lemma delimited_scan_exp (rest : text) :
  delimited rest -> scan_exp rest = (None, rest).
Proof. intros H. by_delimiter H; reflexivity. Qed.

Lemma is_digit_not_minus (c : ascii) :
  is_digit c = true -> Ascii.eqb c "-" = false.
Proof.
  intros H. apply Ascii.eqb_neq. intros ->. discriminate H.
Qed.

(** The digits of a natural number always start with a digit. *)
Lemma digits_head (n : N) :
  exists c ds, digits n = c :: ds /\ is_digit c = true.
Proof.
  destruct (digits_canonical n) as (Hall & _ & Hhead).
  destruct (digits n) as [| c ds]; [contradiction |].
  cbn in Hall. apply andb_prop in Hall as [Hc _]. eauto.
Qed.

Lemma parse_number_int (z : Z) (rest : text) :
  delimited rest ->
  parse_number (int_repr z ++ rest) = Some (PInt z, rest).
Proof.
  intros Hrest. unfold int_repr.
  pose proof (scan_int_part_digits (Z.abs_N z) rest (delimited_no_digit _ Hrest)) as Hint.
  destruct (digits_canonical (Z.abs_N z)) as (_ & Hval & _).
  destruct (Z.ltb_spec z 0) as [Hneg | Hpos].
  - unfold parse_number. cbn [app]. change (Ascii.eqb "-" "-") with true. cbv iota.
    rewrite Hint, delimited_scan_frac, delimited_scan_exp by exact Hrest.
    rewrite Hval. do 2 f_equal. f_equal. lia.
  - destruct (digits_head (Z.abs_N z)) as (c & ds & E & Hc).
    unfold parse_number. rewrite E in *. cbn [app].
    rewrite (is_digit_not_minus c Hc).
    change (c :: ds ++ rest) with ((c :: ds) ++ rest).
    rewrite Hint, delimited_scan_frac, delimited_scan_exp by exact Hrest.
    rewrite Hval. do 2 f_equal. f_equal. lia.
Qed.

Lemma strip_zeros_step (m : Z) (k : nat) :
  strip_zeros m (S (S k))
  = if m mod 10 =? 0 then strip_zeros (m / 10) (S k) else (m, S (S k)).
Proof. reflexivity. Qed.

Lemma strip_zeros_places (k : nat) :
  forall m, (1 <= snd (strip_zeros m k))%nat.
Proof.
  induction k as [| [| k] IH]; intros m.
  - cbn. lia.
  - cbn. lia.
  - rewrite strip_zeros_step.
    destruct (m mod 10 =? 0); [apply IH | cbn; lia].
Qed.

Lemma strip_zeros_value (k : nat) :
  forall m, fst (strip_zeros m k) * pow10 k = m * pow10 (snd (strip_zeros m k)).
Proof.
  unfold pow10.
  induction k as [| [| k] IH]; intros m.
  - cbn. lia.
  - cbn. lia.
  - rewrite strip_zeros_step.
    destruct (Z.eqb_spec (m mod 10) 0) as [E | E]; [| reflexivity].
    specialize (IH (m / 10)).
    assert (m = 10 * (m / 10)) as Hm
      by (pose proof (Z.div_mod m 10 ltac:(lia)); lia).
    rewrite (Nat2Z.inj_succ (S k)), Z.pow_succ_r by lia.
    destruct (strip_zeros (m / 10) (S k)) as [x y]. cbn [fst snd] in *.
    set (P := 10 ^ Z.of_nat (S k)) in *. set (R := 10 ^ Z.of_nat y) in *.
    transitivity (10 * (x * P)); [ring |].
    rewrite IH. rewrite Hm at 2. ring.
Qed.

Lemma dot_no_digit (r : text) : no_digit_ahead ("."%char :: r).
Proof. reflexivity. Qed.

Lemma parse_number_dec (m : Z) (k : nat) (rest : text) :
  delimited rest ->
  parse_number (dec_repr m k ++ rest) = Some (PFloat (norm_float (FDec m k)), rest).
Proof.
  intros Hrest. unfold dec_repr, norm_float.
  pose proof (strip_zeros_places k m) as Hk.
  destruct (strip_zeros m k) as [m' k']. cbn [snd] in Hk.
  set (a := Z.abs_N m'). set (d := (10 ^ N.of_nat k')%N).
  pose proof (length_fixed_digits 10 k' (a mod d)) as Hlen.
  pose proof (fixed_digits_all_digits k' (a mod d)) as Hall.
  pose proof (value_of_fixed_digits k' (a mod d)) as Hfv.
  destruct (fixed_digits 10 k' (a mod d)) as [| c fr] eqn:Efr;
    [cbn in Hlen; lia |].
  assert (is_digit c = true) as Hc
    by (cbn in Hall; apply andb_prop in Hall; tauto).
  assert (span_digits ((c :: fr) ++ rest) = (c :: fr, rest)) as Hspan
    by (apply span_digits_app; [exact Hall | apply delimited_no_digit, Hrest]).
  assert (scan_frac ("."%char :: (c :: fr) ++ rest) = (Some (c :: fr), rest)) as Hfrac.
  { cbn [app scan_frac]. change (Ascii.eqb "." ".") with true. rewrite Hc.
    cbn [andb]. cbn [app] in Hspan. rewrite Hspan. reflexivity. }
  pose proof (scan_int_part_digits (a / d) ("."%char :: (c :: fr) ++ rest)
                (dot_no_digit _)) as Hint.
  destruct (digits_canonical (a / d)) as (_ & Hval & _).
  assert (value_of_digits (digits (a / d) ++ c :: fr) = a) as Hmant.
  { rewrite value_of_digits_app, Hval, Hfv, Hlen.
    fold d. rewrite N.Div0.mod_mod. rewrite (N.div_mod a d) at 3.
    - lia.
    - unfold d. apply N.pow_nonzero. lia. }
  assert (float_of_literal (m' <? 0) (digits (a / d)) (Some (c :: fr)) None
          = FDec m' k') as Hlit.
  { unfold float_of_literal. rewrite Hmant, Hlen.
    destruct (Z.leb_spec 0 (0 - Z.of_nat k')) as [? | _]; [lia |].
    replace (Z.to_nat (- (0 - Z.of_nat k'))) with k' by lia.
    f_equal. unfold a. destruct (Z.ltb_spec m' 0); lia. }
  destruct (Z.ltb_spec m' 0) as [Hneg | Hpos].
  - unfold parse_number. cbn [app]. change (Ascii.eqb "-" "-") with true. cbv iota.
    rewrite <- app_assoc. cbn [app].
    change (c :: fr ++ rest) with ((c :: fr) ++ rest).
    rewrite Hint, Hfrac, delimited_scan_exp by exact Hrest.
    destruct (Z.ltb_spec m' 0) as [_ | ?]; [| lia].
    rewrite Hlit. reflexivity.
  - destruct (digits_head (a / d)) as (c0 & ds0 & E0 & Hc0).
    unfold parse_number. cbn [app]. rewrite <- app_assoc. rewrite E0 in *. cbn [app].
    rewrite (is_digit_not_minus c0 Hc0).
    change (c0 :: ds0 ++ "."%char :: c :: fr ++ rest)
      with ((c0 :: ds0) ++ "."%char :: (c :: fr) ++ rest).
    rewrite Hint, Hfrac, delimited_scan_exp by exact Hrest.
    destruct (Z.ltb_spec m' 0) as [? | _]; [lia |].
    rewrite Hlit. reflexivity.
Qed.

(** *** Dispatch on the first character *)

Lemma number_start_dispatch (c : ascii) :
  number_start c ->
  Ascii.eqb c dquote = false /\ Ascii.eqb c "[" = false /\ Ascii.eqb c "{" = false
  /\ Ascii.eqb "n" c = false /\ Ascii.eqb "t" c = false /\ Ascii.eqb "f" c = false
  /\ is_ws c = false /\ Ascii.eqb c "]" = false /\ Ascii.eqb c "}" = false.
Proof.
  intros [H | ->]; [| repeat split; reflexivity].
  destruct c as [[|] [|] [|] [|] [|] [|] [|] [|]];
    try discriminate H; repeat split; reflexivity.
Qed.

Lemma parse_value_number (n : nat) (c : ascii) (r : text) (res : value * text) :
  number_start c ->
  parse_number (c :: r) = Some res ->
  parse_value (S n) (c :: r) = Some res.
Proof.
  intros Hc Hnum.
  destruct (number_start_dispatch c Hc) as (Hq & Hb & Hbr & Hn & Ht & Hf & _).
  cbn [parse_value]. rewrite Hq, Hb, Hbr.
  unfold parse_atom, lit. cbn [list_ascii_of_string strip_prefix].
  rewrite Hn, Ht, Hf, Hnum. reflexivity.
Qed.

Lemma int_repr_start (z : Z) :
  exists c r, int_repr z = c :: r /\ number_start c.
Proof.
  unfold int_repr. destruct (z <? 0).
  - eexists _, _. split; [reflexivity | right; reflexivity].
  - destruct (digits_head (Z.abs_N z)) as (c & ds & E & Hc).
    exists c, ds. split; [exact E | left; exact Hc].
Qed.

Lemma dec_repr_start (m : Z) (k : nat) :
  exists c r, dec_repr m k = c :: r /\ number_start c.
Proof.
  unfold dec_repr. destruct (strip_zeros m k) as [m' k'].
  destruct (m' <? 0).
  - eexists _, _. split; [reflexivity | right; reflexivity].
  - destruct (digits_head (Z.abs_N m' / 10 ^ N.of_nat k')) as (c & ds & E & Hc).
    rewrite E. eexists _, _. split; [reflexivity | left; exact Hc].
Qed.

Lemma dumps_value_start (v : value) (rest : text) :
  value_start (dumps_value v ++ rest).
Proof.
  destruct v as [ | [|] | z | [ | [|] | m k] | s | l | d ];
    try (cbn; repeat split; reflexivity).
  - destruct (int_repr_start z) as (c & r & E & Hc).
    cbn [dumps_value]. rewrite E. cbn.
    destruct (number_start_dispatch c Hc) as (_ & _ & _ & _ & _ & _ & H). exact H.
  - destruct (dec_repr_start m k) as (c & r & E & Hc).
    cbn [dumps_value float_text]. rewrite E. cbn.
    destruct (number_start_dispatch c Hc) as (_ & _ & _ & _ & _ & _ & H). exact H.
Qed.

Lemma value_start_skip_ws (s : text) : value_start s -> skip_ws s = s.
Proof.
  destruct s as [| c r]; [contradiction |].
  intros (Hws & _). cbn. rewrite Hws. reflexivity.
Qed.

(** *** Atoms *)

Lemma parse_value_int (n : nat) (z : Z) (rest : text) :
  delimited rest ->
  parse_value (S n) (int_repr z ++ rest) = Some (PInt z, rest).
Proof.
  intros Hrest. pose proof (parse_number_int z rest Hrest) as Hnum.
  destruct (int_repr_start z) as (c & r & E & Hc). rewrite E in *.
  apply parse_value_number; assumption.
Qed.

Lemma parse_value_float (n : nat) (f : pyfloat) (rest : text) :
  delimited rest ->
  parse_value (S n) (float_text f ++ rest) = Some (PFloat (norm_float f), rest).
Proof.
  intros Hrest. destruct f as [ | [|] | m k]; try reflexivity.
  pose proof (parse_number_dec m k rest Hrest) as Hnum.
  cbn [float_text]. destruct (dec_repr_start m k) as (c & r & E & Hc).
  rewrite E in *. apply parse_value_number; assumption.
Qed.

Lemma parse_value_string (n : nat) (s : string) (rest : text) :
  parse_value (S n) (encode_string s ++ rest) = Some (PStr s, rest).
Proof.
  unfold encode_string. cbn [app parse_value].
  change (Ascii.eqb dquote dquote) with true. cbv iota.
  rewrite <- app_assoc. cbn [app]. rewrite scan_string_encode. reflexivity.
Qed.

(** *** Dicts with distinct keys *)

Lemma distinct_NoDup (l : list string) : distinct l = true -> List.NoDup l.
Proof.
  induction l as [| k l IH]; cbn; intros H; constructor.
  - apply andb_prop in H as [H _]. apply negb_true_iff in H.
    intros Hin. apply (proj2 (not_true_iff_false _) H).
    apply existsb_exists. exists k. split; [exact Hin | apply String.eqb_refl].
  - apply IH. apply andb_prop in H as [_ H]. exact H.
Qed.

Lemma dict_set_fresh (d : dict) (k : string) (v : value) :
  ~ In k (map fst d) -> dict_set d k v = d ++ [(k, v)].
Proof.
  induction d as [| [k0 w] d IH]; cbn; intros Hk.
  - reflexivity.
  - destruct (String.eqb_spec k0 k) as [-> | _]; [tauto |].
    rewrite IH by tauto. reflexivity.
Qed.

Lemma fold_dict_set_fresh (l : list (string * value)) :
  forall acc : dict,
    List.NoDup (map fst (acc ++ l)) ->
    fold_left (fun d kv => dict_set d (fst kv) (snd kv)) l acc = acc ++ l.
Proof.
  induction l as [| [k v] l IH]; intros acc Hnd; cbn [fold_left fst snd].
  - rewrite app_nil_r. reflexivity.
  - rewrite dict_set_fresh.
    + rewrite IH; rewrite <- app_assoc; [reflexivity | exact Hnd].
    + rewrite map_app in Hnd. cbn in Hnd.
      apply NoDup_remove_2 in Hnd. intros Hin. apply Hnd.
      apply in_or_app. left. exact Hin.
Qed.

Lemma dict_of_pairs_distinct (l : list (string * value)) :
  distinct (map fst l) = true -> dict_of_pairs l = l.
Proof.
  intros H. unfold dict_of_pairs.
  apply (fold_dict_set_fresh l []). apply distinct_NoDup, H.
Qed.

Lemma dict_get_In (d : dict) (k : string) (x : value) :
  List.NoDup (map fst d) -> In (k, x) d -> dict_get d k = Some x.
Proof.
  induction d as [| [k0 w] d IH]; cbn; intros Hnd Hin; [contradiction |].
  apply NoDup_cons_iff in Hnd as [Hk0 Hnd].
  destruct Hin as [E | Hin].
  - injection E as -> ->. rewrite String.eqb_refl. reflexivity.
  - destruct (String.eqb_spec k0 k) as [-> | _]; [| apply IH; assumption].
    exfalso. apply Hk0. apply (in_map fst) in Hin. exact Hin.
Qed.

(** *** Arrays and objects *)

Lemma join_more (x y : text) (l : list text) :
  join (x :: y :: l) = x ++ ","%char :: " "%char :: join (y :: l).
Proof. reflexivity. Qed.

Lemma parse_items_last (n : nat) (s : text) (v : value) (rest : text) :
  parse_value n s = Some (v, "]"%char :: rest) ->
  parse_items (S n) s = Some ([v], rest).
Proof. intros H. cbn [parse_items]. rewrite H. reflexivity. Qed.

Lemma parse_items_more (n : nat) (s J : text) (v : value) (vs : list value)
    (rest : text) :
  parse_value n s = Some (v, ","%char :: " "%char :: J) ->
  value_start J ->
  parse_items n J = Some (vs, rest) ->
  parse_items (S n) s = Some (v :: vs, rest).
Proof.
  intros Hv HJ Hvs. cbn [parse_items]. rewrite Hv.
  change (skip_ws (","%char :: " "%char :: J)) with (","%char :: " "%char :: J).
  change (Ascii.eqb "," "]") with false. change (Ascii.eqb "," ",") with true.
  cbv iota. change (skip_ws (" "%char :: J)) with (skip_ws J).
  rewrite (value_start_skip_ws J HJ), Hvs. reflexivity.
Qed.

Lemma parse_members_key (n : nat) (k : string) (s : text) :
  value_start s ->
  parse_members (S n) (encode_string k ++ lit ": " ++ s)
  = match parse_value n s with
    | None => None
    | Some (v, r3) =>
        match skip_ws r3 with
        | [] => None
        | c1 :: r4 =>
            if Ascii.eqb c1 "}" then Some ([(k, v)], r4)
            else if Ascii.eqb c1 "," then
              match parse_members n (skip_ws r4) with
              | Some (kvs, rest) => Some ((k, v) :: kvs, rest)
              | None => None
              end
            else None
        end
    end.
Proof.
  intros Hs. unfold encode_string. cbn [app parse_members].
  change (Ascii.eqb dquote dquote) with true. cbv iota.
  rewrite <- app_assoc. cbn [app]. rewrite scan_string_encode.
  unfold lit. cbn [list_ascii_of_string app].
  change (skip_ws (":"%char :: " "%char :: s)) with (":"%char :: " "%char :: s).
  change (Ascii.eqb ":" ":") with true. cbv iota.
  change (skip_ws (" "%char :: s)) with (skip_ws s).
  rewrite (value_start_skip_ws s Hs). reflexivity.
Qed.

Lemma parse_members_last (n : nat) (k : string) (s : text) (v : value) (rest : text) :
  value_start s ->
  parse_value n s = Some (v, "}"%char :: rest) ->
  parse_members (S n) (encode_string k ++ lit ": " ++ s) = Some ([(k, v)], rest).
Proof.
  intros Hs H. rewrite parse_members_key by exact Hs. rewrite H. reflexivity.
Qed.

Lemma parse_members_more (n : nat) (k : string) (s J : text) (v : value)
    (kvs : list (string * value)) (rest : text) :
  value_start s ->
  parse_value n s = Some (v, ","%char :: " "%char :: J) ->
  value_start J ->
  parse_members n J = Some (kvs, rest) ->
  parse_members (S n) (encode_string k ++ lit ": " ++ s) = Some ((k, v) :: kvs, rest).
Proof.
  intros Hs Hv HJ Hkvs. rewrite parse_members_key by exact Hs. rewrite Hv.
  change (skip_ws (","%char :: " "%char :: J)) with (","%char :: " "%char :: J).
  change (Ascii.eqb "," "}") with false. change (Ascii.eqb "," ",") with true.
  cbv iota. change (skip_ws (" "%char :: J)) with (skip_ws J).
  rewrite (value_start_skip_ws J HJ), Hkvs. reflexivity.
Qed.

Lemma parse_value_list (n : nat) (J : text) (vs : list value) (rest : text) :
  value_start J ->
  parse_items n J = Some (vs, rest) ->
  parse_value (S n) ("["%char :: J) = Some (PList vs, rest).
Proof.
  intros HJ H. cbn [parse_value].
  change (Ascii.eqb "[" dquote) with false. change (Ascii.eqb "[" "[") with true.
  cbv iota. rewrite (value_start_skip_ws J HJ).
  destruct J as [| c r]; [contradiction |].
  destruct HJ as (_ & Hc & _). rewrite Hc, H. reflexivity.
Qed.

Lemma parse_value_dict (n : nat) (J : text) (kvs : list (string * value))
    (rest : text) :
  value_start J ->
  parse_members n J = Some (kvs, rest) ->
  parse_value (S n) ("{"%char :: J) = Some (PDict (dict_of_pairs kvs), rest).
Proof.
  intros HJ H. cbn [parse_value].
  change (Ascii.eqb "{" dquote) with false. change (Ascii.eqb "{" "[") with false.
  change (Ascii.eqb "{" "{") with true.
  cbv iota. rewrite (value_start_skip_ws J HJ).
  destruct J as [| c r]; [contradiction |].
  destruct HJ as (_ & _ & Hc). rewrite Hc, H. reflexivity.
Qed.

(** *** Reading back what [dumps] wrote *)

Lemma list_sum_cons (a : nat) (l : list nat) :
  list_sum (a :: l) = (a + list_sum l)%nat.
Proof. reflexivity. Qed.

Lemma items_start (l : list value) (R : text) :
  l <> [] -> value_start (join (map dumps_value l) ++ R).
Proof.
  destruct l as [| x [| y l]]; [contradiction | |]; intros _.
  - cbn [map join]. apply dumps_value_start.
  - cbn [map]. rewrite join_more, <- app_assoc. apply dumps_value_start.
Qed.

Lemma members_start (d : list (string * value)) (R : text) :
  d <> [] -> value_start (join (map member_text d) ++ R).
Proof.
  destruct d as [| [k x] [| y d]]; [contradiction | |]; intros _.
  - cbn. repeat split; reflexivity.
  - cbn. repeat split; reflexivity.
Qed.

Lemma parse_items_join (l : list value) :
  l <> [] -> Forall reads_back l -> forallb keys_unique l = true ->
  forall (n : nat) (rest : text),
    (list_sum (map (fun x => S (size x)) l) <= n)%nat ->
    parse_items n (join (map dumps_value l) ++ "]"%char :: rest)
    = Some (map norm l, rest).
Proof.
  induction l as [| x l IH]; [contradiction |].
  intros _ Hall Hkeys n rest Hn.
  apply Forall_cons_iff in Hall as [Hx Hall].
  cbn [forallb] in Hkeys. apply andb_prop in Hkeys as [Hkx Hkeys].
  cbn [map] in Hn. rewrite list_sum_cons in Hn.
  destruct n as [| n]; [lia |].
  destruct l as [| y l].
  - cbn [map join]. apply parse_items_last.
    apply Hx; [exact Hkx | lia | cbn; tauto].
  - cbn [map]. rewrite join_more, <- app_assoc. cbn [app].
    apply parse_items_more
      with (J := join (map dumps_value (y :: l)) ++ "]"%char :: rest).
    + apply Hx; [exact Hkx | lia | cbn; tauto].
    + apply items_start. discriminate.
    + apply IH; [discriminate | exact Hall | exact Hkeys | lia].
Qed.

Lemma parse_members_join (d : list (string * value)) :
  d <> [] -> Forall (fun kv => reads_back (snd kv)) d ->
  forallb (fun kv => let '(_, x) := kv in keys_unique x) d = true ->
  forall (n : nat) (rest : text),
    (list_sum (map (fun kv => let '(_, x) := kv in S (size x)) d) <= n)%nat ->
    parse_members n (join (map member_text d) ++ "}"%char :: rest)
    = Some (map (fun kv => let '(k, x) := kv in (k, norm x)) d, rest).
Proof.
  induction d as [| [k x] d IH]; [contradiction |].
  intros _ Hall Hkeys n rest Hn.
  apply Forall_cons_iff in Hall as [Hx Hall]. cbn [snd] in Hx.
  cbn [forallb] in Hkeys. apply andb_prop in Hkeys as [Hkx Hkeys].
  cbn [map] in Hn. rewrite list_sum_cons in Hn.
  destruct n as [| n]; [lia |].
  destruct d as [| y d].
  - cbn [map join member_text]. rewrite <- !app_assoc.
    apply parse_members_last; [apply dumps_value_start |].
    apply Hx; [exact Hkx | lia | cbn; tauto].
  - cbn [map]. rewrite join_more. cbn [member_text]. rewrite <- !app_assoc.
    cbn [app].
    apply parse_members_more
      with (J := join (map member_text (y :: d)) ++ "}"%char :: rest).
    + apply dumps_value_start.
    + apply Hx; [exact Hkx | lia | cbn; tauto].
    + apply members_start. discriminate.
    + apply IH; [discriminate | exact Hall | exact Hkeys | lia].
Qed.

Lemma map_fst_norm (d : list (string * value)) :
  map fst (map (fun kv => let '(k, x) := kv in (k, norm x)) d) = map fst d.
Proof.
  induction d as [| [k x] d IH]; cbn; [reflexivity | rewrite IH; reflexivity].
Qed.

Lemma parse_dumps_value (v : value) : reads_back v.
Proof.
  induction v as [ | b | z | f | s | l IHl | d IHd ] using value_nested_ind;
    intros Hkeys fuel rest Hfuel Hrest;
    (destruct fuel as [| n]; [cbn in Hfuel; lia |]).
  - reflexivity.
  - destruct b; reflexivity.
  - apply parse_value_int, Hrest.
  - apply parse_value_float, Hrest.
  - apply parse_value_string.
  - cbn [dumps_value norm]. destruct l as [| x l]; [reflexivity |].
    cbn [app]. rewrite <- app_assoc. cbn [app].
    apply parse_value_list; [apply items_start; discriminate |].
    apply parse_items_join; [discriminate | exact IHl | exact Hkeys |].
    cbn [size] in Hfuel. lia.
  - cbn [dumps_value norm]. destruct d as [| kv d]; [reflexivity |].
    cbn [keys_unique] in Hkeys. apply andb_prop in Hkeys as [Hdist Hkeys].
    cbn [app]. rewrite <- app_assoc. cbn [app].
    rewrite <- (dict_of_pairs_distinct
                  (map (fun kv => let '(k, x) := kv in (k, norm x)) (kv :: d)))
      by (rewrite map_fst_norm; exact Hdist).
    apply parse_value_dict; [apply (members_start (kv :: d)); discriminate |].
    apply (parse_members_join (kv :: d)); [discriminate | exact IHd | exact Hkeys |].
    cbn [size] in Hfuel. lia.
Qed.

(** *** The fuel [loads] gives is enough *)

Lemma length_start {A : Type} (c : A) (r s : list A) :
  s = c :: r -> (1 <= length s)%nat.
Proof. intros ->. cbn. lia. Qed.

Lemma join_length_items (l : list value) :
  Forall (fun x => (size x <= length (dumps_value x))%nat) l ->
  (list_sum (map (fun x => S (size x)) l)
   <= length (join (map dumps_value l)) + 1)%nat.
Proof.
  induction l as [| x l IH]; intros Hall; [cbn; lia |].
  apply Forall_cons_iff in Hall as [Hx Hall]. specialize (IH Hall).
  cbn [map]. rewrite list_sum_cons.
  destruct l as [| y l].
  - cbn. lia.
  - cbn [map] in *. rewrite join_more, length_app. cbn [length]. lia.
Qed.

Lemma join_length_members (d : list (string * value)) :
  Forall (fun kv => (size (snd kv) <= length (dumps_value (snd kv)))%nat) d ->
  (list_sum (map (fun kv => let '(_, x) := kv in S (size x)) d)
   <= length (join (map member_text d)) + 1)%nat.
Proof.
  induction d as [| [k x] d IH]; intros Hall; [cbn; lia |].
  apply Forall_cons_iff in Hall as [Hx Hall]. specialize (IH Hall).
  cbn [snd] in Hx. cbn [map]. rewrite list_sum_cons.
  assert (length (dumps_value x) <= length (member_text (k, x)))%nat as Hm
    by (cbn [member_text]; rewrite !length_app; lia).
  destruct d as [| y d].
  - cbn [map join]. change (list_sum []) with 0%nat. lia.
  - cbn [map] in *. rewrite join_more, length_app. cbn [length]. lia.
Qed.

Lemma size_le_length (v : value) : (size v <= length (dumps_value v))%nat.
Proof.
  induction v as [ | b | z | f | s | l IHl | d IHd ] using value_nested_ind.
  - cbn. lia.
  - destruct b; cbn; lia.
  - destruct (int_repr_start z) as (c & r & E & _).
    apply (length_start c r). exact E.
  - destruct f as [ | [|] | m k]; try (cbn; lia).
    destruct (dec_repr_start m k) as (c & r & E & _).
    apply (length_start c r). exact E.
  - cbn. lia.
  - cbn [size dumps_value length]. rewrite length_app. cbn [length].
    pose proof (join_length_items l IHl). lia.
  - change (S (list_sum (map (fun kv => let '(_, x) := kv in S (size x)) d))
            <= S (length (join (map member_text d) ++ ["}"%char])))%nat.
    rewrite length_app. cbn [length].
    pose proof (join_length_members d IHd). lia.
Qed.

Lemma ints_fit_norm (v : value) : ints_fit (norm v) = ints_fit v.
Proof.
  induction v as [ | b | z | f | s | l IHl | d IHd ] using value_nested_ind;
    try reflexivity.
  - cbn [norm ints_fit].
    induction IHl as [| x l Hx _ IH]; [reflexivity |].
    cbn [map forallb]. rewrite Hx, IH. reflexivity.
  - cbn [norm ints_fit].
    induction IHd as [| [k x] d Hx _ IH]; [reflexivity |].
    cbn [map forallb]. cbn [snd] in Hx. rewrite Hx, IH. reflexivity.
Qed.

(** [loads] on the text of a value returns the value, with its floats
    in the form [repr] writes. *)
Lemma loads_text_of (v : value) :
  keys_unique v = true -> ints_fit v = true -> loads (text_of v) = Ok (norm v).
Proof.
  intros Hkeys Hints. unfold loads, text_of.
  rewrite list_ascii_of_string_of_list_ascii.
  pose proof (dumps_value_start v []) as Hstart. rewrite app_nil_r in Hstart.
  rewrite (value_start_skip_ws _ Hstart).
  pose proof (parse_dumps_value v Hkeys (S (length (dumps_value v))) []) as Hparse.
  rewrite app_nil_r in Hparse. rewrite Hparse.
  - cbn [skip_ws]. rewrite ints_fit_norm, Hints. reflexivity.
  - pose proof (size_le_length v). lia.
  - exact I.
Qed.

(** [loads] reads back what [dumps] wrote. *)
Lemma loads_dumps (v : value) (body : string) :
  keys_unique v = true -> dumps v = Ok body -> loads body = Ok (norm v).
Proof.
  unfold dumps. intros Hkeys Hbody.
  destruct (ints_fit v) eqn:Hints; [| discriminate].
  injection Hbody as <-. apply loads_text_of; assumption.
Qed.

(** *** Equality with the value read back *)

Lemma float_eqb_norm (f : pyfloat) :
  f <> FNaN -> float_eqb (norm_float f) f = true.
Proof.
  destruct f as [ | neg | m k]; intros Hf; [congruence | |].
  - cbn. destruct neg; reflexivity.
  - cbn [norm_float]. pose proof (strip_zeros_value k m) as Hv.
    destruct (strip_zeros m k) as [m' k']. cbn [fst snd] in Hv.
    cbn [float_eqb]. apply Z.eqb_eq. exact Hv.
Qed.

Lemma py_eq_norm (v : value) :
  keys_unique v = true -> nan_free v = true -> py_eq (norm v) v = true.
Proof.
  induction v as [ | b | z | f | s | l IHl | d IHd ] using value_nested_ind;
    intros Hkeys Hnan.
  - reflexivity.
  - cbn. destruct b; reflexivity.
  - cbn. apply Z.eqb_refl.
  - cbn. apply float_eqb_norm. intros ->. discriminate Hnan.
  - cbn. apply String.eqb_refl.
  - cbn [norm py_eq]. cbn [keys_unique nan_free] in Hkeys, Hnan.
    induction l as [| x l IH]; [reflexivity |].
    apply Forall_cons_iff in IHl as [Hx IHl].
    cbn [forallb] in Hkeys, Hnan.
    apply andb_prop in Hkeys as [Hkx Hkeys]. apply andb_prop in Hnan as [Hnx Hnan].
    cbn [map all2]. rewrite (Hx Hkx Hnx). cbn [andb]. apply IH; assumption.
  - cbn [norm py_eq]. cbn [keys_unique nan_free] in Hkeys, Hnan.
    apply andb_prop in Hkeys as [Hdist Hkeys].
    rewrite length_map, Nat.eqb_refl. cbn [andb].
    apply forallb_forall. intros [k y] Hin.
    apply in_map_iff in Hin as ([k0 x] & E & Hin). injection E as -> <-.
    rewrite (dict_get_In d k x (distinct_NoDup _ Hdist) Hin).
    rewrite List.Forall_forall in IHd. apply (IHd _ Hin).
    + rewrite forallb_forall in Hkeys. apply (Hkeys _ Hin).
    + rewrite forallb_forall in Hnan. apply (Hnan _ Hin).
Qed.

End JsonFacts.


(** ** The message protocol *)

Section ProtocolFacts.

Import Py json protocol.

(** *** Base fields *)

Lemma take_digits_all (ds rest : text) :
  forallb is_digit ds = true ->
  forall acc, take_digits (length ds) acc (ds ++ rest) = Some (val_from acc ds, rest).
Proof.
  intros Hds. induction ds as [| c ds IH]; intros acc.
  - reflexivity.
  - cbn in Hds. apply andb_prop in Hds as [Hc Hds].
    cbn [length app take_digits]. rewrite Hc. apply IH. exact Hds.
Qed.

Lemma take_digits_fixed (w : nat) (n : N) (rest : text) :
  (n < 10 ^ N.of_nat w)%N ->
  take_digits w 0 (fixed_digits 10 w n ++ rest) = Some (n, rest).
Proof.
  intros Hn.
  pose proof (take_digits_all (fixed_digits 10 w n) rest
                (fixed_digits_all_digits w n) 0%N) as H.
  rewrite length_fixed_digits in H. rewrite H.
  change (val_from 0 (fixed_digits 10 w n)) with (value_of_digits (fixed_digits 10 w n)).
  rewrite value_of_fixed_digits, N.mod_small by exact Hn. reflexivity.
Qed.

Lemma expect_same (c : ascii) (r : text) : expect c (c :: r) = Some r.
Proof. cbn. rewrite Ascii.eqb_refl. reflexivity. Qed.

Lemma skip_fraction_isoformat (us : N) :
  skip_fraction
    ((if (us =? 0)%N then [] else "."%char :: fixed_digits 10 6 us) ++ lit "+00:00")
  = Some (lit "+00:00").
Proof.
  destruct (us =? 0)%N; [reflexivity |].
  cbn [app skip_fraction]. change (Ascii.eqb "." ".") with true. cbv iota.
  pose proof (length_fixed_digits 10 6 us) as Hlen.
  rewrite span_digits_app; [| apply fixed_digits_all_digits | reflexivity].
  destruct (fixed_digits 10 6 us); [discriminate Hlen | reflexivity].
Qed.

Lemma isoformat_is_iso8601 (d : datetime.t) :
  datetime.in_range d = true -> is_iso8601_utc (datetime.isoformat d) = true.
Proof.
  unfold datetime.in_range. intros H.
  repeat (apply andb_prop in H as [H ?]).
  repeat match goal with
         | Hb : (_ <=? _)%N = true |- _ => apply N.leb_le in Hb
         end.
  unfold is_iso8601_utc, datetime.isoformat.
  rewrite list_ascii_of_string_of_list_ascii.
  do 5 (rewrite take_digits_fixed by (cbn; lia); cbn [and_then];
        rewrite expect_same; cbn [and_then]).
  rewrite take_digits_fixed by (cbn; lia). cbn [and_then].
  rewrite skip_fraction_isoformat. cbn [and_then].
  change (text_eqb (lit "+00:00") (lit "Z") || text_eqb (lit "+00:00") (lit "+00:00"))
    with true.
  unfold between. rewrite !andb_true_iff.
  repeat split; apply N.leb_le; lia.
Qed.

Lemma length_string_of_list_ascii (l : text) :
  String.length (string_of_list_ascii l) = length l.
Proof. induction l as [| c l IH]; cbn; [reflexivity | rewrite IH; reflexivity]. Qed.

Lemma msg_id_length (u : N) :
  String.length (str_prefix 8 (uuid.str u)) = 8%nat.
Proof.
  unfold str_prefix, uuid.str.
  rewrite length_string_of_list_ascii, list_ascii_of_string_of_list_ascii.
  pose proof (length_fixed_digits 16 32 u) as Hlen.
  rewrite firstn_app, firstn_firstn, length_firstn. cbn [Nat.min].
  replace (Nat.min 8 (length (fixed_digits 16 32 u))) with 8%nat by lia.
  cbn [Nat.sub firstn]. rewrite app_nil_r, length_firstn. lia.
Qed.

(** C6: every message a builder returns carries [type] (the constant
    of the builder, one of the eight), [sender], [timestamp] (a string in
    the ISO 8601 format, in UTC) and [msg_id] (a string of exactly 8
    characters). *)
Theorem builders_set_base_fields :
  forall (e : env) (c : call),
    datetime.in_range (now e) = true ->
    dict_get (build e c) "type" = Some (PStr (type_of c))
    /\ In (type_of c) ALL_TYPES
    /\ dict_get (build e c) "sender" = Some (PStr (sender_of c))
    /\ (exists ts, dict_get (build e c) "timestamp" = Some (PStr ts)
                   /\ is_iso8601_utc ts = true)
    /\ (exists id, dict_get (build e c) "msg_id" = Some (PStr id)
                   /\ String.length id = 8%nat).
Proof.
  intros e c Hnow.
  split; [destruct c; reflexivity |].
  split; [destruct c; cbn; tauto |].
  split; [destruct c; reflexivity |].
  split.
  - exists (datetime.isoformat (now e)).
    split; [destruct c; reflexivity | apply isoformat_is_iso8601, Hnow].
  - exists (str_prefix 8 (uuid.str (uuid4 e))).
    split; [destruct c; reflexivity | apply msg_id_length].
Qed.

Lemma builders_set_base_fields_witness :
  dict_get (build sample_env (PeerList "hugo" sample_peers)) "type"
    = Some (PStr PEER_LIST)
  /\ In PEER_LIST ALL_TYPES
  /\ dict_get (build sample_env (PeerList "hugo" sample_peers)) "sender"
     = Some (PStr "hugo")
  /\ (exists ts, dict_get (build sample_env (PeerList "hugo" sample_peers)) "timestamp"
                   = Some (PStr ts)
                 /\ is_iso8601_utc ts = true)
  /\ (exists id, dict_get (build sample_env (PeerList "hugo" sample_peers)) "msg_id"
                   = Some (PStr id)
                 /\ String.length id = 8%nat).
Proof.
  apply (builders_set_base_fields sample_env (PeerList "hugo" sample_peers)).
  vm_compute. reflexivity.
Defined.

Example sample_msg_id :
  dict_get (build sample_env (Choke "hugo")) "msg_id" = Some (PStr "80000000").
Proof. vm_compute. reflexivity. Qed.

(** *** Round trip through JSON *)

Lemma keys_unique_str_dicts (peers : list (list (string * string))) :
  forallb keys_unique (map str_dict peers)
  = forallb (fun d => distinct (map fst d)) peers.
Proof.
  induction peers as [| d peers IH]; [reflexivity |].
  cbn [map forallb]. rewrite IH. f_equal.
  unfold str_dict. cbn [keys_unique]. rewrite map_map. cbn [fst].
  replace (forallb _ _) with true; [apply andb_true_r |].
  symmetry. apply forallb_forall. intros [k x] Hin.
  apply in_map_iff in Hin as (kv & E & _). injection E as _ <-. reflexivity.
Qed.

Lemma nan_free_str_dicts (peers : list (list (string * string))) :
  forallb nan_free (map str_dict peers) = true.
Proof.
  apply forallb_forall. intros x Hin.
  apply in_map_iff in Hin as (d & <- & _). unfold str_dict. cbn [nan_free].
  apply forallb_forall. intros [k y] Hin.
  apply in_map_iff in Hin as (kv & E & _). injection E as _ <-. reflexivity.
Qed.

Lemma forallb_map_PStr (f : value -> bool) (l : list string) :
  (forall s, f (PStr s) = true) -> forallb f (map PStr l) = true.
Proof.
  intros Hf. apply forallb_forall. intros x Hin.
  apply in_map_iff in Hin as (s & <- & _). apply Hf.
Qed.

Lemma build_keys_unique (e : env) (c : call) :
  peers_are_dicts c = true -> keys_unique (PDict (build e c)) = true.
Proof.
  destruct c; intros Hc; try reflexivity.
  - cbn in Hc. cbn. rewrite keys_unique_str_dicts, Hc. reflexivity.
  - cbn. rewrite forallb_map_PStr by reflexivity. reflexivity.
Qed.

Lemma round_ndigits_nan (x : pyfloat) (n : nat) :
  x <> FNaN -> round_ndigits x n <> FNaN.
Proof.
  destruct x as [ | neg | m k]; cbn; intros H; [congruence | discriminate ..].
Qed.

Lemma build_nan_free (e : env) (c : call) :
  confidence_is_nan c = false -> nan_free (PDict (build e c)) = true.
Proof.
  destruct c; intros Hc; try reflexivity.
  - cbn. rewrite nan_free_str_dicts. reflexivity.
  - assert (confidence <> FNaN) as Hx by (intros ->; discriminate Hc).
    apply (round_ndigits_nan _ 4) in Hx.
    cbn. rewrite forallb_map_PStr by reflexivity.
    destruct (round_ndigits confidence 4); [congruence | reflexivity | reflexivity].
Qed.

Lemma ints_fit_str_dicts (peers : list (list (string * string))) :
  forallb ints_fit (map str_dict peers) = true.
Proof.
  apply forallb_forall. intros x Hin.
  apply in_map_iff in Hin as (d & <- & _). unfold str_dict. cbn [ints_fit].
  apply forallb_forall. intros [k y] Hin.
  apply in_map_iff in Hin as (kv & E & _). injection E as _ <-. reflexivity.
Qed.

Lemma build_ints_fit (e : env) (c : call) :
  forallb int_fits (ints_of c) = true -> ints_fit (PDict (build e c)) = true.
Proof.
  destruct c; cbn [ints_of forallb]; intros Hc;
    try rewrite andb_true_r in Hc; try reflexivity.
  - cbn. rewrite ints_fit_str_dicts. reflexivity.
  - cbn. rewrite Hc. reflexivity.
  - cbn. rewrite Hc. reflexivity.
  - cbn. rewrite Hc. reflexivity.
  - cbn. rewrite Hc, forallb_map_PStr by reflexivity. reflexivity.
Qed.

(** C1, as the specification words it, fails: the message [ping]
    builds from a sequence number of 5001 digits is not encoded at all;
    [encode] raises [ValueError], an int of more than 4300 digits having
    no decimal text. *)
Lemma ping_of_long_int_is_not_encoded :
  encode (build sample_env (Ping "hugo" (10 ^ 5000))) = Raise ValueError
  /\ ~ exists body v,
         encode (build sample_env (Ping "hugo" (10 ^ 5000))) = Ok body
         /\ decode body = Ok v
         /\ py_eq v (PDict (build sample_env (Ping "hugo" (10 ^ 5000)))) = true.
Proof.
  assert (encode (build sample_env (Ping "hugo" (10 ^ 5000))) = Raise ValueError)
    as E by (vm_compute; reflexivity).
  split; [exact E |]. rewrite E. intros (body & v & H & _). discriminate H.
Qed.

(** The other message that does not survive: [audit_result] built from
    a NaN confidence is decoded to a message that is not equal to it,
    since a NaN is equal to nothing. *)
Example audit_result_nan_not_equal_after_round_trip :
  exists body v,
    encode (build sample_env (AuditResult "hugo" "video-42" 150 FNaN None)) = Ok body
    /\ decode body = Ok v
    /\ py_eq v (PDict (build sample_env (AuditResult "hugo" "video-42" 150 FNaN None)))
       = false.
Proof.
  eexists _, _. split; [vm_compute; reflexivity |].
  split; vm_compute; reflexivity.
Qed.

(** C1 (amended): for every message one of the eight builders returns
    from ints of at most 4300 digits and, for [audit_result], from a
    confidence that is a number, [encode] returns a text, and decoding
    it returns a message equal to the one encoded. *)
Theorem decode_encode_round_trip :
  forall (e : env) (c : call),
    peers_are_dicts c = true ->
    forallb int_fits (ints_of c) = true ->
    confidence_is_nan c = false ->
    exists body v,
      encode (build e c) = Ok body
      /\ decode body = Ok v
      /\ py_eq v (PDict (build e c)) = true.
Proof.
  intros e c Hpeers Hints Hnan.
  pose proof (build_keys_unique e c Hpeers) as Hkeys.
  pose proof (build_ints_fit e c Hints) as Hfit.
  exists (json.text_of (PDict (build e c))), (norm (PDict (build e c))).
  split; [| split].
  - unfold encode, json.dumps. rewrite Hfit. reflexivity.
  - unfold decode. apply loads_text_of; assumption.
  - apply py_eq_norm; [exact Hkeys | apply build_nan_free, Hnan].
Qed.

Lemma decode_encode_round_trip_witness :
  exists body v,
    encode (build sample_env
              (AuditResult "hugo" "video-42" 150 (FDec 92 2)
                 (Some ["sam"; "phin"]))) = Ok body
    /\ decode body = Ok v
    /\ py_eq v (PDict (build sample_env
                         (AuditResult "hugo" "video-42" 150 (FDec 92 2)
                            (Some ["sam"; "phin"])))) = true.
Proof.
  apply (decode_encode_round_trip sample_env
           (AuditResult "hugo" "video-42" 150 (FDec 92 2) (Some ["sam"; "phin"])));
    reflexivity.
Defined.

(** The self-test of protocol.py: one message of each type survives. *)
Example self_test_messages_round_trip :
  forallb
    (fun c =>
       match encode (build sample_env c) with
       | Ok body =>
           match decode body with
           | Ok v => py_eq v (PDict (build sample_env c))
           | Raise _ => false
           end
       | Raise _ => false
       end)
    [ Hello "hugo" "https://sqs.us-east-1.amazonaws.com/194722398367/ds2032-node-hugo-p2p";
      PeerList "hugo" sample_peers;
      Ping "hugo" 1;
      Pong "sam" 1;
      ViewEvent "hugo" "evt-001" "video-42" 150 "ad-7";
      AuditResult "hugo" "video-42" 150 (FDec 92 2) (Some ["sam"; "phin"]);
      Choke "hugo";
      Unchoke "hugo" ]
  = true.
Proof. vm_compute. reflexivity. Qed.

End ProtocolFacts.

(** ** The node runtime *)

Section NodeFacts.

Import Py P2PNode.

(** *** The dispatcher *)

(** C4: a message whose [sender] is the node's own id is dropped:
    [handle_message] returns at once, the node (its statistics and its
    four modules included) and the message are as before, and nothing
    was logged and no handler started. *)
Theorem handle_message_drops_own_messages :
  forall (out : console) (H : handlers) (format_msg : dict -> result string)
         (self : P2PNode.t) (msg : dict),
    dict_get msg "sender" = Some (PStr (node_id self)) ->
    let o := handle_message out H format_msg msg self in
    returned o = Ok msg
    /\ state o = self
    /\ effects o = []
    /\ messages_received (stats (state o)) = messages_received (stats self)
    /\ gossip (state o) = gossip self
    /\ heartbeat (state o) = heartbeat self
    /\ choking (state o) = choking self
    /\ reputation (state o) = reputation self.
Proof.
  intros out H format_msg self msg Hsender.
  unfold handle_message, dict_get_default. rewrite Hsender.
  cbn [py_eq]. rewrite String.eqb_refl. cbn. repeat split; reflexivity.
Qed.

Lemma handle_message_drops_own_messages_witness :
  let msg := [("type", PStr "PING"); ("sender", PStr "hugo"); ("seq", PInt 7)] in
  let o := handle_message open_console shell_handlers (fun _ => Ok "") msg sample_node in
  returned o = Ok msg
  /\ state o = sample_node
  /\ effects o = []
  /\ messages_received (stats (state o)) = messages_received (stats sample_node)
  /\ gossip (state o) = gossip sample_node
  /\ heartbeat (state o) = heartbeat sample_node
  /\ choking (state o) = choking sample_node
  /\ reputation (state o) = reputation sample_node.
Proof.
  apply (handle_message_drops_own_messages open_console shell_handlers (fun _ => Ok "")
           sample_node
           [("type", PStr "PING"); ("sender", PStr "hugo"); ("seq", PInt 7)]).
  reflexivity.
Defined.

Lemma handlers_get_unknown (H : handlers) (msg_type : value) :
  unknown_type msg_type -> handlers_get H msg_type = Ok None.
Proof.
  destruct msg_type as [ | b | z | f | s | l | d ]; cbn; intros Hu;
    try reflexivity; try contradiction.
  unfold protocol.ALL_TYPES in Hu. cbn in Hu.
  repeat match goal with
         | |- context [String.eqb s ?k] =>
             destruct (String.eqb_spec s k) as [-> | _]; [exfalso; tauto |]
         end.
  reflexivity.
Qed.

(** A message from another node whose [type] can be hashed and is none
    of the eight: counted, logged as unknown, nothing else. *)
Lemma handle_message_unknown_type (out : console) (H : handlers)
    (format_msg : dict -> result string) (self : P2PNode.t) (msg : dict) :
  py_eq (dict_get_default msg "sender" (PStr "?")) (PStr (node_id self)) = false ->
  unknown_type (dict_get_default msg "type" PNone) ->
  out (unknown_type_line (node_id self) msg) = None ->
  handle_message out H format_msg msg self
  = mk_outcome (Ok msg) (count_received self)
      [Logged [Lit "Unknown message type: "; Fmt (dict_get_default msg "type" PNone)]].
Proof.
  intros Hsender Htype Hout. unfold handle_message. rewrite Hsender.
  unfold bind. cbn [update returned state effects].
  rewrite (handlers_get_unknown H _ Htype).
  cbn [from_result ret returned state effects]. unfold _log.
  unfold unknown_type_line in Hout. cbn [count_received with_stats node_id].
  rewrite Hout. reflexivity.
Qed.

(** C9, at the input where the code departs from it: a message from
    another node whose [type] is a JSON array.  The message is counted,
    then the lookup in the handler table raises [TypeError]; nothing is
    logged. *)
Theorem handle_message_unhashable_type_raises :
  forall (out : console) (H : handlers) (format_msg : dict -> result string),
    handle_message out H format_msg
      [("type", PList []); ("sender", PStr "sam")] sample_node
    = mk_outcome (Raise TypeError) (count_received sample_node) [].
Proof. intros out H format_msg. reflexivity. Qed.

(** The same message, as it arrives: [decode] accepts its body. *)
Example unhashable_type_message_is_received :
  SQSTransport.receive
    (SQSTransport.Messages
       [(json.text_of (PDict [("type", PList []); ("sender", PStr "sam")]), "r-1")])
  = Ok [[("type", PList []); ("sender", PStr "sam"); ("_receipt_handle", PStr "r-1")]].
Proof. vm_compute. reflexivity. Qed.

(** *** The main loop *)

Lemma scans_app (tr1 tr2 : list event) :
  forall ph ph1 ph2,
    scans ph tr1 ph1 -> scans ph1 tr2 ph2 -> scans ph (tr1 ++ tr2) ph2.
Proof.
  induction tr1 as [| ev tr1 IH]; intros ph ph1 ph2 H1 H2.
  - inversion H1; subst. exact H2.
  - inversion H1; subst. cbn. econstructor; [eassumption |].
    eapply IH; eassumption.
Qed.

Lemma scans_app_inv (tr1 tr2 : list event) :
  forall ph ph2,
    scans ph (tr1 ++ tr2) ph2 ->
    exists ph1, scans ph tr1 ph1 /\ scans ph1 tr2 ph2.
Proof.
  induction tr1 as [| ev tr1 IH]; intros ph ph2 H.
  - exists ph. split; [constructor | exact H].
  - cbn in H. inversion H; subst.
    destruct (IH _ _ H5) as (ph1' & Ha & Hb).
    exists ph1'. split; [econstructor; eassumption | exact Hb].
Qed.

(** The effects of a method leave the loop outside any call, or inside
    the one it is in. *)
Lemma scans_effects_calm (xs : list effect) (ph : phase) :
  calm ph -> exists ph', scans ph (map Effect xs) ph' /\ calm ph'.
Proof.
  revert ph. induction xs as [| x xs IH]; intros ph Hph.
  - exists ph. split; [constructor | exact Hph].
  - destruct (IH Outside I) as (ph' & Hs & Hc).
    exists ph'. split; [| exact Hc]. cbn.
    destruct ph as [ | | m]; [| contradiction |];
      (econstructor; [constructor | exact Hs]).
Qed.

Lemma scans_effects_inside (xs : list effect) :
  scans Inside (map Effect xs) Inside.
Proof.
  induction xs as [| x xs IH]; cbn; [constructor |].
  econstructor; [constructor | exact IH].
Qed.

Lemma disciplined_ret {A : Type} (a : A) : disciplined (ret a).
Proof. intros self ph Hph. exists ph. split; [constructor | exact Hph]. Qed.

Lemma disciplined_throw {A : Type} (e : exn) : disciplined (@throw event A e).
Proof. intros self ph Hph. exists ph. split; [constructor | exact I]. Qed.

Lemma disciplined_update (f : P2PNode.t -> P2PNode.t) : disciplined (update f).
Proof. intros self ph Hph. exists ph. split; [constructor | exact Hph]. Qed.

Lemma disciplined_read {A : Type} (f : P2PNode.t -> A) : disciplined (read f).
Proof. intros self ph Hph. exists ph. split; [constructor | exact Hph]. Qed.

Lemma disciplined_from_result {A : Type} (r : result A) :
  disciplined (from_result r).
Proof. destruct r; [apply disciplined_ret | apply disciplined_throw]. Qed.

Lemma disciplined_lift {A : Type} (c : M effect A) : disciplined (lift c).
Proof.
  intros self ph Hph. unfold lift. cbn [effects returned].
  destruct (scans_effects_calm (effects (c self)) ph Hph) as (ph' & Hs & Hc).
  exists ph'. split; [exact Hs |]. destruct (returned (c self)); [exact Hc | exact I].
Qed.

Lemma disciplined_bind {A B : Type} (c : M event A) (k : A -> M event B) :
  disciplined c -> (forall a, disciplined (k a)) -> disciplined (bind c k).
Proof.
  intros Hc Hk self ph Hph. unfold bind.
  destruct (Hc self ph Hph) as (ph1 & Hs1 & Hend1).
  destruct (returned (c self)) as [a | e].
  - destruct (Hk a (state (c self)) ph1 Hend1) as (ph2 & Hs2 & Hend2).
    exists ph2. cbn [effects returned]. split; [| exact Hend2].
    eapply scans_app; eassumption.
  - exists ph1. cbn [effects returned]. split; [exact Hs1 | exact I].
Qed.

Create HintDb discipline.

#[local] Hint Resolve disciplined_ret disciplined_throw disciplined_update
  disciplined_read disciplined_from_result disciplined_lift : discipline.

Section Loop.

Variable out : console.
Variable H : handlers.
Variable T : tasks.
Variable format_msg : dict -> result string.
Variable age_entries : GossipNode.t -> result GossipNode.t.

(** The [for] loop, one message unfolded. *)
Lemma process_messages_cons (msg : dict) (rest : list dict) (self : P2PNode.t) :
  process_messages out H format_msg (msg :: rest) self
  = let o := handle_message out H format_msg msg self in
    match returned o with
    | Raise e => mk_outcome (Raise e) (state o) (Call msg :: map Effect (effects o))
    | Ok msg' =>
        let acks :=
          if truthy (receipt_of msg')
          then [Deleted (node_id (state o)) (receipt_of msg')] else [] in
        let o2 := process_messages out H format_msg rest (state o) in
        mk_outcome (returned o2) (state o2)
          (Call msg :: map Effect (effects o) ++ Return msg' :: acks ++ effects o2)
    end.
Proof.
  cbn [process_messages].
  unfold bind, emit, lift, read, ret, receipt_of, dict_pop.
  cbn [returned state effects fst].
  destruct (handle_message out H format_msg msg self) as [r st xs].
  cbn [returned state effects]. destruct r as [msg' | e]; [| reflexivity].
  cbn [returned state effects].
  destruct (truthy (dict_get_default msg' "_receipt_handle" PNone));
    cbn [returned state effects app]; rewrite ?app_nil_r; reflexivity.
Qed.

Lemma process_messages_scans (messages : list dict) :
  forall (self : P2PNode.t) (ph : phase),
    calm ph ->
    exists ph',
      scans ph (effects (process_messages out H format_msg messages self)) ph'
      /\ match returned (process_messages out H format_msg messages self) with
         | Ok _ => calm ph'
         | Raise _ => True
         end.
Proof.
  induction messages as [| msg rest IH]; intros self ph Hph.
  - exists ph. split; [constructor | exact Hph].
  - rewrite process_messages_cons. cbv zeta.
    assert (step ph (Call msg) Inside) as Hcall
      by (destruct ph; [constructor | contradiction | constructor]).
    destruct (returned (handle_message out H format_msg msg self)) as [msg' | e].
    + cbn [effects returned].
      destruct (truthy (receipt_of msg')) eqn:Etruthy.
      * destruct (IH (state (handle_message out H format_msg msg self)) Outside I)
          as (ph' & Hs & Hend).
        exists ph'. split; [| exact Hend].
        econstructor; [exact Hcall |].
        eapply scans_app; [apply scans_effects_inside |].
        econstructor; [constructor |].
        econstructor; [constructor; exact Etruthy | exact Hs].
      * destruct (IH (state (handle_message out H format_msg msg self))
                    (Returned msg') I) as (ph' & Hs & Hend).
        exists ph'. split; [| exact Hend].
        econstructor; [exact Hcall |].
        eapply scans_app; [apply scans_effects_inside |].
        econstructor; [constructor | exact Hs].
    + exists Inside. cbn [effects returned]. split; [| exact I].
      econstructor; [exact Hcall | apply scans_effects_inside].
Qed.

Lemma disciplined_process_messages (messages : list dict) :
  disciplined (process_messages out H format_msg messages).
Proof. intros self ph Hph. apply process_messages_scans, Hph. Qed.

Hint Resolve disciplined_process_messages : discipline.

Lemma disciplined_run_round (i : round_input) :
  disciplined (run_round out H T format_msg age_entries i).
Proof.
  unfold run_round.
  repeat (apply disciplined_bind; [| intros ?]); auto with discipline.
Qed.

Lemma disciplined_run_loop (inputs : list round_input) :
  disciplined (run_loop out H T format_msg age_entries inputs).
Proof.
  induction inputs as [| i rest IH].
  - apply disciplined_ret.
  - intros self ph Hph. cbn [run_loop]. destruct (running self).
    + apply (disciplined_bind (run_round out H T format_msg age_entries i)
               (fun _ => run_loop out H T format_msg age_entries rest));
        [apply disciplined_run_round | intros _; exact IH | exact Hph].
    + apply disciplined_lift, Hph.
Qed.

Hint Resolve disciplined_run_loop : discipline.

Lemma disciplined_run (inputs : list round_input) :
  disciplined (run out H T format_msg age_entries inputs).
Proof.
  unfold run.
  repeat (apply disciplined_bind; [| intros ?]); auto with discipline.
Qed.

End Loop.

(** A [Deleted] that the discipline allows comes right after the
    [Return] of the message whose receipt it deletes. *)
Lemma scans_deleted (pre post : list event) (id : string) (r : value) :
  forall ph ph',
    scans ph (pre ++ Deleted id r :: post) ph' ->
    (pre = [] /\ exists m, ph = Returned m /\ r = receipt_of m /\ truthy r = true)
    \/ (exists pre' m, pre = pre' ++ [Return m]
                       /\ r = receipt_of m /\ truthy r = true).
Proof.
  induction pre as [| ev pre IH]; intros ph ph' Hs.
  - left. split; [reflexivity |]. cbn in Hs. inversion Hs; subst.
    match goal with Hstep : step _ (Deleted _ _) _ |- _ => inversion Hstep; subst end.
    eexists. repeat split; try reflexivity; assumption.
  - right. cbn in Hs. inversion Hs; subst.
    match goal with Htail : scans _ (pre ++ _) _ |- _ =>
      destruct (IH _ _ Htail) as [(-> & m & -> & -> & Ht) | (pre' & m & -> & -> & Ht)]
    end.
    + match goal with Hstep : step _ ev (Returned m) |- _ => inversion Hstep; subst end.
      exists [], m. repeat split; try reflexivity; exact Ht.
    + exists (ev :: pre'), m. repeat split; try reflexivity; exact Ht.
Qed.

(** Inside a call, the trace goes on with effects of the handler up to
    the [Return], or it stops inside. *)
Lemma scans_inside (post : list event) :
  forall ph',
    scans Inside post ph' ->
    (exists xs m post', post = map Effect xs ++ Return m :: post')
    \/ (exists xs, post = map Effect xs /\ ph' = Inside).
Proof.
  induction post as [| ev post IH]; intros ph' Hs.
  - right. exists []. inversion Hs; subst. split; reflexivity.
  - inversion Hs; subst.
    match goal with Hstep : step Inside ev _ |- _ => inversion Hstep; subst end.
    + match goal with Htail : scans Inside post _ |- _ =>
        destruct (IH _ Htail) as [(xs & m & post' & ->) | (xs & -> & ->)]
      end.
      * left. exists (x :: xs), m, post'. reflexivity.
      * right. exists (x :: xs). split; reflexivity.
    + left. exists [], m, post. reflexivity.
Qed.

Lemma scans_call (ph ph' : phase) (msg : dict) (post : list event) :
  scans ph (Call msg :: post) ph' -> scans Inside post ph'.
Proof.
  intros Hs. inversion Hs as [| ? ? ph1 ? ? Hstep Htail]; subst.
  inversion Hstep; subst; exact Htail.
Qed.

(** C5: in a run of the main loop, whatever the handlers, the periodic
    tasks and the queue do: (1) every [transport.delete] comes right
    after [handle_message] has returned normally on a message, and it is
    for the receipt handle of that message, which is truthy; (2) every
    call of [handle_message] either returns, or raises, and then the run
    ends raising, with nothing after the effects of that call: no
    delete for that message. *)
Theorem delete_only_after_handler_returns :
  forall (out : console) (H : handlers) (T : tasks)
         (format_msg : dict -> result string)
         (age_entries : GossipNode.t -> result GossipNode.t)
         (inputs : list round_input) (self : P2PNode.t),
    let o := run out H T format_msg age_entries inputs self in
    (forall pre id r post,
        effects o = pre ++ Deleted id r :: post ->
        exists pre' msg,
          pre = pre' ++ [Return msg]
          /\ r = receipt_of msg
          /\ truthy r = true)
    /\ (forall pre msg post,
           effects o = pre ++ Call msg :: post ->
           (exists xs msg' post', post = map Effect xs ++ Return msg' :: post')
           \/ (exists xs e, post = map Effect xs /\ returned o = Raise e)).
Proof.
  intros out H T format_msg age_entries inputs self o.
  destruct (disciplined_run out H T format_msg age_entries inputs self Outside I)
    as (ph' & Hs & Hend).
  fold o in Hs, Hend. split.
  - intros pre id r post E. rewrite E in Hs.
    destruct (scans_deleted _ _ _ _ _ _ Hs)
      as [(_ & m & Hph & _) | (pre' & m & Hpre & Hr & Ht)]; [discriminate Hph |].
    exists pre', m. auto.
  - intros pre msg post E. rewrite E in Hs.
    apply scans_app_inv in Hs as (ph1 & _ & Hs).
    apply scans_call in Hs.
    destruct (scans_inside _ _ Hs) as [Hret | (xs & -> & ->)].
    + left. exact Hret.
    + right. exists xs. destruct (returned o) as [[] | e]; [contradiction |].
      exists e. split; reflexivity.
Qed.

Example unknown_type_message_is_acknowledged :
  effects (shell_run [("type", PStr "NOPE"); ("sender", PStr "sam")])
  = [ Effect (Logged [Lit "Starting main loop..."]);
      Effect (Printed [Lit "["; Fmt (PStr "hugo");
                       Lit "] Node running. Press Ctrl+C to stop."]);
      Call [("type", PStr "NOPE"); ("sender", PStr "sam");
            ("_receipt_handle", PStr "r-1")];
      Effect (Logged [Lit "Unknown message type: "; Fmt (PStr "NOPE")]);
      Return [("type", PStr "NOPE"); ("sender", PStr "sam");
              ("_receipt_handle", PStr "r-1")];
      Deleted "hugo" (PStr "r-1") ]
  /\ returned (shell_run [("type", PStr "NOPE"); ("sender", PStr "sam")])
     = Raise NotImplementedError.
Proof. split; vm_compute; reflexivity. Qed.

Example raising_handler_message_is_not_acknowledged :
  effects (shell_run [("type", PStr "PING"); ("sender", PStr "sam"); ("seq", PInt 1)])
  = [ Effect (Logged [Lit "Starting main loop..."]);
      Effect (Printed [Lit "["; Fmt (PStr "hugo");
                       Lit "] Node running. Press Ctrl+C to stop."]);
      Call [("type", PStr "PING"); ("sender", PStr "sam"); ("seq", PInt 1);
            ("_receipt_handle", PStr "r-1")];
      Effect (Invoked "_handle_ping") ]
  /\ returned (shell_run [("type", PStr "PING"); ("sender", PStr "sam"); ("seq", PInt 1)])
     = Raise NotImplementedError.
Proof. split; vm_compute; reflexivity. Qed.

End NodeFacts.

(* ===================================================================== *)
(** * Part IV. Further properties of the code                             *)
(* ===================================================================== *)

(** ** The ratio methods of the algorithm modules *)

Section RatioFacts.

Lemma Qdiv_in_unit_interval (a b : Z) :
  0 <= a <= b -> 0 < b ->
  (0 <= inject_Z a / inject_Z b /\ inject_Z a / inject_Z b <= 1)%Q.
Proof.
  intros [Ha Hab] Hb.
  assert (0 < inject_Z b)%Q as Hb' by (rewrite (Zlt_Qlt 0 b) in Hb; exact Hb).
  split.
  - apply Qle_shift_div_l; [exact Hb' |].
    rewrite Qmult_0_l. rewrite (Zle_Qle 0 a) in Ha. exact Ha.
  - apply Qle_shift_div_r; [exact Hb' |].
    rewrite Qmult_1_l. rewrite (Zle_Qle a b) in Hab. exact Hab.
Qed.

Lemma Qdiv_monotone (a b c : Z) :
  a <= b -> 0 < c -> (inject_Z a / inject_Z c <= inject_Z b / inject_Z c)%Q.
Proof.
  intros Hab Hc.
  assert (0 < inject_Z c)%Q as Hc' by (rewrite (Zlt_Qlt 0 c) in Hc; exact Hc).
  unfold Qdiv. apply Qmult_le_compat_r.
  - rewrite (Zle_Qle a b) in Hab. exact Hab.
  - apply Qlt_le_weak, Qinv_lt_0_compat, Hc'.
Qed.

(** A proportion of two ints, as [int / int] gives it. *)
Lemma truediv_unit (a b : Z) :
  0 <= a <= b -> 0 < b ->
  exists q, Py.truediv a b = Py.Ok q /\ (0 <= q /\ q <= 1)%Q.
Proof.
  intros Hab Hb. unfold Py.truediv.
  destruct (Z.eqb_spec b 0); [lia |].
  destruct (Qdiv_in_unit_interval a b Hab Hb) as [Hlo Hhi].
  apply to_float_unit; assumption.
Qed.

(** X1: with the counters as the heartbeat module keeps them (no more
    pongs than pings, none negative), [response_rate] is a proportion:
    it lies between 0 and 1. *)
Theorem response_rate_is_a_proportion :
  forall p : PeerState.t,
    0 <= PeerState.total_pongs_received p <= PeerState.total_pings_sent p ->
    exists q, PeerState.response_rate p = Py.Ok q /\ (0 <= q /\ q <= 1)%Q.
Proof.
  intros p H. unfold PeerState.response_rate.
  destruct (Z.eqb_spec (PeerState.total_pings_sent p) 0) as [E | E].
  - exists 1%Q. split; [reflexivity |]. split; discriminate.
  - apply truediv_unit; lia.
Qed.

Lemma response_rate_is_a_proportion_witness :
  exists q,
    PeerState.response_rate (PeerState.mk "node-b" ALIVE 1 3 4 3) = Py.Ok q
    /\ (0 <= q /\ q <= 1)%Q.
Proof.
  apply (response_rate_is_a_proportion (PeerState.mk "node-b" ALIVE 1 3 4 3)).
  cbn. lia.
Defined.

(** X2: with counters that count (accurate reports among the reports,
    answered heartbeats among the heartbeats, contributions and
    consumptions not negative), each of the three signals of a
    reputation record lies between 0 and 1. *)
Theorem reputation_signals_are_proportions :
  forall r : ReputationRecord.t,
    0 <= ReputationRecord.reports_accurate r <= ReputationRecord.reports_total r ->
    0 <= ReputationRecord.heartbeats_responded r
      <= ReputationRecord.heartbeats_total r ->
    0 <= ReputationRecord.contributions r ->
    0 <= ReputationRecord.consumptions r ->
    (exists q, ReputationRecord.accuracy r = Py.Ok q /\ (0 <= q /\ q <= 1)%Q)
    /\ (exists q, ReputationRecord.uptime r = Py.Ok q /\ (0 <= q /\ q <= 1)%Q)
    /\ (exists q, ReputationRecord.reciprocity r = Py.Ok q /\ (0 <= q /\ q <= 1)%Q).
Proof.
  intros r Hacc Hup Hc Hs.
  unfold ReputationRecord.accuracy, ReputationRecord.uptime,
    ReputationRecord.reciprocity.
  repeat split.
  - destruct (Z.eqb_spec (ReputationRecord.reports_total r) 0).
    + exists (1 # 2)%Q. split; [reflexivity |]. split; discriminate.
    + apply truediv_unit; lia.
  - destruct (Z.eqb_spec (ReputationRecord.heartbeats_total r) 0).
    + exists (1 # 2)%Q. split; [reflexivity |]. split; discriminate.
    + apply truediv_unit; lia.
  - cbv zeta.
    destruct (Z.eqb_spec (ReputationRecord.contributions r
                          + ReputationRecord.consumptions r) 0).
    + exists (1 # 2)%Q. split; [reflexivity |]. split; discriminate.
    + apply truediv_unit; lia.
Qed.

Lemma reputation_signals_are_proportions_witness :
  (exists q, ReputationRecord.accuracy
               (ReputationRecord.mk "node-b" 10 7 0 0 3 9 (95 # 100) (1 # 2)) = Py.Ok q
             /\ (0 <= q /\ q <= 1)%Q)
  /\ (exists q, ReputationRecord.uptime
                  (ReputationRecord.mk "node-b" 10 7 0 0 3 9 (95 # 100) (1 # 2)) = Py.Ok q
                /\ (0 <= q /\ q <= 1)%Q)
  /\ (exists q, ReputationRecord.reciprocity
                  (ReputationRecord.mk "node-b" 10 7 0 0 3 9 (95 # 100) (1 # 2)) = Py.Ok q
                /\ (0 <= q /\ q <= 1)%Q).
Proof.
  apply (reputation_signals_are_proportions
           (ReputationRecord.mk "node-b" 10 7 0 0 3 9 (95 # 100) (1 # 2)));
    cbn; lia.
Defined.

(** One true division of a part by the whole: the float is within
    [2^-53] of the exact proportion. *)
Lemma truediv_close (a t : Z) :
  0 <= a <= t -> 0 < t ->
  exists q,
    Py.truediv a t = Py.Ok q
    /\ (Qabs (q - inject_Z a / inject_Z t) <= 1 # Z.to_pos (2 ^ 53))%Q.
Proof.
  intros Ha Ht.
  destruct (Qdiv_in_unit_interval a t Ha Ht) as [Hlo Hhi].
  assert (Qabs (inject_Z a / inject_Z t) < inject_Z (2 ^ 1023))%Q as Hrange.
  { rewrite Qabs_pos by exact Hlo.
    eapply Qle_lt_trans; [exact Hhi | reflexivity]. }
  exists (Py.round_to_binary64 (inject_Z a / inject_Z t)).
  split.
  - unfold Py.truediv. destruct (Z.eqb_spec t 0); [lia |].
    apply to_float_in_range, Hrange.
  - destruct t as [| p | p]; try lia.
    destruct a as [| n | n]; try lia.
    + discriminate.
    + unfold Py.round_to_binary64, Qdiv, Qmult, Qinv, inject_Z.
      cbn [Qnum Qden Z.mul Pos.mul].
      rewrite Z.mul_1_r, Pos.mul_1_l.
      pose proof (nearest_binary64_close (Z.pos n) (Z.pos p)
                    ltac:(lia) ltac:(lia)) as Hc.
      cbn [Z.to_pos] in Hc. exact Hc.
Qed.

(** X3: what a peer gives and what it takes add up: with counters
    that are not negative and not both zero, the reciprocity of a
    record and that of the record with contributions and consumptions
    exchanged sum to 1, up to the rounding of the two divisions (each
    float is within [2^-53] of its proportion). *)
Theorem reciprocity_of_exchanged_roles :
  forall r r' : ReputationRecord.t,
    ReputationRecord.contributions r' = ReputationRecord.consumptions r ->
    ReputationRecord.consumptions r' = ReputationRecord.contributions r ->
    0 <= ReputationRecord.contributions r ->
    0 <= ReputationRecord.consumptions r ->
    ReputationRecord.contributions r + ReputationRecord.consumptions r <> 0 ->
    exists q q',
      ReputationRecord.reciprocity r = Py.Ok q
      /\ ReputationRecord.reciprocity r' = Py.Ok q'
      /\ (Qabs (q + q' - 1) <= 1 # Z.to_pos (2 ^ 52))%Q.
Proof.
  intros r r' Hc Hs Ha Hb Htotal.
  unfold ReputationRecord.reciprocity. cbv zeta.
  rewrite Hc, Hs.
  rewrite (Z.add_comm (ReputationRecord.consumptions r)).
  destruct (Z.eqb_spec (ReputationRecord.contributions r
                        + ReputationRecord.consumptions r) 0) as [E | _];
    [contradiction |].
  set (a := ReputationRecord.contributions r) in *.
  set (b := ReputationRecord.consumptions r) in *.
  destruct (truediv_close a (a + b)) as (q & Eq & Hq); [lia | lia |].
  destruct (truediv_close b (a + b)) as (q' & Eq' & Hq'); [lia | lia |].
  exists q, q'. split; [exact Eq |]. split; [exact Eq' |].
  assert (~ inject_Z (a + b) == 0)%Q as Hnz.
  { intros E. apply Htotal. unfold Qeq in E. cbn in E. lia. }
  assert (q + q' - 1
          == (q - inject_Z a / inject_Z (a + b))
             + (q' - inject_Z b / inject_Z (a + b)))%Q as E.
  { rewrite inject_Z_plus in *. field. exact Hnz. }
  rewrite E. eapply Qle_trans; [apply Qabs_triangle |].
  eapply Qle_trans; [apply Qplus_le_compat; eassumption |].
  vm_compute. discriminate.
Qed.

Lemma reciprocity_of_exchanged_roles_witness :
  exists q q',
    ReputationRecord.reciprocity
      (ReputationRecord.mk "node-b" 0 0 0 0 3 9 (95 # 100) (1 # 2)) = Py.Ok q
    /\ ReputationRecord.reciprocity
         (ReputationRecord.mk "node-c" 0 0 0 0 9 3 (95 # 100) (1 # 2)) = Py.Ok q'
    /\ (Qabs (q + q' - 1) <= 1 # Z.to_pos (2 ^ 52))%Q.
Proof.
  apply (reciprocity_of_exchanged_roles
           (ReputationRecord.mk "node-b" 0 0 0 0 3 9 (95 # 100) (1 # 2))
           (ReputationRecord.mk "node-c" 0 0 0 0 9 3 (95 # 100) (1 # 2)));
    cbn; [reflexivity | reflexivity | lia | lia | lia].
Defined.

Lemma to_float_returns (q x : Q) :
  Py.to_float q = Py.Ok x ->
  x = Py.round_to_binary64 q
  /\ Qle_bool (inject_Z (2 ^ 1024)) (Qabs (Py.round_to_binary64 q)) = false.
Proof.
  unfold Py.to_float.
  destruct (Qle_bool (inject_Z (2 ^ 1024)) (Qabs (Py.round_to_binary64 q)));
    [discriminate |].
  intros E. injection E as <-. split; reflexivity.
Qed.

(** Of two numbers that both become floats, the smaller becomes the
    smaller float (or the same one). *)
Lemma to_float_monotone (q1 q2 x1 x2 : Q) :
  (q1 <= q2)%Q -> Py.to_float q1 = Py.Ok x1 -> Py.to_float q2 = Py.Ok x2 ->
  (x1 <= x2)%Q.
Proof.
  intros Hle H1 H2.
  apply to_float_returns in H1 as [-> _]. apply to_float_returns in H2 as [-> _].
  apply round_to_binary64_monotone, Hle.
Qed.

(** A number between zero and one that becomes a float becomes a
    float itself. *)
Lemma to_float_below (q1 q2 x2 : Q) :
  (0 <= q1)%Q -> (q1 <= q2)%Q -> Py.to_float q2 = Py.Ok x2 ->
  exists x1, Py.to_float q1 = Py.Ok x1 /\ (0 <= x1 /\ x1 <= x2)%Q.
Proof.
  intros H0 Hle H2. apply to_float_returns in H2 as [-> Hfin].
  pose proof (round_to_binary64_monotone 0 q1 H0) as Hlo.
  change (Py.round_to_binary64 0) with 0%Q in Hlo.
  pose proof (round_to_binary64_monotone q1 q2 Hle) as Hhi.
  exists (Py.round_to_binary64 q1). split; [| split; assumption].
  unfold Py.to_float.
  destruct (Qle_bool (inject_Z (2 ^ 1024)) (Qabs (Py.round_to_binary64 q1))) eqn:E;
    [| reflexivity].
  exfalso. apply Qle_bool_iff in E.
  assert (Qle_bool (inject_Z (2 ^ 1024)) (Qabs (Py.round_to_binary64 q2)) = true)
    as Hc; [| congruence].
  apply Qle_bool_iff.
  rewrite Qabs_pos in E by exact Hlo.
  rewrite Qabs_pos by (eapply Qle_trans; eassumption).
  eapply Qle_trans; eassumption.
Qed.

(** X4: for two peers that were served the same amount (not a
    negative one), the one that contributed more has the higher, or the
    same, [reciprocity_ratio], whenever both have one: contributing
    never lowers the rank.  And when the peer that contributed more has
    a ratio, so has every peer that contributed less, and not a
    negative amount. *)
Theorem reciprocity_ratio_grows_with_contribution :
  forall p1 p2 : PeerTracker.t,
    PeerTracker.received p1 = PeerTracker.received p2 ->
    0 <= PeerTracker.received p1 ->
    PeerTracker.contributed p1 <= PeerTracker.contributed p2 ->
    (forall q1 q2,
        PeerTracker.reciprocity_ratio p1 = Py.Ok q1 ->
        PeerTracker.reciprocity_ratio p2 = Py.Ok q2 ->
        (q1 <= q2)%Q)
    /\ (0 <= PeerTracker.contributed p1 ->
        forall q2,
          PeerTracker.reciprocity_ratio p2 = Py.Ok q2 ->
          exists q1,
            PeerTracker.reciprocity_ratio p1 = Py.Ok q1 /\ (0 <= q1 /\ q1 <= q2)%Q).
Proof.
  intros p1 p2 Hsame Hrec Hle.
  unfold PeerTracker.reciprocity_ratio, Py.truediv, Py.float_of_int.
  rewrite <- Hsame.
  destruct (Z.eqb_spec (PeerTracker.received p1) 0) as [E | E].
  - assert (inject_Z (PeerTracker.contributed p1)
            <= inject_Z (PeerTracker.contributed p2))%Q as Hq
      by (rewrite <- Zle_Qle; exact Hle).
    split.
    + intros q1 q2. apply to_float_monotone, Hq.
    + intros H0 q2. apply to_float_below; [| exact Hq].
      rewrite (Zle_Qle 0) in H0. exact H0.
  - assert (inject_Z (PeerTracker.contributed p1) / inject_Z (PeerTracker.received p1)
            <= inject_Z (PeerTracker.contributed p2)
               / inject_Z (PeerTracker.received p1))%Q as Hq
      by (apply Qdiv_monotone; lia).
    split.
    + intros q1 q2. apply to_float_monotone, Hq.
    + intros H0 q2. apply to_float_below; [| exact Hq].
      apply Qle_shift_div_l.
      * rewrite <- (Zlt_Qlt 0). lia.
      * rewrite Qmult_0_l. rewrite <- (Zle_Qle 0). exact H0.
Qed.

Lemma reciprocity_ratio_grows_with_contribution_witness :
  (forall q1 q2,
      PeerTracker.reciprocity_ratio (PeerTracker.mk "node-b" 5 4 true true 0) = Py.Ok q1 ->
      PeerTracker.reciprocity_ratio (PeerTracker.mk "node-c" 50 4 true true 0)
      = Py.Ok q2 ->
      (q1 <= q2)%Q)
  /\ (0 <= 5 ->
      forall q2,
        PeerTracker.reciprocity_ratio (PeerTracker.mk "node-c" 50 4 true true 0)
        = Py.Ok q2 ->
        exists q1,
          PeerTracker.reciprocity_ratio (PeerTracker.mk "node-b" 5 4 true true 0)
          = Py.Ok q1
          /\ (0 <= q1 /\ q1 <= q2)%Q).
Proof.
  apply (reciprocity_ratio_grows_with_contribution
           (PeerTracker.mk "node-b" 5 4 true true 0)
           (PeerTracker.mk "node-c" 50 4 true true 0));
    cbn; [reflexivity | lia | lia].
Defined.

(** The two ratios of the peers above. *)
Example reciprocity_ratio_of_two_peers :
  exists q1 q2,
    PeerTracker.reciprocity_ratio (PeerTracker.mk "node-b" 5 4 true true 0) = Py.Ok q1
    /\ PeerTracker.reciprocity_ratio (PeerTracker.mk "node-c" 50 4 true true 0)
       = Py.Ok q2
    /\ (q1 == 5 # 4)%Q
    /\ (q2 == 25 # 2)%Q.
Proof.
  eexists _, _. split; [vm_compute; reflexivity |].
  split; [vm_compute; reflexivity |]. split; reflexivity.
Qed.

(** The bound on [received] is a real precondition: served a negative
    amount, the peer that contributed more ranks lower. *)
Example reciprocity_ratio_negative_received :
  exists q1 q2,
    PeerTracker.reciprocity_ratio (PeerTracker.mk "node-b" 5 (-1) true true 0) = Py.Ok q1
    /\ PeerTracker.reciprocity_ratio (PeerTracker.mk "node-c" 50 (-1) true true 0)
       = Py.Ok q2
    /\ (q2 < q1)%Q.
Proof.
  eexists _, _. split; [vm_compute; reflexivity |].
  split; [vm_compute; reflexivity | reflexivity].
Qed.

End RatioFacts.

(** ** The wire format: [encode] and [decode] *)

Section WireFacts.

Import Py json protocol.


Lemma strip_zeros_idempotent (k : nat) :
  forall m, strip_zeros (fst (strip_zeros m k)) (snd (strip_zeros m k))
            = strip_zeros m k.
Proof.
  induction k as [| [| k] IH]; intros m.
  - reflexivity.
  - reflexivity.
  - rewrite strip_zeros_step.
    destruct (m mod 10 =? 0) eqn:E; [apply IH |].
    cbn [fst snd]. rewrite strip_zeros_step, E. reflexivity.
Qed.

Lemma norm_float_idempotent (f : pyfloat) : norm_float (norm_float f) = norm_float f.
Proof.
  destruct f as [ | neg | m k]; try reflexivity.
  cbn [norm_float]. pose proof (strip_zeros_idempotent k m) as H.
  destruct (strip_zeros m k) as [m' k']. cbn [fst snd norm_float] in *.
  rewrite H. reflexivity.
Qed.

Lemma norm_idempotent (v : value) : norm (norm v) = norm v.
Proof.
  induction v as [ | b | z | f | s | l IHl | d IHd ] using value_nested_ind;
    try reflexivity.
  - cbn [norm]. rewrite norm_float_idempotent. reflexivity.
  - cbn [norm]. f_equal.
    induction IHl as [| x l Hx _ IH]; [reflexivity |].
    cbn [map]. rewrite Hx, IH. reflexivity.
  - cbn [norm]. f_equal.
    induction IHd as [| [k x] d Hx _ IH]; [reflexivity |].
    cbn [map]. cbn [snd] in Hx. rewrite Hx, IH. reflexivity.
Qed.

Lemma keys_unique_norm (v : value) : keys_unique (norm v) = keys_unique v.
Proof.
  induction v as [ | b | z | f | s | l IHl | d IHd ] using value_nested_ind;
    try reflexivity.
  - cbn [norm keys_unique].
    induction IHl as [| x l Hx _ IH]; [reflexivity |].
    cbn [map forallb]. rewrite Hx, IH. reflexivity.
  - cbn [norm keys_unique]. rewrite map_fst_norm. f_equal.
    induction IHd as [| [k x] d Hx _ IH]; [reflexivity |].
    cbn [map forallb]. cbn [snd] in Hx. rewrite Hx, IH. reflexivity.
Qed.

Lemma dumps_ints_fit (v : value) (body : string) :
  dumps v = Ok body -> ints_fit v = true /\ body = text_of v.
Proof.
  unfold dumps. destruct (ints_fit v); [| discriminate].
  intros E. injection E as <-. split; reflexivity.
Qed.



(** X6: [encode] loses nothing: two messages with the same text are
    the same message, up to the way their floats are written. *)
Theorem encode_is_injective :
  forall (m1 m2 : dict) (body : string),
    keys_unique (PDict m1) = true ->
    keys_unique (PDict m2) = true ->
    encode m1 = Ok body ->
    encode m2 = Ok body ->
    norm (PDict m1) = norm (PDict m2).
Proof.
  intros m1 m2 body H1 H2 E1 E2.
  pose proof (loads_dumps _ _ H1 E1) as L1.
  pose proof (loads_dumps _ _ H2 E2) as L2.
  congruence.
Qed.

Lemma encode_is_injective_witness :
  norm (PDict [("seq", PFloat (FDec 150 2))]) = norm (PDict [("seq", PFloat (FDec 15 1))]).
Proof.
  apply (encode_is_injective [("seq", PFloat (FDec 150 2))]
                             [("seq", PFloat (FDec 15 1))]
                             (text_of (PDict [("seq", PFloat (FDec 15 1))])));
    vm_compute; reflexivity.
Defined.

(** X7: a decoded message is in the form the wire keeps: encoded and
    decoded once more (as a node that forwards it does), it comes back
    unchanged. *)
Theorem decoded_message_survives_forwarding :
  forall (msg : dict) (body : string) (received : value),
    keys_unique (PDict msg) = true ->
    encode msg = Ok body ->
    decode body = Ok received ->
    exists msg' body',
      received = PDict msg'
      /\ encode msg' = Ok body'
      /\ decode body' = Ok (PDict msg').
Proof.
  intros msg body received Hkeys Henc Hdec. unfold decode, encode in *.
  destruct (dumps_ints_fit _ _ Henc) as [Hints ->].
  rewrite (loads_text_of _ Hkeys Hints) in Hdec. injection Hdec as <-.
  cbn [norm]. eexists _, _. split; [reflexivity |].
  change (PDict (map (fun kv => let '(k, x) := kv in (k, norm x)) msg))
    with (norm (PDict msg)).
  split.
  - unfold dumps. rewrite ints_fit_norm, Hints. reflexivity.
  - rewrite loads_text_of
      by (rewrite ?keys_unique_norm, ?ints_fit_norm; assumption).
    rewrite norm_idempotent. reflexivity.
Qed.

Lemma decoded_message_survives_forwarding_witness :
  exists msg' body',
    PDict [("confidence", PFloat (FDec 92 2))] = PDict msg'
    /\ encode msg' = Ok body'
    /\ decode body' = Ok (PDict msg').
Proof.
  apply (decoded_message_survives_forwarding
           [("confidence", PFloat (FDec 9200 4))]
           (text_of (PDict [("confidence", PFloat (FDec 9200 4))]))
           (PDict [("confidence", PFloat (FDec 92 2))]));
    vm_compute; reflexivity.
Defined.

(** *** The characters of an encoded message *)

Lemma printable_ascii_of_N (n : N) :
  (32 <= n <= 126)%N -> printable (ascii_of_N n) = true.
Proof.
  intros H. unfold printable. rewrite N_ascii_embedding by lia.
  apply andb_true_intro. split; apply N.leb_le; lia.
Qed.

Lemma printable_hex_char (d : N) : (d < 16)%N -> printable (hex_char d) = true.
Proof.
  intros H. unfold hex_char.
  destruct (N.ltb_spec d 10); apply printable_ascii_of_N; lia.
Qed.

Lemma printable_fixed_digits (base : N) (w : nat) :
  (0 < base <= 16)%N ->
  forall n, forallb printable (fixed_digits base w n) = true.
Proof.
  intros Hbase. induction w as [| w IH]; intros n; cbn [fixed_digits].
  - reflexivity.
  - rewrite forallb_app, IH. cbn [forallb andb].
    rewrite printable_hex_char; [reflexivity |].
    assert (n mod base < base)%N by (apply N.mod_upper_bound; lia). lia.
Qed.

Lemma printable_digits_fuel (f : nat) :
  forall n, forallb printable (digits_fuel f n) = true.
Proof.
  induction f as [| f IH]; intros n; cbn [digits_fuel].
  - reflexivity.
  - destruct (N.ltb_spec n 10).
    + cbn [forallb]. unfold digit_char. rewrite printable_ascii_of_N by lia.
      reflexivity.
    + rewrite forallb_app, IH. cbn [forallb]. unfold digit_char.
      rewrite printable_ascii_of_N; [reflexivity |].
      pose proof (N.mod_upper_bound n 10 ltac:(lia)) as Hr.
      revert Hr. generalize (n mod 10)%N. intros r Hr. lia.
Qed.

Lemma printable_int_repr (z : Z) : forallb printable (int_repr z) = true.
Proof.
  unfold int_repr, digits.
  destruct (z <? 0); cbn [forallb]; rewrite printable_digits_fuel; reflexivity.
Qed.

Lemma printable_float_text (f : pyfloat) : forallb printable (float_text f) = true.
Proof.
  destruct f as [ | [|] | m k]; try reflexivity.
  cbn [float_text]. unfold dec_repr.
  destruct (strip_zeros m k) as [m' k'].
  rewrite !forallb_app. cbn [forallb]. unfold digits.
  rewrite printable_digits_fuel, printable_fixed_digits by lia.
  destruct (m' <? 0); reflexivity.
Qed.

Lemma printable_escape_char (c : ascii) : forallb printable (escape_char c) = true.
Proof.
  unfold escape_char.
  destruct (Ascii.eqb c dquote); [reflexivity |].
  destruct (Ascii.eqb c "\"); [reflexivity |].
  destruct (N_of_ascii c =? 10)%N; [reflexivity |].
  destruct (N_of_ascii c =? 13)%N; [reflexivity |].
  destruct (N_of_ascii c =? 9)%N; [reflexivity |].
  destruct (N_of_ascii c =? 8)%N; [reflexivity |].
  destruct (N_of_ascii c =? 12)%N; [reflexivity |].
  destruct ((32 <=? N_of_ascii c) && (N_of_ascii c <=? 126))%N eqn:E.
  - cbn [forallb]. unfold printable. rewrite E. reflexivity.
  - rewrite forallb_app, printable_fixed_digits by lia. reflexivity.
Qed.

Lemma printable_encode_string (s : string) :
  forallb printable (encode_string s) = true.
Proof.
  unfold encode_string. cbn [forallb].
  rewrite forallb_app. cbn [forallb].
  change (printable dquote) with true. cbn [andb]. rewrite andb_true_r.
  induction (list_ascii_of_string s) as [| c l IH]; [reflexivity |].
  cbn [flat_map]. rewrite forallb_app, printable_escape_char, IH. reflexivity.
Qed.

Lemma printable_join (parts : list text) :
  Forall (fun p => forallb printable p = true) parts ->
  forallb printable (join parts) = true.
Proof.
  induction 1 as [| x l Hx _ IH]; [reflexivity |].
  cbn [join]. destruct l as [| y l]; [exact Hx |].
  rewrite !forallb_app, Hx, IH. reflexivity.
Qed.

Lemma printable_dumps_value (v : value) : forallb printable (dumps_value v) = true.
Proof.
  induction v as [ | b | z | f | s | l IHl | d IHd ] using value_nested_ind.
  - reflexivity.
  - destruct b; reflexivity.
  - apply printable_int_repr.
  - apply printable_float_text.
  - apply printable_encode_string.
  - cbn [dumps_value forallb]. rewrite forallb_app, printable_join; [reflexivity |].
    apply List.Forall_map. exact IHl.
  - cbn [dumps_value forallb]. rewrite forallb_app, printable_join; [reflexivity |].
    apply List.Forall_map.
    eapply List.Forall_impl; [| exact IHd].
    intros [k x] Hx. cbn [snd] in Hx.
    rewrite !forallb_app, printable_encode_string, Hx. reflexivity.
Qed.

(** X8: the text [encode] returns holds printable ASCII characters
    only (from the space to the tilde): no line break, no control
    character and nothing outside ASCII, whatever the strings of the
    message hold. *)
Theorem encode_is_printable_ascii :
  forall (msg : dict) (body : string),
    encode msg = Ok body ->
    forallb printable (list_ascii_of_string body) = true.
Proof.
  intros msg body Henc. unfold encode in Henc.
  destruct (dumps_ints_fit _ _ Henc) as [_ ->]. unfold text_of.
  rewrite list_ascii_of_string_of_list_ascii. apply printable_dumps_value.
Qed.

Lemma encode_is_printable_ascii_witness :
  forallb printable
    (list_ascii_of_string
       (text_of (PDict (build sample_env (Hello "hugo" "sqs://fake/hugo"))))) = true.
Proof.
  apply (encode_is_printable_ascii
           (build sample_env (Hello "hugo" "sqs://fake/hugo"))).
  vm_compute. reflexivity.
Defined.

End WireFacts.

(** ** The builders of protocol.py *)

Section BuilderFacts.

Import Py json protocol.

Lemma firstn_fixed_digits (base : N) (w k : nat) :
  forall n, firstn w (fixed_digits base (w + k) n)
            = fixed_digits base w (n / base ^ N.of_nat k).
Proof.
  induction k as [| k IH]; intros n.
  - rewrite Nat.add_0_r, firstn_all2 by (rewrite length_fixed_digits; lia).
    change (base ^ N.of_nat 0)%N with 1%N. rewrite N.div_1_r. reflexivity.
  - rewrite Nat.add_succ_r. cbn [fixed_digits].
    rewrite firstn_app, length_fixed_digits.
    replace (w - (w + k))%nat with 0%nat by lia.
    cbn [firstn]. rewrite app_nil_r, IH.
    rewrite Nat2N.inj_succ, N.pow_succ_r', N.Div0.div_div. reflexivity.
Qed.

Lemma hex_char_injective (a b : N) :
  (a < 16)%N -> (b < 16)%N -> hex_char a = hex_char b -> a = b.
Proof.
  intros Ha Hb E. apply (f_equal N_of_ascii) in E. unfold hex_char in E.
  destruct (N.ltb_spec a 10), (N.ltb_spec b 10);
    rewrite !N_ascii_embedding in E by lia; lia.
Qed.

Lemma fixed_digits_hex_injective (w : nat) :
  forall n1 n2,
    fixed_digits 16 w n1 = fixed_digits 16 w n2
    <-> (n1 mod 16 ^ N.of_nat w = n2 mod 16 ^ N.of_nat w)%N.
Proof.
  induction w as [| w IH]; intros n1 n2.
  - cbn [fixed_digits]. change (16 ^ N.of_nat 0)%N with 1%N.
    rewrite !N.mod_1_r. tauto.
  - cbn [fixed_digits].
    rewrite Nat2N.inj_succ, N.pow_succ_r'.
    rewrite (N.Div0.mod_mul_r n1 16), (N.Div0.mod_mul_r n2 16).
    assert (n1 mod 16 < 16)%N as H1 by (apply N.mod_upper_bound; lia).
    assert (n2 mod 16 < 16)%N as H2 by (apply N.mod_upper_bound; lia).
    specialize (IH (n1 / 16)%N (n2 / 16)%N).
    revert H1 H2 IH.
    generalize (n1 mod 16)%N (n2 mod 16)%N
               ((n1 / 16) mod 16 ^ N.of_nat w)%N ((n2 / 16) mod 16 ^ N.of_nat w)%N.
    intros a1 a2 q1 q2 H1 H2 IH. split.
    + intros E. apply app_inj_tail in E as [E1 E2].
      apply IH in E1. apply hex_char_injective in E2; [| assumption | assumption].
      subst. reflexivity.
    + intros E. assert (a1 = a2) as -> by lia. assert (q1 = q2) as Eq by lia.
      apply IH in Eq. rewrite Eq. reflexivity.
Qed.

Lemma msg_id_digits (u : N) :
  str_prefix 8 (uuid.str u)
  = string_of_list_ascii (fixed_digits 16 8 (u / 2 ^ 96)).
Proof.
  unfold str_prefix, uuid.str. rewrite list_ascii_of_string_of_list_ascii.
  pose proof (length_fixed_digits 16 32 u) as Hlen.
  rewrite firstn_app, firstn_firstn, length_firstn. cbn [Nat.min].
  replace (Nat.min 8 (length (fixed_digits 16 32 u))) with 8%nat by lia.
  cbn [Nat.sub firstn]. rewrite app_nil_r.
  change 32%nat with (8 + 24)%nat. rewrite firstn_fixed_digits.
  reflexivity.
Qed.

Lemma string_of_list_ascii_injective (a b : text) :
  string_of_list_ascii a = string_of_list_ascii b -> a = b.
Proof.
  intros E. apply (f_equal list_ascii_of_string) in E.
  rewrite !list_ascii_of_string_of_list_ascii in E. exact E.
Qed.

(** X9: the [msg_id] of a message is made of 32 bits of the UUID
    drawn for it, the most significant ones: two messages, of any two
    builders, carry the same [msg_id] exactly when their UUIDs agree on
    these bits. *)
Theorem msg_id_holds_the_top_32_bits :
  forall (e1 e2 : env) (c1 c2 : call),
    dict_get (build e1 c1) "msg_id" = dict_get (build e2 c2) "msg_id"
    <-> ((uuid4 e1 / 2 ^ 96) mod 2 ^ 32 = (uuid4 e2 / 2 ^ 96) mod 2 ^ 32)%N.
Proof.
  intros e1 e2 c1 c2.
  assert (forall e c, dict_get (build e c) "msg_id"
                      = Some (PStr (str_prefix 8 (uuid.str (uuid4 e))))) as Hget
    by (intros e c; destruct c; reflexivity).
  rewrite !Hget, !msg_id_digits.
  change (2 ^ 32)%N with (16 ^ N.of_nat 8)%N.
  rewrite <- fixed_digits_hex_injective. split.
  - intros E. apply string_of_list_ascii_injective. congruence.
  - intros ->. reflexivity.
Qed.

Lemma pow10_pos (a : nat) : 0 < pow10 a.
Proof. unfold pow10. apply Z.pow_pos_nonneg; lia. Qed.

(** A fraction of the unit interval names a binary64 of the unit
    interval, no further than [2^-53] from it. *)
Lemma float_value_unit (m : Z) (k : nat) :
  0 <= m <= pow10 k ->
  (0 <= float_value m k /\ float_value m k <= 1)%Q.
Proof.
  intros Hm. unfold float_value, round_to_binary64. cbn [Qnum Qden].
  destruct m as [| n | n]; [split; discriminate | | lia].
  rewrite Z2Pos.id by apply pow10_pos.
  apply nearest_binary64_unit; lia.
Qed.

Lemma float_value_close (m : Z) (k : nat) :
  0 <= m <= pow10 k ->
  (Qabs (float_value m k - (m # Z.to_pos (pow10 k))) <= 1 # Z.to_pos (2 ^ 53))%Q.
Proof.
  intros Hm. unfold float_value, round_to_binary64. cbn [Qnum Qden].
  destruct m as [| n | n]; [discriminate | | lia].
  rewrite Z2Pos.id by apply pow10_pos.
  apply nearest_binary64_close; lia.
Qed.

(** [round_half_even] is within a half of the quotient. *)
Lemma round_half_even_close_Q (n : Z) (d : positive) (t : Z) :
  0 < t ->
  (Qabs ((round_half_even (n * t) (Z.pos d) # Z.to_pos t) - (n # d))
   <= 1 # Z.to_pos (2 * t))%Q.
Proof.
  intros Ht.
  pose proof (round_half_even_close (n * t) (Z.pos d) ltac:(lia)) as Hc.
  revert Hc. generalize (round_half_even (n * t) (Z.pos d)). intros r Hc.
  apply Qabs_Qle_condition. unfold Qle, Qminus, Qplus, Qopp. cbn [Qnum Qden].
  rewrite !Pos2Z.inj_mul, !Z2Pos.id by lia.
  split; nia.
Qed.

(** X10: [audit_result] stores a confidence between 0 and 1 as the
    binary64 that a number [r / 10^4] of four decimal places names: it
    is still between 0 and 1, and no further from the confidence given
    than half a unit of the fourth place and one rounding to binary64
    ([2^-53]). *)
Theorem audit_result_rounds_confidence :
  forall (e : env) (sender content_id : string) (agreed_count : Z)
         (m : Z) (k : nat) (voters : option (list string)),
    0 <= m <= pow10 k ->
    exists r,
      dict_get (audit_result e sender content_id agreed_count (FDec m k) voters)
        "confidence" = Some (PFloat (FDec r 4))
      /\ 0 <= r <= pow10 4
      /\ (0 <= float_value r 4 /\ float_value r 4 <= 1)%Q
      /\ (Qabs (float_value r 4 - float_value m k)
          <= (1 # 20000) + (1 # Z.to_pos (2 ^ 53)))%Q.
Proof.
  intros e sender content_id agreed_count m k voters Hm.
  unfold audit_result, round_ndigits.
  eexists. split; [reflexivity |].
  pose proof (float_value_unit m k Hm) as [Hlo Hhi].
  set (v := float_value m k) in *.
  assert (0 <= Qnum v <= Z.pos (Qden v)) as Hv.
  { unfold Qle in Hlo, Hhi. cbn [Qnum Qden] in Hlo, Hhi. lia. }
  assert (0 <= round_half_even (Qnum v * pow10 4) (Z.pos (Qden v)) <= pow10 4) as Hr.
  { apply round_half_even_range; [lia |].
    pose proof (pow10_pos 4). nia. }
  pose proof (round_half_even_close_Q (Qnum v) (Qden v) (pow10 4) (pow10_pos 4)) as Hc.
  revert Hr Hc. generalize (round_half_even (Qnum v * pow10 4) (Z.pos (Qden v))).
  intros r Hr Hc.
  split; [exact Hr |]. split; [apply float_value_unit, Hr |].
  pose proof (float_value_close r 4 Hr) as Hy.
  assert (float_value r 4 - v
          == (float_value r 4 - (r # Z.to_pos (pow10 4)))
             + ((r # Z.to_pos (pow10 4)) - (Qnum v # Qden v)))%Q as E.
  { destruct v as [vn vd]. cbn [Qnum Qden]. ring. }
  rewrite E. eapply Qle_trans; [apply Qabs_triangle |].
  rewrite Qplus_comm. apply Qplus_le_compat; [exact Hc | exact Hy].
Qed.

Lemma audit_result_rounds_confidence_witness :
  exists r,
    dict_get (audit_result sample_env "hugo" "video-42" 150 (FDec 3125 5) None)
      "confidence" = Some (PFloat (FDec r 4))
    /\ 0 <= r <= pow10 4
    /\ (0 <= float_value r 4 /\ float_value r 4 <= 1)%Q
    /\ (Qabs (float_value r 4 - float_value 3125 5)
        <= (1 # 20000) + (1 # Z.to_pos (2 ^ 53)))%Q.
Proof.
  apply (audit_result_rounds_confidence sample_env "hugo" "video-42" 150 3125 5 None).
  vm_compute. split; discriminate.
Defined.

(** The confidence 0.03125, a binary64 halfway between 0.0312 and
    0.0313, is stored as the binary64 of 0.0312, which lies further
    from it than half a unit of the fourth place. *)
Example audit_result_rounds_a_tie :
  dict_get (audit_result sample_env "hugo" "video-42" 150 (FDec 3125 5) None)
    "confidence" = Some (PFloat (FDec 312 4))
  /\ (1 # 20000 < Qabs (float_value 312 4 - float_value 3125 5))%Q.
Proof. split; vm_compute; reflexivity. Qed.

End BuilderFacts.

(** ** config.py and the transport of node.py *)

Section TransportFacts.

Import Py protocol SQSTransport.

Lemma append_injective_l (p a b : string) : (p ++ a = p ++ b)%string -> a = b.
Proof.
  induction p as [| c p IH]; cbn; intros E; [exact E |].
  injection E as E. apply IH, E.
Qed.

Lemma list_ascii_of_string_append (a b : string) :
  list_ascii_of_string (a ++ b) = list_ascii_of_string a ++ list_ascii_of_string b.
Proof. induction a as [| c a IH]; simpl; [reflexivity | rewrite IH; reflexivity]. Qed.

Lemma append_injective_r (s a b : string) : (a ++ s = b ++ s)%string -> a = b.
Proof.
  intros E. apply (f_equal list_ascii_of_string) in E.
  rewrite !list_ascii_of_string_append in E. apply app_inv_tail in E.
  apply (f_equal string_of_list_ascii) in E.
  rewrite !string_of_list_ascii_of_string in E. exact E.
Qed.

(** X11: two nodes never share a queue: [node_queue_name] gives
    different node ids different queue names. *)
Theorem node_queue_name_is_injective :
  forall a b : string,
    a <> b -> config.node_queue_name a <> config.node_queue_name b.
Proof.
  intros a b Hab E. apply Hab. unfold config.node_queue_name in E.
  apply append_injective_l, append_injective_l in E.
  apply append_injective_r in E. exact E.
Qed.

Lemma node_queue_name_is_injective_witness :
  config.node_queue_name "sam" <> config.node_queue_name "sam-p2p".
Proof.
  apply (node_queue_name_is_injective "sam" "sam-p2p"). discriminate.
Defined.

(** *** The cache of queue URLs *)

Lemma get_queue_url_cached (svc : service) (cache : gmap string string)
    (node_id url : string) :
  value_of (get_queue_url svc cache node_id) = Some url ->
  cache_of (get_queue_url svc cache node_id) !! node_id = Some url.
Proof.
  unfold get_queue_url.
  destruct (cache !! node_id) as [u |] eqn:Hc.
  - cbn. intros [= ->]. exact Hc.
  - destruct (sqs_get_queue_url svc (config.node_queue_name node_id)) as [u |].
    + cbn. intros [= ->]. apply lookup_insert_eq.
    + cbn. discriminate.
Qed.

(** X12: a queue URL is resolved once: after [get_queue_url] has
    returned a URL for a node, asking again returns the same URL from
    the cache, with no call to the service, whatever the service would
    answer by then. *)
Theorem get_queue_url_resolves_once :
  forall (svc svc' : service) (cache : gmap string string) (node_id url : string),
    value_of (get_queue_url svc cache node_id) = Some url ->
    get_queue_url svc' (cache_of (get_queue_url svc cache node_id)) node_id
    = mk_answer (Some url) (cache_of (get_queue_url svc cache node_id)) [].
Proof.
  intros svc svc' cache node_id url Hurl.
  apply get_queue_url_cached in Hurl.
  unfold get_queue_url at 1. rewrite Hurl. reflexivity.
Qed.

Lemma get_queue_url_resolves_once_witness :
  get_queue_url failing_service
    (cache_of (get_queue_url sample_service ∅ "sam")) "sam"
  = mk_answer
      (Some "https://sqs.us-east-1.amazonaws.com/194722398367/ds2032-node-sam-p2p")
      (cache_of (get_queue_url sample_service ∅ "sam")) [].
Proof.
  apply (get_queue_url_resolves_once sample_service failing_service ∅ "sam").
  reflexivity.
Defined.

Lemma get_queue_url_cache (svc : service) (cache : gmap string string)
    (node_id : string) :
  cache ⊆ cache_of (get_queue_url svc cache node_id).
Proof.
  unfold get_queue_url.
  destruct (cache !! node_id) as [u |] eqn:Hc; [reflexivity |].
  destruct (sqs_get_queue_url svc (config.node_queue_name node_id)) as [u |];
    [| reflexivity].
  cbn. apply insert_subseteq, Hc.
Qed.

(** X13: no method of the transport forgets or changes a queue URL
    it holds: every entry of the cache is still there, with the same
    URL, after [get_queue_url], [send], [receive] and [delete]. *)
Theorem transport_keeps_cached_urls :
  forall (svc : service) (cache : gmap string string) (node_id : string)
         (msg : dict) (receipt_handle : string) (max_messages wait_seconds : Z),
    cache ⊆ cache_of (get_queue_url svc cache node_id)
    /\ cache ⊆ cache_of (send svc cache node_id msg)
    /\ cache ⊆ cache_of (poll svc cache node_id max_messages wait_seconds)
    /\ cache ⊆ cache_of (delete svc cache node_id receipt_handle).
Proof.
  intros svc cache node_id msg receipt_handle max_messages wait_seconds.
  pose proof (get_queue_url_cache svc cache node_id) as H.
  unfold send, poll, delete.
  destruct (usable (value_of (get_queue_url svc cache node_id)));
    [destruct (encode msg) |]; cbn; auto.
Qed.

(** X14: an empty URL in the cache cuts a node off for good: [send]
    to it returns [False], [receive] and [delete] for it do nothing, no
    call goes to the service, and the cache stays as it is. *)
Theorem empty_cached_url_blocks_the_node :
  forall (svc : service) (cache : gmap string string) (node_id : string)
         (msg : dict) (receipt_handle : string) (max_messages wait_seconds : Z),
    cache !! node_id = Some "" ->
    send svc cache node_id msg = mk_answer (Ok false) cache []
    /\ poll svc cache node_id max_messages wait_seconds = mk_answer NoQueueUrl cache []
    /\ receive (value_of (poll svc cache node_id max_messages wait_seconds)) = Ok []
    /\ delete svc cache node_id receipt_handle = mk_answer tt cache [].
Proof.
  intros svc cache node_id msg receipt_handle max_messages wait_seconds Hc.
  unfold send, poll, delete, get_queue_url. rewrite Hc. cbn. auto.
Qed.

Lemma empty_cached_url_blocks_the_node_witness :
  send sample_service {[ "sam" := "" ]} "sam" [("type", PStr PING)]
  = mk_answer (Ok false) {[ "sam" := "" ]} []
  /\ poll sample_service {[ "sam" := "" ]} "sam" 10 5
     = mk_answer NoQueueUrl {[ "sam" := "" ]} []
  /\ receive (value_of (poll sample_service {[ "sam" := "" ]} "sam" 10 5)) = Ok []
  /\ delete sample_service {[ "sam" := "" ]} "sam" "r-1"
     = mk_answer tt {[ "sam" := "" ]} [].
Proof.
  apply (empty_cached_url_blocks_the_node sample_service {[ "sam" := "" ]} "sam"
           [("type", PStr PING)] "r-1" 10 5).
  apply lookup_singleton_eq.
Defined.

(** X15: when [send] returns [True], the last call to the service
    was [send_message] on a URL that is not empty and is the cached one
    of the target, with a body from which [decode] gets the message
    back. *)
Theorem send_hands_over_the_message :
  forall (svc : service) (cache : gmap string string) (target : string) (msg : dict),
    keys_unique (PDict msg) = true ->
    value_of (send svc cache target msg) = Ok true ->
    exists url body earlier,
      calls_of (send svc cache target msg) = earlier ++ [SendMessage url body]
      /\ url <> ""
      /\ cache_of (send svc cache target msg) !! target = Some url
      /\ decode body = Ok (PDict (norm_dict msg)).
Proof.
  intros svc cache target msg Hkeys. unfold send.
  pose proof (get_queue_url_cached svc cache target) as Hcached.
  destruct (get_queue_url svc cache target) as [url cache' calls] eqn:Ha.
  cbn [value_of cache_of calls_of] in *.
  destruct url as [u |]; cbn [usable]; [| discriminate].
  destruct (String.eqb_spec u "") as [E | E]; [discriminate |].
  destruct (encode msg) as [body | e] eqn:Henc; [| discriminate].
  cbn. intros _. exists u, body, calls.
  split; [reflexivity |]. split; [exact E |]. split.
  - apply Hcached. reflexivity.
  - unfold decode. apply (loads_dumps _ _ Hkeys Henc).
Qed.

Lemma send_hands_over_the_message_witness :
  exists url body earlier,
    calls_of (send sample_service ∅ "sam" (build sample_env (Ping "hugo" 7)))
    = earlier ++ [SendMessage url body]
    /\ url <> ""
    /\ cache_of (send sample_service ∅ "sam" (build sample_env (Ping "hugo" 7)))
         !! "sam" = Some url
    /\ decode body = Ok (PDict (norm_dict (build sample_env (Ping "hugo" 7)))).
Proof.
  apply (send_hands_over_the_message sample_service ∅ "sam"
           (build sample_env (Ping "hugo" 7)));
    reflexivity.
Defined.

(** *** [receive] *)

Lemma dict_get_dict_set (d : dict) (k : string) (v : value) :
  dict_get (dict_set d k v) k = Some v.
Proof.
  induction d as [| [k0 w] d IH]; cbn.
  - rewrite String.eqb_refl. reflexivity.
  - destruct (String.eqb k0 k) eqn:E; cbn; rewrite E; [reflexivity | exact IH].
Qed.

(** X16: [receive] returns one message for each entry of the batch,
    in the order of the batch, and each message carries the receipt
    handle of its entry under [_receipt_handle], whatever its body said
    under that key. *)
Theorem receive_keeps_order_and_handles :
  forall (batch : list (string * string)) (messages : list dict),
    receive (Messages batch) = Ok messages ->
    map (fun msg => dict_get msg "_receipt_handle") messages
    = map (fun entry => Some (PStr (snd entry))) batch.
Proof.
  cbn [receive].
  induction batch as [| [body handle] batch IH]; intros messages; cbn [decode_batch].
  - intros [= <-]. reflexivity.
  - destruct (decode body) as [[ | | | | | | msg] | e]; try discriminate.
    destruct (decode_batch batch) as [rest | e]; [| discriminate].
    intros [= <-]. cbn [map snd]. rewrite dict_get_dict_set, (IH rest eq_refl).
    reflexivity.
Qed.

Lemma receive_keeps_order_and_handles_witness :
  map (fun msg => dict_get msg "_receipt_handle")
      [[("_receipt_handle", PStr "r-1")]; [("seq", PInt 1); ("_receipt_handle", PStr "r-2")]]
  = map (fun entry => Some (PStr (snd entry)))
        [(json.text_of (PDict [("_receipt_handle", PStr "mine")]), "r-1");
         (json.text_of (PDict [("seq", PInt 1)]), "r-2")].
Proof.
  apply (receive_keeps_order_and_handles
           [(json.text_of (PDict [("_receipt_handle", PStr "mine")]), "r-1");
            (json.text_of (PDict [("seq", PInt 1)]), "r-2")]).
  vm_compute. reflexivity.
Defined.

(** X17: one bad body spoils the batch: when a body of the batch is
    not the text of a JSON object, [receive] raises and returns none of
    the messages, the well-formed ones before it included.  (For bodies
    without a [\u] escape, which are read here as [json.loads] reads
    them.) *)
Theorem receive_raises_on_a_bad_body :
  forall batch : list (string * string),
    forallb (fun entry => no_u_escape (list_ascii_of_string (fst entry))) batch = true ->
    existsb (fun entry => negb (is_object (fst entry))) batch = true ->
    raises (receive (Messages batch)).
Proof.
  cbn [receive]. unfold is_object. intros batch _. revert batch.
  induction batch as [| [body handle] batch IH]; cbn [existsb decode_batch fst].
  - discriminate.
  - destruct (decode body) as [[ | | | | | | msg] | e]; cbn [negb orb];
      try (intros _; eexists; reflexivity).
    intros H. destruct (IH H) as [e ->]. eexists. reflexivity.
Qed.

Lemma receive_raises_on_a_bad_body_witness :
  raises (receive (Messages [(json.text_of (PDict [("seq", PInt 1)]), "r-1");
                             ("[1, 2]", "r-2")])).
Proof.
  apply (receive_raises_on_a_bad_body
           [(json.text_of (PDict [("seq", PInt 1)]), "r-1"); ("[1, 2]", "r-2")]);
    vm_compute; reflexivity.
Defined.



End TransportFacts.

(** ** The dispatcher and the main loop of node.py *)

Section LoopFacts.

Import Py P2PNode.

Lemma calls_in_app (a b : list event) : calls_in (a ++ b) = calls_in a ++ calls_in b.
Proof. apply flat_map_app. Qed.

Lemma returns_in_app (a b : list event) :
  returns_in (a ++ b) = returns_in a ++ returns_in b.
Proof. apply flat_map_app. Qed.

Lemma deleted_in_app (a b : list event) :
  deleted_in (a ++ b) = deleted_in a ++ deleted_in b.
Proof. apply flat_map_app. Qed.

Lemma invoked_in_app (a b : list event) :
  invoked_in (a ++ b) = invoked_in a ++ invoked_in b.
Proof. apply flat_map_app. Qed.

Lemma calls_in_effects (xs : list effect) : calls_in (map Effect xs) = [].
Proof. induction xs as [| x xs IH]; [reflexivity | exact IH]. Qed.

Lemma returns_in_effects (xs : list effect) : returns_in (map Effect xs) = [].
Proof. induction xs as [| x xs IH]; [reflexivity | exact IH]. Qed.

Lemma deleted_in_effects (xs : list effect) : deleted_in (map Effect xs) = [].
Proof. induction xs as [| x xs IH]; [reflexivity | exact IH]. Qed.

Lemma receipts_app (a b : list dict) : receipts (a ++ b) = receipts a ++ receipts b.
Proof. unfold receipts. rewrite map_app, List.filter_app. reflexivity. Qed.

(** The trace of one message of the batch that was handled, seen
    through the four projections. *)
Lemma handled_message_trace (msg msg' : dict) (xs : list effect) (id : string)
    (tr : list event) :
  let acks := if truthy (receipt_of msg') then [Deleted id (receipt_of msg')] else [] in
  let whole := Call msg :: map Effect xs ++ Return msg' :: acks ++ tr in
  calls_in whole = msg :: calls_in tr
  /\ returns_in whole = msg' :: returns_in tr
  /\ deleted_in whole = receipts [msg'] ++ deleted_in tr
  /\ invoked_in whole = invoked_in (map Effect xs) ++ invoked_in tr.
Proof.
  cbv zeta.
  change (Call msg :: map Effect xs ++ Return msg' ::
            (if truthy (receipt_of msg') then [Deleted id (receipt_of msg')] else [])
            ++ tr)
    with ([Call msg] ++ map Effect xs ++ [Return msg'] ++
            (if truthy (receipt_of msg') then [Deleted id (receipt_of msg')] else [])
            ++ tr).
  rewrite !calls_in_app, !returns_in_app, !deleted_in_app, !invoked_in_app.
  rewrite calls_in_effects, returns_in_effects, deleted_in_effects.
  unfold receipts. cbn [map List.filter].
  destruct (truthy (receipt_of msg')); repeat split; reflexivity.
Qed.

(** *** Messages in arrival order *)

(** X19: the messages of a batch are handled in the order of their
    arrival, each once and none skipped: the calls of [handle_message]
    are a front part of the batch.  When the loop over the batch ends
    normally it is the whole batch and every call has returned; when it
    raises, every call but the last one has. *)
Theorem messages_are_handled_in_arrival_order :
  forall (out : console) (H : handlers) (format_msg : dict -> result string)
         (messages : list dict) (self : P2PNode.t),
    let o := process_messages out H format_msg messages self in
    exists rest,
      messages = calls_in (effects o) ++ rest
      /\ match returned o with
         | Ok _ =>
             rest = []
             /\ length (returns_in (effects o)) = length (calls_in (effects o))
         | Raise _ =>
             length (calls_in (effects o)) = S (length (returns_in (effects o)))
         end.
Proof.
  intros out H format_msg messages. cbv zeta.
  induction messages as [| msg rest IH]; intros self.
  - exists []. repeat split; reflexivity.
  - rewrite process_messages_cons. cbv zeta.
    destruct (returned (handle_message out H format_msg msg self)) as [msg' | e].
    + destruct (IH (state (handle_message out H format_msg msg self))) as (tl & E & Hend).
      exists tl. cbn [effects returned].
      destruct (handled_message_trace msg msg'
                  (effects (handle_message out H format_msg msg self))
                  (node_id (state (handle_message out H format_msg msg self)))
                  (effects (process_messages out H format_msg rest
                              (state (handle_message out H format_msg msg self)))))
        as (-> & -> & _ & _).
      split; [cbn [app]; rewrite <- E; reflexivity |].
      destruct (returned (process_messages out H format_msg rest
                            (state (handle_message out H format_msg msg self))));
        cbn [length]; [destruct Hend as [-> ->]; split; reflexivity |].
      rewrite Hend. reflexivity.
    + exists rest. cbn [effects returned].
      change (Call msg :: map Effect (effects (handle_message out H format_msg msg self)))
        with ([Call msg] ++ map Effect (effects (handle_message out H format_msg msg self))).
      rewrite calls_in_app, returns_in_app, calls_in_effects, returns_in_effects.
      split; reflexivity.
Qed.

(** *** Every returned message is acknowledged *)

Lemma acknowledging_ret {A : Type} (a : A) : acknowledging (ret a).
Proof. intros self. reflexivity. Qed.

Lemma acknowledging_throw {A : Type} (e : exn) : acknowledging (@throw event A e).
Proof. intros self. reflexivity. Qed.

Lemma acknowledging_update (f : P2PNode.t -> P2PNode.t) : acknowledging (update f).
Proof. intros self. reflexivity. Qed.

Lemma acknowledging_read {A : Type} (f : P2PNode.t -> A) : acknowledging (read f).
Proof. intros self. reflexivity. Qed.

Lemma acknowledging_from_result {A : Type} (r : result A) :
  acknowledging (from_result r).
Proof. intros self. destruct r; reflexivity. Qed.

Lemma acknowledging_lift {A : Type} (c : M effect A) : acknowledging (lift c).
Proof.
  intros self. unfold lift. cbn [effects].
  rewrite deleted_in_effects, returns_in_effects. reflexivity.
Qed.

Lemma acknowledging_bind {A B : Type} (c : M event A) (k : A -> M event B) :
  acknowledging c -> (forall a, acknowledging (k a)) -> acknowledging (bind c k).
Proof.
  intros Hc Hk self. unfold bind. specialize (Hc self).
  destruct (returned (c self)) as [a | e]; cbn [effects]; [| exact Hc].
  rewrite deleted_in_app, returns_in_app, receipts_app, Hc, (Hk a).
  reflexivity.
Qed.

End LoopFacts.

Section RunLemmas.

Import Py P2PNode.

Variable out : console.
Variable H : handlers.
Variable T : tasks.
Variable format_msg : dict -> result string.
Variable age_entries : GossipNode.t -> result GossipNode.t.

Lemma acknowledging_process_messages (messages : list dict) :
  acknowledging (process_messages out H format_msg messages).
Proof.
  induction messages as [| msg rest IH]; intros self.
  - reflexivity.
  - rewrite process_messages_cons. cbv zeta.
    destruct (returned (handle_message out H format_msg msg self)) as [msg' | e].
    + cbn [effects].
      destruct (handled_message_trace msg msg'
                  (effects (handle_message out H format_msg msg self))
                  (node_id (state (handle_message out H format_msg msg self)))
                  (effects (process_messages out H format_msg rest
                              (state (handle_message out H format_msg msg self)))))
        as (_ & -> & -> & _).
      rewrite IH. symmetry. apply (receipts_app [msg']).
    + cbn [effects].
      change (Call msg :: map Effect (effects (handle_message out H format_msg msg self)))
        with ([Call msg] ++ map Effect (effects (handle_message out H format_msg msg self))).
      rewrite deleted_in_app, returns_in_app, deleted_in_effects, returns_in_effects.
      reflexivity.
Qed.

Lemma acknowledging_run_round (i : round_input) :
  acknowledging (run_round out H T format_msg age_entries i).
Proof.
  unfold run_round.
  repeat (apply acknowledging_bind; [| intros ?]);
    auto using acknowledging_update, acknowledging_from_result,
      acknowledging_process_messages, acknowledging_lift, acknowledging_read.
Qed.

Lemma acknowledging_run_loop (inputs : list round_input) :
  acknowledging (run_loop out H T format_msg age_entries inputs).
Proof.
  induction inputs as [| i rest IH].
  - apply acknowledging_ret.
  - intros self. cbn [run_loop]. destruct (running self).
    + apply (acknowledging_bind (run_round out H T format_msg age_entries i)
               (fun _ => run_loop out H T format_msg age_entries rest));
        [apply acknowledging_run_round | intros _; exact IH].
    + apply acknowledging_lift.
Qed.

(** *** Messages that reach no handler *)

Lemma node_id_count_received (self : P2PNode.t) :
  node_id (count_received self) = node_id self.
Proof. reflexivity. Qed.

Lemma handle_message_passes_by (self : P2PNode.t) (msg : dict) :
  passes_by out (node_id self) msg ->
  returned (handle_message out H format_msg msg self) = Ok msg
  /\ node_id (state (handle_message out H format_msg msg self)) = node_id self
  /\ invoked_in (map Effect (effects (handle_message out H format_msg msg self))) = [].
Proof.
  intros [Hself | (Hother & Htype & Hout)].
  - unfold handle_message. rewrite Hself. repeat split; reflexivity.
  - rewrite (handle_message_unknown_type out H format_msg self msg Hother Htype Hout).
    repeat split; reflexivity.
Qed.

End RunLemmas.

Section RunFacts.

Import Py P2PNode.

(** X20: in a run of the main loop, every message on which
    [handle_message] returned and that still carries a receipt handle
    (a truthy one) is deleted from the queue: the receipts given to
    [transport.delete] are exactly those of the returned messages, in
    the same order. *)
Theorem returned_messages_are_acknowledged :
  forall (out : console) (H : handlers) (T : tasks)
         (format_msg : dict -> result string)
         (age_entries : GossipNode.t -> result GossipNode.t)
         (inputs : list round_input) (self : P2PNode.t),
    let o := run out H T format_msg age_entries inputs self in
    deleted_in (effects o) = receipts (returns_in (effects o)).
Proof.
  intros out H T format_msg age_entries inputs self. cbv zeta. revert self.
  change (acknowledging (run out H T format_msg age_entries inputs)).
  unfold run.
  repeat (apply acknowledging_bind; [| intros ?]);
    auto using acknowledging_update, acknowledging_lift, acknowledging_read,
      acknowledging_run_loop.
Qed.

(** X21: echoes and messages of unknown types are drained from the
    queue without reaching a handler: on a batch of messages that are
    each from the node itself or of a type that is none of the eight
    (one whose log line the stream takes), the loop over the batch
    returns, starts no handler, and deletes every message that has a
    receipt handle. *)
Theorem stray_messages_are_drained :
  forall (out : console) (H : handlers) (format_msg : dict -> result string)
         (messages : list dict) (self : P2PNode.t),
    Forall (passes_by out (node_id self)) messages ->
    let o := process_messages out H format_msg messages self in
    returned o = Ok tt
    /\ invoked_in (effects o) = []
    /\ deleted_in (effects o) = receipts messages.
Proof.
  intros out H format_msg messages. cbv zeta.
  induction messages as [| msg rest IH]; intros self Hall.
  - repeat split; reflexivity.
  - apply Forall_cons_iff in Hall as [Hmsg Hrest].
    rewrite process_messages_cons. cbv zeta.
    destruct (handle_message_passes_by out H format_msg self msg Hmsg) as (Hret & Hid & Hinv).
    rewrite Hret. cbn [returned effects].
    rewrite <- Hid in Hrest.
    destruct (IH _ Hrest) as (IHret & IHinv & IHdel).
    destruct (handled_message_trace msg msg
                (effects (handle_message out H format_msg msg self))
                (node_id (state (handle_message out H format_msg msg self)))
                (effects (process_messages out H format_msg rest
                            (state (handle_message out H format_msg msg self)))))
      as (_ & _ & -> & ->).
    rewrite Hinv, IHinv, IHdel.
    repeat split; [exact IHret | symmetry; apply (receipts_app [msg])].
Qed.

End RunFacts.

Section ShellFacts.

Import Py P2PNode.

Lemma stray_messages_are_drained_witness :
  let o := process_messages open_console shell_handlers (fun _ => Ok "")
             sample_stray sample_node in
  returned o = Ok tt
  /\ invoked_in (effects o) = []
  /\ deleted_in (effects o) = receipts sample_stray.
Proof.
  apply (stray_messages_are_drained open_console shell_handlers (fun _ => Ok "")
           sample_stray sample_node).
  constructor; [| constructor; [| constructor]].
  - right. split; [reflexivity |]. split; [| reflexivity].
    cbn. intuition discriminate.
  - left. reflexivity.
Defined.

Lemma handlers_get_shell (msg_type : string) :
  In msg_type protocol.ALL_TYPES ->
  exists name,
    handler_name msg_type = Some name
    /\ handlers_get shell_handlers (PStr msg_type)
       = Ok (Some (name, fun _ => not_implemented)).
Proof.
  intros Hknown. cbn in Hknown.
  destruct Hknown as [<- | [<- | [<- | [<- | [<- | [<- | [<- | [<- | []]]]]]]]];
    eexists; split; reflexivity.
Qed.

(** X22: node.py as it stands stops at the first message that means
    something: on a message of one of the eight types from another node
    (and, when verbose, one that [format_msg] can print and whose log
    line the stream takes), [handle_message] counts the message, starts
    the handler of its type, and the handler raises
    [NotImplementedError]. *)
Theorem shell_handlers_raise_on_known_types :
  forall (out : console) (format_msg : dict -> result string) (self : P2PNode.t)
         (msg : dict) (msg_type : string),
    dict_get msg "type" = Some (PStr msg_type) ->
    In msg_type protocol.ALL_TYPES ->
    py_eq (dict_get_default msg "sender" (PStr "?")) (PStr (node_id self)) = false ->
    (verbose self = false
     \/ exists line,
          format_msg msg = Ok line
          /\ out [Lit "["; Fmt (PStr (node_id self)); Lit "] ";
                  Lit "<- "; Lit line] = None) ->
    let o := handle_message out shell_handlers format_msg msg self in
    returned o = Raise NotImplementedError
    /\ state o = count_received self
    /\ exists earlier name,
         handler_name msg_type = Some name
         /\ effects o = earlier ++ [Invoked name].
Proof.
  intros out format_msg self msg msg_type Htype Hknown Hsender Hprint. cbv zeta.
  unfold handle_message, dict_get_default. rewrite Htype.
  unfold dict_get_default in Hsender. rewrite Hsender.
  destruct (handlers_get_shell msg_type Hknown) as (name & Hname & ->).
  unfold bind, update, from_result, ret, read, emit, _log, not_implemented, throw.
  cbn [returned state effects].
  change (verbose (count_received self)) with (verbose self).
  destruct (verbose self).
  - destruct Hprint as [Hv | (line & -> & Hout)]; [discriminate |].
    cbn [returned state effects].
    change (node_id (count_received self)) with (node_id self). rewrite Hout.
    unfold emit. cbn [returned state effects app]. repeat split.
    exists [Logged [Lit "<- "; Lit line]], name. split; [exact Hname | reflexivity].
  - cbn [returned state effects app]. repeat split.
    exists [], name. split; [exact Hname | reflexivity].
Qed.

Lemma shell_handlers_raise_on_known_types_witness :
  let o := handle_message open_console shell_handlers (fun _ => Ok "")
             sample_ping (with_verbose sample_node) in
  returned o = Raise NotImplementedError
  /\ state o = count_received (with_verbose sample_node)
  /\ exists earlier name,
       handler_name "PING" = Some name
       /\ effects o = earlier ++ [Invoked name].
Proof.
  apply (shell_handlers_raise_on_known_types open_console (fun _ => Ok "")
           (with_verbose sample_node) sample_ping "PING").
  - reflexivity.
  - cbn. tauto.
  - reflexivity.
  - right. exists "". split; reflexivity.
Defined.

Lemma raises_bind {E A B : Type} (c : M E A) (k : A -> M E B) (self : P2PNode.t) :
  (forall a s, raises (returned (k a s))) -> raises (returned (bind c k self)).
Proof.
  intros Hk. unfold bind.
  destruct (returned (c self)) as [a | e]; cbn [returned].
  - apply Hk.
  - exists e. reflexivity.
Qed.

Lemma raises_bind_first {E A B : Type} (c : M E A) (k : A -> M E B)
    (self : P2PNode.t) :
  raises (returned (c self)) -> raises (returned (bind c k self)).
Proof.
  intros [e He]. unfold bind. rewrite He. exists e. reflexivity.
Qed.

Lemma run_round_raises (out : console) (H : handlers) (T : tasks)
    (format_msg : dict -> result string) (i : round_input) (self : P2PNode.t) :
  raises (returned (run_round out H T format_msg stub_age_entries i self)).
Proof.
  unfold run_round.
  do 5 (apply raises_bind; intros ? ?).
  apply raises_bind_first. exists NotImplementedError. reflexivity.
Qed.

(** X23: with [age_entries] the stub that algorithms/gossip.py has,
    [run] never completes a turn of its loop: whatever the handlers, the
    periodic tasks and the queue do, the first turn raises (at the call
    of [age_entries] when nothing raised before it). *)
Theorem run_raises_in_its_first_turn :
  forall (out : console) (H : handlers) (T : tasks)
         (format_msg : dict -> result string)
         (i : round_input) (rest : list round_input) (self : P2PNode.t),
    raises (returned (run out H T format_msg stub_age_entries (i :: rest) self)).
Proof.
  intros out H T format_msg i rest self.
  unfold run, bind at 1 2 3 4, lift, _log, print.
  cbn [update returned state effects with_running node_id].
  destruct (out _) as [e |].
  - exists e. reflexivity.
  - cbn [emit read returned state effects].
    destruct (out _) as [e |].
    + exists e. reflexivity.
    + cbn [emit returned state effects run_loop with_running running].
      apply raises_bind_first, run_round_raises.
Qed.

End ShellFacts.

Section PeriodicFacts.

Import Py P2PNode.

Lemma Qle_bool_false (a b : Q) : (a < b)%Q -> Qle_bool b a = false.
Proof.
  intros Hlt. destruct (Qle_bool b a) eqn:E; [| reflexivity].
  apply Qle_bool_iff in E. exfalso. exact (Qlt_not_le _ _ Hlt E).
Qed.

(** When the float nearest to a difference is below an interval that
    is a float, so is the difference. *)
Lemma below_interval (x interval : Q) :
  (round_to_binary64 interval == interval)%Q ->
  (round_to_binary64 x < interval)%Q ->
  Qle_bool interval x = false.
Proof.
  intros Hfloat Hlt.
  destruct (Qle_bool interval x) eqn:E; [| reflexivity].
  apply Qle_bool_iff in E. apply round_to_binary64_monotone in E.
  rewrite Hfloat in E. exfalso. exact (Qlt_not_le _ _ Hlt E).
Qed.

(** X24: a periodic task waits for its interval: when, for each of
    the four timers, the time since the task last ran, as the
    subtraction of the two floats gives it (the binary64 nearest to the
    difference), is less than the interval, a float,
    [_run_periodic_tasks] runs no task and leaves the node, its four
    time stamps included, as it is. *)
Theorem periodic_tasks_wait_for_their_interval :
  forall (T : tasks) (now : Q) (self : P2PNode.t),
    (round_to_binary64 (gossip_interval self) == gossip_interval self)%Q ->
    (round_to_binary64 (heartbeat_interval self) == heartbeat_interval self)%Q ->
    (round_to_binary64 (choking_interval self) == choking_interval self)%Q ->
    (round_to_binary64 (reputation_interval self) == reputation_interval self)%Q ->
    (round_to_binary64 (now - _last_gossip self) < gossip_interval self)%Q ->
    (round_to_binary64 (now - _last_heartbeat self) < heartbeat_interval self)%Q ->
    (round_to_binary64 (now - _last_choking self) < choking_interval self)%Q ->
    (round_to_binary64 (now - _last_reputation self) < reputation_interval self)%Q ->
    _run_periodic_tasks T now self = mk_outcome (Ok tt) self [].
Proof.
  intros T now self Fg Fh Fc Fr Hg Hh Hc Hr.
  apply (below_interval _ _ Fg) in Hg. apply (below_interval _ _ Fh) in Hh.
  apply (below_interval _ _ Fc) in Hc. apply (below_interval _ _ Fr) in Hr.
  unfold _run_periodic_tasks, bind, when_due.
  rewrite Hg. cbn [ret returned state effects].
  rewrite Hh. cbn [ret returned state effects].
  rewrite Hc. cbn [ret returned state effects].
  rewrite Hr. reflexivity.
Qed.

Lemma periodic_tasks_wait_for_their_interval_witness :
  _run_periodic_tasks shell_tasks (99 # 10) sample_node
  = mk_outcome (Ok tt) sample_node [].
Proof.
  apply (periodic_tasks_wait_for_their_interval shell_tasks (99 # 10) sample_node);
    vm_compute; reflexivity.
Defined.

(** Where the subtraction rounds: with a time stamp of 0.1 and a clock
    at 15.1 (the binary64 nearest to each), less than the 15 seconds of
    the gossip interval have passed, and the float the subtraction
    gives is 15: the task is due. *)
Example subtraction_rounds_up_to_the_interval :
  let last := float_value 1 1 in
  let now := float_value 151 1 in
  (now - last < 15)%Q /\ (round_to_binary64 (now - last) == 15)%Q.
Proof. split; vm_compute; reflexivity. Qed.

Lemma Qle_bool_since_zero (a x : Q) : Qle_bool a (x - 0) = Qle_bool a x.
Proof.
  apply Bool.eq_true_iff_eq. rewrite !Qle_bool_iff.
  assert (x - 0 == x)%Q as -> by ring. tauto.
Qed.

Lemma Qle_bool_weaken (a b x : Q) :
  (a <= b)%Q -> Qle_bool a x = false -> Qle_bool b x = false.
Proof.
  intros Hab Ha. destruct (Qle_bool b x) eqn:E; [| reflexivity].
  apply Qle_bool_iff in E. rewrite <- Ha. symmetry. apply Qle_bool_iff.
  exact (Qle_trans _ _ _ Hab E).
Qed.

(** X25: on a node fresh from [__init__], whose time stamps are all
    zero, with the periodic tasks node.py has: [_run_periodic_tasks]
    raises [NotImplementedError] as soon as the clock reads 10 seconds
    or more (the shortest interval, that of the heartbeat), and returns
    before that; either way it leaves the node as it is. *)
Theorem fresh_node_periodic_tasks :
  forall (node_id : string) (verbose : bool) (hb : HeartbeatNode.t) (now : Q),
    let self := fresh node_id verbose hb in
    _run_periodic_tasks shell_tasks now self
    = mk_outcome (if Qle_bool 10 now then Raise NotImplementedError else Ok tt)
                 self [].
Proof.
  intros id v hb now. cbv zeta.
  unfold _run_periodic_tasks, bind, when_due.
  cbn [fresh gossip_interval _last_gossip].
  rewrite Qle_bool_since_zero.
  destruct (Qle_bool 15 now) eqn:E15.
  - assert (Qle_bool 10 now = true) as ->.
    { apply Qle_bool_iff. apply Qle_bool_iff in E15.
      apply (Qle_trans _ 15); [discriminate | exact E15]. }
    reflexivity.
  - cbn [ret returned state effects fresh heartbeat_interval _last_heartbeat].
    rewrite Qle_bool_since_zero.
    destruct (Qle_bool 10 now) eqn:E10; [reflexivity |].
    assert (Qle_bool 30 now = false) as E30
      by (apply (Qle_bool_weaken 10 30 now); [discriminate | exact E10]).
    cbn [ret returned state effects fresh choking_interval _last_choking].
    rewrite Qle_bool_since_zero, E30.
    cbn [ret returned state effects fresh reputation_interval _last_reputation].
    rewrite Qle_bool_since_zero, E30.
    reflexivity.
Qed.

End PeriodicFacts.

(** ** Start-up: [initialize], [bootstrap] and [main] *)

Section StartupFacts.

Import Py P2PNode.

(** X26: [initialize] returns [True] only with a queue URL that is
    not empty, stored in [my_queue_url] and held by the transport for
    the node's own id; it returns [False] after a line that does not go
    through [_log]; and it raises only what reading resources.json
    raised, or what the stream raised at a line. *)
Theorem initialize_stores_own_queue_url :
  forall (out : console) (svc : SQSTransport.service) (file : resources)
         (self : P2PNode.t),
    let o := initialize out svc file self in
    node_id (state o) = node_id self
    /\ match returned o with
       | Ok true =>
           exists url,
             url <> ""
             /\ my_queue_url (state o) = Some url
             /\ _queue_url_cache (state o) !! node_id self = Some url
       | Ok false =>
           effects o <> []
           /\ forall line, ~ In (Logged line) (effects o)
       | Raise e =>
           file = Unreadable e \/ exists line, out line = Some e
       end.
Proof.
  intros out svc file self. cbv zeta. unfold initialize.
  destruct file as [| e | queues].
  - unfold bind, print.
    destruct (out _) as [e |] eqn:Hout; cbn.
    + split; [reflexivity |]. right. eexists. exact Hout.
    + repeat split; [discriminate |].
      intros line [Hin | []]. discriminate Hin.
  - cbn. split; [reflexivity |]. left. reflexivity.
  - pose proof (get_queue_url_cached svc queues (node_id self)) as Hcached.
    destruct (SQSTransport.get_queue_url svc queues (node_id self))
      as [url cache calls] eqn:Ha.
    cbn [SQSTransport.value_of SQSTransport.cache_of] in *.
    assert (forall u : option string,
               SQSTransport.usable url = None ->
               let o := (print out [Lit "[ERR] No queue URL for ";
                                    Fmt (PStr (node_id self));
                                    Lit ". Check resources.json."] ;;;
                         ret false) (with_transport self url cache) in
               node_id (state o) = node_id self
               /\ match returned o with
                  | Ok true => False
                  | Ok false =>
                      effects o <> []
                      /\ forall line, ~ In (Logged line) (effects o)
                  | Raise e => exists line, out line = Some e
                  end) as Hfalse.
    { intros _ _. cbv zeta. unfold bind, print.
      destruct (out _) as [e |] eqn:Hout; cbn.
      - split; [reflexivity |]. eexists. exact Hout.
      - repeat split; [discriminate |].
        intros line [Hin | []]. discriminate Hin. }
    destruct url as [u |]; cbn [SQSTransport.usable].
    + destruct (String.eqb_spec u "") as [E | E].
      * destruct (Hfalse None) as [Hid Hret]; [cbn; rewrite E; reflexivity |].
        split; [exact Hid |].
        destruct (returned _) as [[|] | e]; [contradiction | exact Hret |].
        right. exact Hret.
      * unfold bind, _log. cbn [with_transport node_id].
        destruct (out _) as [e |] eqn:Hout; cbn.
        -- split; [reflexivity |]. right. eexists. exact Hout.
        -- split; [reflexivity |]. exists u. repeat split; [exact E |].
           apply Hcached. reflexivity.
    + destruct (Hfalse None) as [Hid Hret]; [reflexivity |].
      split; [exact Hid |].
      destruct (returned _) as [[|] | e]; [contradiction | exact Hret |].
      right. exact Hret.
Qed.

Lemma bootstrap_raises (out : console) (bootstrap_nodes : option (list string))
    (self : P2PNode.t) :
  exists e, returned (bootstrap out bootstrap_nodes self) = Raise e.
Proof.
  unfold bootstrap, bind, _log.
  destruct (out _) as [e |]; cbn; eexists; reflexivity.
Qed.

(** X27: my_node.py as it stands never enters the main loop: for
    every command line, stream, service and resources.json, [main] ends
    by [sys.exit] (of the parser, for an id that is no student's, or
    after a failed [initialize]) or by an exception that nothing
    catches (at the latest the [NotImplementedError] of [bootstrap]);
    it never returns, what [node.run()] would do plays no part, and no
    message is handled or deleted. *)
Theorem main_never_reaches_run :
  forall (out : console) (svc : SQSTransport.service) (file : resources)
         (run run' : M event unit) (cl : MyNode.command_line),
    match cl with
    | MyNode.Refused status =>
        fst (MyNode.main out svc file run cl) = MyNode.SystemExit status
    | MyNode.Parsed _ =>
        fst (MyNode.main out svc file run cl) = MyNode.SystemExit 1
        \/ exists e, fst (MyNode.main out svc file run cl) = MyNode.Uncaught e
    end
    /\ fst (MyNode.main out svc file run cl) <> MyNode.Completed
    /\ MyNode.main out svc file run cl = MyNode.main out svc file run' cl
    /\ calls_in (snd (MyNode.main out svc file run cl)) = []
    /\ deleted_in (snd (MyNode.main out svc file run cl)) = [].
Proof.
  intros out svc file run run' cl. unfold MyNode.main.
  destruct cl as [status | a]; [cbn; repeat split; discriminate |].
  destruct (negb (existsb (String.eqb (MyNode.id a)) config.STUDENTS)).
  - destruct (out _) as [e |]; cbn; repeat split; try discriminate; eauto.
  - destruct (MyNode.__init__ (MyNode.id a) (MyNode.verbose a)) as [node | e];
      [| cbn; repeat split; try discriminate; eauto].
    destruct (returned (initialize out svc file (MyNode.base node)))
      as [[|] | e].
    + destruct (bootstrap_raises out (MyNode.bootstrap a)
                  (state (initialize out svc file (MyNode.base node))))
        as [e ->].
      cbn [fst snd].
      rewrite <- map_app, calls_in_effects, deleted_in_effects.
      repeat split; try discriminate; eauto.
    + cbn [fst snd]. rewrite calls_in_effects, deleted_in_effects.
      repeat split; try discriminate; eauto.
    + cbn [fst snd]. rewrite calls_in_effects, deleted_in_effects.
      repeat split; try discriminate; eauto.
Qed.

(** With everything in place (hugo, a stream that takes every line, a
    resources.json that holds hugo's queue), [main] ends at
    [bootstrap]. *)
Example main_stops_at_bootstrap :
  MyNode.main open_console failing_service
    (Queues {[ "hugo" := "https://sqs.us-east-1.amazonaws.com/194722398367/ds2032-node-hugo-p2p" ]})
    (ret tt) (MyNode.Parsed (MyNode.mk_args "hugo" false None))
  = (MyNode.Uncaught NotImplementedError,
     [Effect (Logged [Lit "Initialized. Queue: ";
                      Fmt (PStr "https://sqs.us-east-1.amazonaws.com/194722398367/ds2032-node-hugo-p2p")]);
      Effect (Logged [Lit "Bootstrapping via ";
                      Fmt (PList (map PStr config.BOTS)); Lit "..."])]).
Proof. vm_compute. reflexivity. Qed.

Lemma Qle_bool_true_false (a b : Q) : Qle_bool a b = false -> (b < a)%Q.
Proof.
  intros E. apply Qnot_le_lt. intros Hle. apply Qle_bool_iff in Hle. congruence.
Qed.

Lemma Qminus_self_lt (now rate : Q) : (0 < rate)%Q -> (now - now < rate)%Q.
Proof.
  intros Hr. assert (now - now == 0)%Q as -> by ring. exact Hr.
Qed.

(** X28: the two timers of the application never fire twice at the
    same instant: when [MyNode._run_periodic_tasks] returns, with
    publish and audit rates above zero, neither [_do_publish] nor
    [_do_audit] is due again at the clock reading it took; and the time
    stamps hold that reading or what they held before. *)
Theorem application_timers_are_rearmed :
  forall (T : tasks) (now_base now : Q) (self : MyNode.t),
    (0 < MyNode.publish_rate self)%Q ->
    (0 < MyNode.audit_interval self)%Q ->
    let o := MyNode._run_periodic_tasks T now_base now self in
    match MyNode.returned o with
    | Ok _ =>
        (now - MyNode._last_publish (MyNode.state o)
         < MyNode.publish_rate (MyNode.state o))%Q
        /\ (now - MyNode._last_audit (MyNode.state o)
            < MyNode.audit_interval (MyNode.state o))%Q
    | Raise _ =>
        MyNode._last_publish (MyNode.state o) = MyNode._last_publish self
        /\ MyNode._last_audit (MyNode.state o) = MyNode._last_audit self
    end.
Proof.
  intros T now_base now self Hp Ha. cbv zeta. unfold MyNode._run_periodic_tasks.
  destruct (returned (_run_periodic_tasks T now_base (MyNode.base self)));
    cbn [MyNode.returned MyNode.state]; [| split; reflexivity].
  cbn [MyNode.with_base MyNode.publish_rate MyNode._last_publish
       MyNode.audit_interval MyNode._last_audit].
  destruct (Qle_bool (MyNode.publish_rate self) (now - MyNode._last_publish self))
    eqn:Ep;
    cbn [MyNode.with_last_publish MyNode.with_base MyNode.publish_rate
         MyNode._last_publish MyNode.audit_interval MyNode._last_audit MyNode.base];
    destruct (Qle_bool (MyNode.audit_interval self) (now - MyNode._last_audit self))
      eqn:Ea;
    cbn [MyNode.with_last_audit MyNode.with_last_publish MyNode.with_base
         MyNode.publish_rate MyNode._last_publish MyNode.audit_interval
         MyNode._last_audit MyNode.base];
    split;
    first [ apply Qminus_self_lt; assumption
          | apply Qle_bool_true_false; assumption ].
Qed.

Lemma application_timers_are_rearmed_witness :
  let o := MyNode._run_periodic_tasks shell_tasks 5 1762000000 sample_my_node in
  match MyNode.returned o with
  | Ok _ =>
      (1762000000 - MyNode._last_publish (MyNode.state o)
       < MyNode.publish_rate (MyNode.state o))%Q
      /\ (1762000000 - MyNode._last_audit (MyNode.state o)
          < MyNode.audit_interval (MyNode.state o))%Q
  | Raise _ =>
      MyNode._last_publish (MyNode.state o) = MyNode._last_publish sample_my_node
      /\ MyNode._last_audit (MyNode.state o) = MyNode._last_audit sample_my_node
  end.
Proof.
  apply (application_timers_are_rearmed shell_tasks 5 1762000000 sample_my_node);
    reflexivity.
Defined.

End StartupFacts.
